(** * SkSL Rehydrator: a shallow embedding of src/sksl/SkSLRehydrator.cpp

    The decoder of dehydrated SkSL modules is embedded as a state-and-error
    monad over an explicit machine state: the members of the C++
    [Rehydrator] object (cursor, current symbol table, id table), the
    heap objects it allocates or mutates (symbols, symbol tables, modifiers
    pools, program configurations) and the ambient compiler context.

    Pointers are heap indices; [None] is [nullptr].  What C++ leaves
    undefined - a null pointer dereferenced, a vector indexed past its size -
    ends the run with a [Failure] that names it.  The recursive decoders
    are defined by recursion on a fuel counter that bounds the nesting
    depth of calls; one more than the length of the buffer is always enough
    ([session_ends]).  [SK_DEBUG] selects between the two builds that the
    source distinguishes ([#ifdef SK_DEBUG], [SkDEBUGCODE], [SkASSERT]). *)

From Stdlib Require Import ZArith Lia Reals Lra.
From stdpp Require Import base list strings gmap.

Open Scope Z_scope.

#[local] Set Warnings "-register-all".

(** ** Command tags *)

(** The tags that SkSLRehydrator.cpp dispatches on.  Their numeric values
    are declared in SkSLRehydrator.h and enter the model through [Env]. *)
Inductive Command :=
  | kArrayType_Command | kBinary_Command | kBlock_Command | kBoolLiteral_Command
  | kBreak_Command | kBuiltinLayout_Command | kConstructorArray_Command
  | kConstructorArrayCast_Command | kConstructorCompound_Command
  | kConstructorCompoundCast_Command | kConstructorDiagonalMatrix_Command
  | kConstructorMatrixResize_Command | kConstructorScalarCast_Command
  | kConstructorSplat_Command | kConstructorStruct_Command | kContinue_Command
  | kDefaultLayout_Command | kDefaultModifiers_Command | kDiscard_Command
  | kDo_Command | kElements_Command | kElementsComplete_Command
  | kExpressionStatement_Command | kField_Command | kFieldAccess_Command
  | kFloatLiteral_Command | kFor_Command | kFunctionCall_Command
  | kFunctionDeclaration_Command | kFunctionDefinition_Command
  | kFunctionPrototype_Command | kGlobalVar_Command | kIf_Command
  | kIndex_Command | kInterfaceBlock_Command | kIntLiteral_Command
  | kLayout_Command | kModifiers8Bit_Command | kModifiers_Command | kNop_Command
  | kPostfix_Command | kPrefix_Command | kProgram_Command | kReturn_Command
  | kSetting_Command | kSharedFunction_Command | kStructDefinition_Command
  | kStructType_Command | kSwitch_Command | kSwizzle_Command | kSymbolRef_Command
  | kSymbolTable_Command | kTernary_Command | kVariable_Command
  | kVariableReference_Command | kVarDeclaration_Command | kVoid_Command.

(** The case labels of each [switch] of the source, in source order. *)
Definition layoutCases : list Command :=
  [kBuiltinLayout_Command; kDefaultLayout_Command; kLayout_Command].

Definition modifiersCases : list Command :=
  [kDefaultModifiers_Command; kModifiers8Bit_Command; kModifiers_Command].

Definition symbolCases : list Command :=
  [kArrayType_Command; kFunctionDeclaration_Command; kField_Command;
   kStructType_Command; kSymbolRef_Command; kVariable_Command].

Definition elementCases : list Command :=
  [kFunctionDefinition_Command; kFunctionPrototype_Command; kGlobalVar_Command;
   kInterfaceBlock_Command; kStructDefinition_Command; kSharedFunction_Command;
   kElementsComplete_Command].

Definition statementCases : list Command :=
  [kBlock_Command; kBreak_Command; kContinue_Command; kDiscard_Command;
   kDo_Command; kExpressionStatement_Command; kFor_Command; kIf_Command;
   kNop_Command; kReturn_Command; kSwitch_Command; kVarDeclaration_Command;
   kVoid_Command].

Definition expressionCases : list Command :=
  [kBinary_Command; kBoolLiteral_Command; kConstructorArray_Command;
   kConstructorArrayCast_Command; kConstructorCompound_Command;
   kConstructorDiagonalMatrix_Command; kConstructorMatrixResize_Command;
   kConstructorScalarCast_Command; kConstructorSplat_Command;
   kConstructorStruct_Command; kConstructorCompoundCast_Command;
   kFieldAccess_Command; kFloatLiteral_Command; kFunctionCall_Command;
   kIndex_Command; kIntLiteral_Command; kPostfix_Command; kPrefix_Command;
   kSetting_Command; kSwizzle_Command; kTernary_Command;
   kVariableReference_Command; kVoid_Command].

(** ** Decoded objects *)

(** [Symbol*], [const Type*], [Variable*]: an index into the symbol heap. *)
Definition SymbolPtr := option nat.
(** [std::shared_ptr<SymbolTable>]: an index into the table heap. *)
Definition TablePtr := option nat.

(** [Layout] and [Modifiers] values, by the constructor call that makes
    them: [Layout()], [Layout()] with [fBuiltin] assigned, or the
    eight-argument constructor; [Modifiers()] or [Modifiers(l, flags)]. *)
Inductive Layout :=
  | LayoutDefault
  | LayoutBuiltin (builtin : Z)
  | LayoutOf (flags location offset binding index set builtin inputAttachmentIndex : Z).

Inductive Modifiers :=
  | ModifiersDefault
  | ModifiersOf (layout : Layout) (flags : Z).

(** Expressions record the factory call the decoder makes and its
    arguments.  A [nat] argument is a pointer the source dereferences
    ([*type]); a [SymbolPtr] one is passed on as a pointer.  The [float] of
    a float literal is held as its 32-bit IEEE-754 pattern. *)
Inductive Expression :=
  | EBinary (left : option Expression) (op : Z) (right : option Expression)
  | EBoolLiteral (value : bool)
  | EConstructorArray (type : nat) (args : list (option Expression))
  | EConstructorArrayCast (type : nat) (arg : option Expression)
  | EConstructorCompound (type : nat) (args : list (option Expression))
  | EConstructorDiagonalMatrix (type : nat) (arg : option Expression)
  | EConstructorMatrixResize (type : nat) (arg : option Expression)
  | EConstructorScalarCast (type : nat) (arg : option Expression)
  | EConstructorSplat (type : nat) (arg : option Expression)
  | EConstructorStruct (type : nat) (args : list (option Expression))
  | EConstructorCompoundCast (type : nat) (arg : option Expression)
  | EFieldAccess (base : option Expression) (index : Z) (ownerKind : Z)
  | EFloatLiteral (bits : Z) (type : SymbolPtr)
  | EFunctionCall (type : SymbolPtr) (function : nat) (args : list (option Expression))
  | EIndex (base : option Expression) (index : option Expression)
  | EIntLiteral (value : Z) (type : SymbolPtr)
  | EPostfix (operand : option Expression) (op : Z)
  | EPrefix (op : Z) (operand : option Expression)
  | ESetting (name : string)
  | ESwizzle (base : option Expression) (components : list Z)
  | ETernary (test ifTrue ifFalse : option Expression)
  | EVariableReference (var : nat) (refKind : Z).

Inductive Statement :=
  | SBlock (statements : list (option Statement)) (blockKind : Z) (symbols : TablePtr)
  | SBreak
  | SContinue
  | SDiscard
  | SDo (stmt : option Statement) (test : option Expression)
  | SExpressionStatement (expr : option Expression)
  | SFor (initializer : option Statement) (test next : option Expression)
         (body : option Statement) (symbols : TablePtr)
  | SIf (isStatic : bool) (test : option Expression) (ifTrue ifFalse : option Statement)
  | SNop
  | SReturn (expr : option Expression)
  | SSwitchCase (value : option Z) (stmt : option Statement)
  | SSwitch (isStatic : bool) (value : option Expression) (cases : list Statement)
            (symbols : TablePtr)
  | SVarDeclaration (var : SymbolPtr) (baseType : SymbolPtr) (arraySize : Z)
                    (value : option Expression).

Inductive ProgramElement :=
  | PFunctionDefinition (decl : nat) (body : option Statement) (builtin : bool)
  | PFunctionPrototype (decl : SymbolPtr) (builtin : bool)
  | PGlobalVarDeclaration (decl : option Statement)
  | PInterfaceBlock (var : nat) (typeName instanceName : string) (arraySize : Z)
  | PStructDefinition (type : nat).

Inductive SymbolKind := kType | kVariable | kField | kFunctionDeclaration.

(** The symbol objects the decoder makes, and [SymOtherType] for a type
    that comes with the builtin root (scalars, vectors, ...). *)
Inductive Symbol :=
  | SymArrayType (name : string) (componentType : nat) (count : Z)
  | SymStructType (name : string) (fields : list (Modifiers * string * SymbolPtr))
                  (interfaceBlock : bool)
  | SymOtherType (name : string) (unsigned : bool)
  | SymVariable (modifiers : Modifiers) (name : string) (type : SymbolPtr)
                (builtin : bool) (storage : Z)
  | SymField (owner : SymbolPtr) (fieldIndex : Z)
  | SymFunctionDeclaration (modifiers : Modifiers) (name : string)
                           (parameters : list nat) (returnType : SymbolPtr)
                           (builtin : bool) (definition : option ProgramElement).

Definition Symbol_kind (sym : Symbol) : SymbolKind :=
  match sym with
  | SymArrayType _ _ _ | SymStructType _ _ _ | SymOtherType _ _ => kType
  | SymVariable _ _ _ _ _ => kVariable
  | SymField _ _ => kField
  | SymFunctionDeclaration _ _ _ _ _ _ => kFunctionDeclaration
  end.

Definition Type_isUnsigned (sym : Symbol) : bool :=
  match sym with
  | SymOtherType _ u => u
  | _ => false
  end.

(** ** Machine state *)

(** Modelled from the spec: the SymbolTable class (src/sksl/ir/SkSLSymbolTable.h
    is not part of the sources).  A scope is a node of a parent-linked chain
    holding the symbols and strings whose storage it owns, in creation order,
    and an ordered list of visible (name, symbol) bindings. *)
Record SymbolTable := {
  fParent : TablePtr;
  fBuiltin : bool;
  fOwnedSymbols : list nat;
  fOwnedStrings : list string;
  fBindings : list (string * nat) }.

(** The members of ProgramConfig that [Rehydrator::program] assigns; the
    last one records [fSettings.fMaxVersionAllowed = SkSL::Version::k300]. *)
Record ProgramConfig := {
  fKind : Z;
  fRequiredSkSLVersion : Z;
  fMaxVersionAllowed300 : bool }.

(** The byte cursor: [src], [fIP] as an offset from [src], [fStringStart]
    likewise; [fEnd] is [src + length]. *)
Record Reader := {
  src : list Byte.byte;
  fIP : nat;
  fStringStart : nat }.

Definition fEnd (r : Reader) : nat := length (src r).

(** Heap objects reachable from the session. *)
Record Memory := {
  symbolHeap : list Symbol;
  tableHeap : list SymbolTable;
  poolHeap : list (list Modifiers);
  configHeap : list ProgramConfig }.

(** [Context::fConfig], [Context::fModifiersPool] and the thread's memory
    pool ([ThreadContext::MemoryPool()]); [Some true] is a pool attached to
    the thread, [Some false] a detached one, [None] the empty unique_ptr. *)
Record Ambient := {
  ctxConfig : option nat;
  ctxModifiersPool : option nat;
  threadMemoryPool : option bool }.

Record State := {
  reader : Reader;
  fSymbolTable : TablePtr;
  fSymbols : gmap Z SymbolPtr;
  memory : Memory;
  ambient : Ambient }.

Record ProgramInputs := { fUseFlipRTUniform : bool }.

(** A Program by the arguments [Rehydrator::program] constructs it from:
    the configuration, the elements, the modifiers pool, the symbol table,
    the memory pool ([false]: detached from the thread) and the inputs. *)
Record Program := {
  pConfig : option nat;
  pElements : list ProgramElement;
  pModifiers : option nat;
  pSymbols : TablePtr;
  pPool : bool;
  pInputs : ProgramInputs }.

(** The order in which the bytes of a 16- or 32-bit integer are on the
    wire. *)
Inductive ByteOrder := LeastSignificantFirst | MostSignificantFirst.

(** What SkSLRehydrator.cpp takes from declarations and collaborators
    outside the sources: the build flavour, the numeric values of the
    command tags and constants of SkSLRehydrator.h, the layout of the wire
    integers and of the string blob, and the compiler services it calls. *)
Class Env := {
  SK_DEBUG : bool;
  code : Command -> Z;
  kBuiltin_Symbol : Z;
  kVersion : Z;
  wireOrder : ByteOrder;
  stringAt : Reader -> option (string * nat);
  getArrayName : Symbol -> Z -> string;
  moduleForProgramKind : Z -> TablePtr;
  dsl_Start : Z -> Ambient -> Ambient;
  dsl_End : Ambient -> Ambient;
  FindBestFunctionForCall : nat -> list (option Expression) -> nat }.

(** ** The decoding monad *)

Inductive Failure :=
  | AssertionFailure      (* SkASSERT, SkASSERTF or SkDEBUGFAILF in an SK_DEBUG build *)
  | BufferUnderrun        (* a read at or past src + length *)
  | NullDereference       (* -> or * applied to nullptr *)
  | IndexOutOfRange       (* operator[] past the size of a vector *)
  | BadCast               (* a member used through a pointer cast to another class *)
  | UnresolvedReference.  (* an id or a builtin name that names nothing *)

Inductive Result (A : Type) :=
  | Ok (a : A) (s : State)
  | Fatal (f : Failure)
  | OutOfFuel.
Arguments Ok {A} a s.
Arguments Fatal {A} f.
Arguments OutOfFuel {A}.

Definition Decode (A : Type) : Type := State -> Result A.

#[global] Instance Decode_ret : MRet Decode := fun A a s => Ok a s.

#[global] Instance Decode_bind : MBind Decode := fun A B k m s =>
  match m s with
  | Ok a s1 => k a s1
  | Fatal f => Fatal f
  | OutOfFuel => OutOfFuel
  end.

Definition fatal {A} (f : Failure) : Decode A := fun _ => Fatal f.
Definition outOfFuel {A} : Decode A := fun _ => OutOfFuel.
Definition get : Decode State := fun s => Ok s s.
Definition modify (f : State -> State) : Decode unit := fun s => Ok tt (f s).

(** [for (int i = 0; i < count; ++i) out.push_back(body)] *)
Fixpoint repeatM {A} (count : nat) (body : Decode A) : Decode (list A) :=
  match count with
  | O => mret []
  | S n => x ← body; xs ← repeatM n body; mret (x :: xs)
  end.

Definition set_reader (r : Reader) (s : State) : State :=
  {| reader := r; fSymbolTable := fSymbolTable s; fSymbols := fSymbols s;
     memory := memory s; ambient := ambient s |}.

Definition set_fSymbolTable (t : TablePtr) (s : State) : State :=
  {| reader := reader s; fSymbolTable := t; fSymbols := fSymbols s;
     memory := memory s; ambient := ambient s |}.

Definition set_fSymbols (m : gmap Z SymbolPtr) (s : State) : State :=
  {| reader := reader s; fSymbolTable := fSymbolTable s; fSymbols := m;
     memory := memory s; ambient := ambient s |}.

Definition set_memory (m : Memory) (s : State) : State :=
  {| reader := reader s; fSymbolTable := fSymbolTable s; fSymbols := fSymbols s;
     memory := m; ambient := ambient s |}.

Definition set_ambient (a : Ambient) (s : State) : State :=
  {| reader := reader s; fSymbolTable := fSymbolTable s; fSymbols := fSymbols s;
     memory := memory s; ambient := a |}.

Definition set_fIP (ip : nat) (r : Reader) : Reader :=
  {| src := src r; fIP := ip; fStringStart := fStringStart r |}.

Definition set_fStringStart (p : nat) (r : Reader) : Reader :=
  {| src := src r; fIP := fIP r; fStringStart := p |}.

Definition set_symbolHeap (h : list Symbol) (m : Memory) : Memory :=
  {| symbolHeap := h; tableHeap := tableHeap m; poolHeap := poolHeap m;
     configHeap := configHeap m |}.

Definition set_tableHeap (h : list SymbolTable) (m : Memory) : Memory :=
  {| symbolHeap := symbolHeap m; tableHeap := h; poolHeap := poolHeap m;
     configHeap := configHeap m |}.

Definition set_poolHeap (h : list (list Modifiers)) (m : Memory) : Memory :=
  {| symbolHeap := symbolHeap m; tableHeap := tableHeap m; poolHeap := h;
     configHeap := configHeap m |}.

Definition set_configHeap (h : list ProgramConfig) (m : Memory) : Memory :=
  {| symbolHeap := symbolHeap m; tableHeap := tableHeap m; poolHeap := poolHeap m;
     configHeap := h |}.

Section Rehydrator.

Context {env : Env}.

(** ** Assertions and the primitive reader *)

(** [SkASSERT(cond)]: the condition is evaluated, and is fatal when false,
    only in a build that defines SK_DEBUG; otherwise the statement is
    empty. *)
Definition SkASSERT (cond : Decode bool) : Decode unit :=
  if SK_DEBUG
  then b ← cond; if (b : bool) then mret tt else fatal AssertionFailure
  else mret tt.

(** [switch (kind) { case ...: }]: the first case label equal to [kind]. *)
Definition switch (cases : list Command) (kind : Z) : option Command :=
  List.find (fun c => code c =? kind) cases.

Definition byteValue (b : Byte.byte) : Z := Z.of_N (Byte.to_N b).

(** The unsigned value of a sequence of wire bytes. *)
Definition assemble (bytes : list Z) : Z :=
  foldr (fun b acc => b + 256 * acc) 0
        (match wireOrder with
         | LeastSignificantFirst => bytes
         | MostSignificantFirst => reverse bytes
         end).

(** The two's complement reading of a [w]-bit pattern. *)
Definition signExtend (w : Z) (u : Z) : Z :=
  if Z.testbit u (w - 1) then u - 2 ^ w else u.

(** The pattern of the low [w] bits of an integer. *)
Definition truncate (w : Z) (v : Z) : Z := v mod 2 ^ w.

(** Modelled from the spec: the primitive reader of SkSLRehydrator.h
    (readU8 ... readS32, readString).  A cursor over the byte buffer decodes
    fixed-width integers in encode order; reading past the end of the
    buffer is fatal.  The string blob is opaque: [stringAt] yields the next
    string and the cursor after it. *)
Definition readU8 : Decode Z := fun s =>
  let r := reader s in
  match src r !! fIP r with
  | Some b => Ok (byteValue b) (set_reader (set_fIP (S (fIP r)) r) s)
  | None => Fatal BufferUnderrun
  end.

Definition readU16 : Decode Z :=
  b1 ← readU8; b2 ← readU8; mret (assemble [b1; b2]).

Definition readU32 : Decode Z :=
  b1 ← readU8; b2 ← readU8; b3 ← readU8; b4 ← readU8;
  mret (assemble [b1; b2; b3; b4]).

Definition readS8 : Decode Z := u ← readU8; mret (signExtend 8 u).
Definition readS16 : Decode Z := u ← readU16; mret (signExtend 16 u).
Definition readS32 : Decode Z := u ← readU32; mret (signExtend 32 u).

Definition readBool : Decode bool := u ← readU8; mret (negb (u =? 0)).

Definition readString : Decode string := fun s =>
  match stringAt (reader s) with
  | Some (str, ip) => Ok str (set_reader (set_fIP ip (reader s)) s)
  | None => Fatal BufferUnderrun
  end.

(** ** Heap access *)

Definition derefTable (p : TablePtr) : Decode (nat * SymbolTable) := fun s =>
  match p with
  | Some t =>
      match tableHeap (memory s) !! t with
      | Some tab => Ok (t, tab) s
      | None => Fatal NullDereference
      end
  | None => Fatal NullDereference
  end.

Definition derefSymbol (p : SymbolPtr) : Decode (nat * Symbol) := fun s =>
  match p with
  | Some i =>
      match symbolHeap (memory s) !! i with
      | Some sym => Ok (i, sym) s
      | None => Fatal NullDereference
      end
  | None => Fatal NullDereference
  end.

Definition alterTable (t : nat) (f : SymbolTable -> SymbolTable) : Decode unit :=
  modify (fun s =>
    set_memory (set_tableHeap (alter f t (tableHeap (memory s))) (memory s)) s).

(** [Symbol::name()]; a field is named by its owner's struct type. *)
Definition Symbol_name (m : Memory) (sym : Symbol) : option string :=
  match sym with
  | SymArrayType n _ _ | SymStructType n _ _ | SymOtherType n _
  | SymVariable _ n _ _ _ | SymFunctionDeclaration _ n _ _ _ _ => Some n
  | SymField (Some owner) index =>
      match symbolHeap m !! owner with
      | Some (SymVariable _ _ (Some t) _ _) =>
          match symbolHeap m !! t with
          | Some (SymStructType _ fields _) =>
              (fun f => f.1.2) <$> fields !! Z.to_nat index
          | _ => None
          end
      | _ => None
      end
  | SymField None _ => None
  end.

(** Modelled from the spec: the members of SymbolTable the decoder calls
    (SkSLSymbolTable.h is not part of the sources).  Taking ownership
    stores the object and appends it to the owned list of the scope;
    binding appends a (name, symbol) pair and leaves ownership alone; a
    lookup finds the latest binding of the name in the scope itself. *)
Definition takeOwnershipOfSymbol (sym : Symbol) : Decode nat :=
  '(t, _) ← (s ← get; derefTable (fSymbolTable s));
  s ← get;
  let p := length (symbolHeap (memory s)) in
  modify (fun s =>
    set_memory (set_symbolHeap (symbolHeap (memory s) ++ [sym]) (memory s)) s);;
  alterTable t (fun tab =>
    {| fParent := fParent tab; fBuiltin := fBuiltin tab;
       fOwnedSymbols := fOwnedSymbols tab ++ [p];
       fOwnedStrings := fOwnedStrings tab; fBindings := fBindings tab |});;
  mret p.

Definition takeOwnershipOfString (str : string) : Decode string :=
  '(t, _) ← (s ← get; derefTable (fSymbolTable s));
  alterTable t (fun tab =>
    {| fParent := fParent tab; fBuiltin := fBuiltin tab;
       fOwnedSymbols := fOwnedSymbols tab;
       fOwnedStrings := fOwnedStrings tab ++ [str]; fBindings := fBindings tab |});;
  mret str.

Definition withBinding (name : string) (sym : nat) (tab : SymbolTable) : SymbolTable :=
  {| fParent := fParent tab; fBuiltin := fBuiltin tab;
     fOwnedSymbols := fOwnedSymbols tab; fOwnedStrings := fOwnedStrings tab;
     fBindings := fBindings tab ++ [(name, sym)] |}.

Definition addWithoutOwnership (p : SymbolPtr) : Decode unit :=
  '(i, sym) ← derefSymbol p;
  s ← get;
  match Symbol_name (memory s) sym with
  | None => fatal NullDereference
  | Some name =>
      '(t, _) ← derefTable (fSymbolTable s);
      alterTable t (withBinding name i)
  end.

Definition isBuiltin : Decode bool :=
  '(_, tab) ← (s ← get; derefTable (fSymbolTable s)); mret (fBuiltin tab).

Definition SymbolTable_lookup (tab : SymbolTable) (name : string) : SymbolPtr :=
  snd <$> List.find (fun b => String.eqb (fst b) name) (reverse (fBindings tab)).

(** [while (root->fParent) root = root->fParent.get();] *)
Fixpoint walkToRoot (steps : nat) (root : nat) : Decode nat :=
  match steps with
  | O => outOfFuel
  | S n =>
      '(_, tab) ← derefTable (Some root);
      match fParent tab with
      | Some parent => walkToRoot n parent
      | None => mret root
      end
  end.

(** A parent chain without a cycle is no longer than the table heap. *)
Definition outermostAncestor (t : nat) : Decode nat :=
  s ← get; walkToRoot (S (length (tableHeap (memory s)))) t.

(** Modelled from the spec: [ModifiersPool::add] through
    [Rehydrator::modifiersPool()], the pool installed in the context. *)
Definition modifiersPool_add (m : Modifiers) : Decode Modifiers :=
  s ← get;
  match ctxModifiersPool (ambient s) with
  | None => fatal NullDereference
  | Some p =>
      match poolHeap (memory s) !! p with
      | None => fatal NullDereference
      | Some pool =>
          modify (fun s =>
            set_memory (set_poolHeap (<[p := pool ++ [m]]> (poolHeap (memory s)))
                                     (memory s)) s);;
          mret m
      end
  end.

(** Modelled from the spec: the id table of SkSLRehydrator.h ([addSymbol],
    [symbolRef], [possiblyBuiltinSymbolRef]).  A token equal to the reserved
    sentinel is followed by a name that is looked up in the outermost
    ancestor of the current scope; any other token is a session-local id that
    must already be registered.  A failed resolution is fatal. *)
Definition addSymbol (id : Z) (p : SymbolPtr) : Decode unit :=
  modify (fun s => set_fSymbols (<[id := p]> (fSymbols s)) s).

Definition symbolRef : Decode SymbolPtr :=
  id ← readU16;
  s ← get;
  match fSymbols s !! id with
  | Some p => mret p
  | None => fatal UnresolvedReference
  end.

Definition possiblyBuiltinSymbolRef : Decode SymbolPtr :=
  id ← readU16;
  if id =? kBuiltin_Symbol then
    name ← readString;
    '(t, _) ← (s ← get; derefTable (fSymbolTable s));
    root ← outermostAncestor t;
    '(_, tab) ← derefTable (Some root);
    match SymbolTable_lookup tab name with
    | Some p => mret (Some p)
    | None => fatal UnresolvedReference
    end
  else
    s ← get;
    match fSymbols s !! id with
    | Some p => mret p
    | None => fatal UnresolvedReference
    end.

(** ** Layout and modifiers *)

Definition layout : Decode Layout :=
  kind ← readU8;
  match switch layoutCases kind with
  | Some kBuiltinLayout_Command =>
      builtin ← readS16;
      mret (LayoutBuiltin builtin)
  | Some kDefaultLayout_Command => mret LayoutDefault
  | Some kLayout_Command =>
      (* int flags = this->readU32(); *)
      flags ← (u ← readU32; mret (signExtend 32 (truncate 32 u)));
      location ← readS8;
      offset ← readS16;
      binding ← readS16;
      index ← readS8;
      set ← readS8;
      builtin ← readS16;
      inputAttachmentIndex ← readS8;
      mret (LayoutOf flags location offset binding index set builtin
                     inputAttachmentIndex)
  | _ =>
      SkASSERT (mret false);;
      mret LayoutDefault
  end.

Definition modifiers : Decode Modifiers :=
  kind ← readU8;
  match switch modifiersCases kind with
  | Some kDefaultModifiers_Command => mret ModifiersDefault
  | Some kModifiers8Bit_Command =>
      l ← layout;
      flags ← readU8;
      mret (ModifiersOf l flags)
  | Some kModifiers_Command =>
      l ← layout;
      flags ← readS32;
      mret (ModifiersOf l flags)
  | _ =>
      SkASSERT (mret false);;
      mret ModifiersDefault
  end.

(** ** Symbols and types *)

Definition Symbol_is (k : SymbolKind) (sym : Symbol) : bool :=
  match k, Symbol_kind sym with
  | kType, kType | kVariable, kVariable | kField, kField
  | kFunctionDeclaration, kFunctionDeclaration => true
  | _, _ => false
  end.

(** [p->is<T>()], which dereferences [p]. *)
Definition pointee_is (k : SymbolKind) (p : SymbolPtr) : Decode bool :=
  '(_, sym) ← derefSymbol p; mret (Symbol_is k sym).

(** [Rehydrator::type()], over the symbol decoder it calls. *)
Definition type_of (symbol : Decode SymbolPtr) : Decode SymbolPtr :=
  result ← symbol;
  SkASSERT (pointee_is kType result);;
  mret result.

Fixpoint symbol (fuel : nat) : Decode SymbolPtr :=
  match fuel with
  | O => outOfFuel
  | S fuel' =>
    kind ← readU8;
    match switch symbolCases kind with
    | Some kArrayType_Command =>
        id ← readU16;
        componentType ← type_of (symbol fuel');
        count ← readS8;
        '(ct, ctObj) ← derefSymbol componentType;
        arrayName ← takeOwnershipOfString (getArrayName ctObj count);
        result ← takeOwnershipOfSymbol (SymArrayType arrayName ct count);
        addSymbol id (Some result);;
        mret (Some result)
    | Some kFunctionDeclaration_Command =>
        id ← readU16;
        mods ← modifiers;
        name ← readString;
        parameterCount ← readU8;
        parameters ← repeatM (Z.to_nat parameterCount)
                       (p ← symbol fuel'; '(v, _) ← derefSymbol p; mret v);
        returnType ← type_of (symbol fuel');
        pooled ← modifiersPool_add mods;
        builtin ← isBuiltin;
        sym ← takeOwnershipOfSymbol
                (SymFunctionDeclaration pooled name parameters returnType builtin None);
        addSymbol id (Some sym);;
        mret (Some sym)
    | Some kField_Command =>
        owner ← symbolRef;
        index ← readU8;
        result ← takeOwnershipOfSymbol (SymField owner index);
        mret (Some result)
    | Some kStructType_Command =>
        id ← readU16;
        name ← readString;
        fieldCount ← readU8;
        fields ← repeatM (Z.to_nat fieldCount)
                   (m ← modifiers;
                    fieldName ← readString;
                    type ← type_of (symbol fuel');
                    mret (m, fieldName, type));
        interfaceBlock ← readBool;
        nameChars ← takeOwnershipOfString name;
        result ← takeOwnershipOfSymbol (SymStructType nameChars fields interfaceBlock);
        addSymbol id (Some result);;
        mret (Some result)
    | Some kSymbolRef_Command => possiblyBuiltinSymbolRef
    | Some kVariable_Command =>
        id ← readU16;
        m ← (mods ← modifiers; modifiersPool_add mods);
        name ← readString;
        type ← type_of (symbol fuel');
        storage ← readU8;
        builtin ← isBuiltin;
        result ← takeOwnershipOfSymbol (SymVariable m name type builtin storage);
        addSymbol id (Some result);;
        mret (Some result)
    | _ =>
        (* printf("unsupported symbol %d\n", kind); *)
        SkASSERT (mret false);;
        mret None
    end
  end.

Definition type (fuel : nat) : Decode SymbolPtr := type_of (symbol fuel).

(** ** Symbol tables *)

(** [fSymbolTable = std::make_shared<SymbolTable>(std::move(fSymbolTable), builtin)] *)
Definition pushSymbolTable (builtin : bool) : Decode unit :=
  modify (fun s =>
    let t := length (tableHeap (memory s)) in
    let tab := {| fParent := fSymbolTable s; fBuiltin := builtin;
                  fOwnedSymbols := []; fOwnedStrings := []; fBindings := [] |} in
    set_fSymbolTable (Some t)
      (set_memory (set_tableHeap (tableHeap (memory s) ++ [tab]) (memory s)) s)).

(** One turn of the second loop of [Rehydrator::symbolTable]. *)
Definition visibleEntry (ownedSymbols : list SymbolPtr) : Decode unit :=
  index ← readU16;
  if negb (index =? kBuiltin_Symbol) then
    match ownedSymbols !! Z.to_nat index with
    | Some sym => addWithoutOwnership sym
    | None => fatal IndexOutOfRange
    end
  else
    name ← readString;
    '(t, _) ← (s ← get; derefTable (fSymbolTable s));
    root ← outermostAncestor t;
    '(_, rootTable) ← derefTable (Some root);
    let s := SymbolTable_lookup rootTable name in
    SkASSERT (mret (bool_decide (is_Some s)));;
    addWithoutOwnership s.

Definition symbolTable (fuel : nat) : Decode TablePtr :=
  command ← readU8;
  if command =? code kVoid_Command then mret None
  else
    SkASSERT (mret (command =? code kSymbolTable_Command));;
    builtin ← readBool;
    ownedCount ← readU16;
    pushSymbolTable builtin;;
    ownedSymbols ← repeatM (Z.to_nat ownedCount) (symbol fuel);
    symbolCount ← readU16;
    repeatM (Z.to_nat symbolCount) (visibleEntry ownedSymbols);;
    s ← get;
    mret (fSymbolTable s).

(** [AutoRehydratorSymbolTable symbols(this);] followed by [body] up to the
    end of the enclosing block, where the destructor runs. *)
Definition AutoRehydratorSymbolTable {A} (fuel : nat) (body : Decode A) : Decode A :=
  fOldSymbols ← (s ← get; mret (fSymbolTable s));
  symbols ← symbolTable fuel;
  (if symbols is Some _ then modify (set_fSymbolTable symbols) else mret tt);;
  result ← body;
  modify (set_fSymbolTable fOldSymbols);;
  mret result.

(** ** Expressions *)

(** [Rehydrator::expressionArray], over the expression decoder it calls. *)
Definition expressionArray_of (expression : Decode (option Expression))
  : Decode (list (option Expression)) :=
  count ← readU8;
  repeatM (Z.to_nat count) expression.

(** The body shared by the cast, resize and splat constructors:
    [type()], [expressionArray()], [SkASSERT(args.size() == 1)] and the
    factory call on [*type] and [std::move(args[0])]. *)
Definition singleArgumentConstructor
    (make : nat -> option Expression -> Expression)
    (type : Decode SymbolPtr) (expression : Decode (option Expression))
  : Decode (option Expression) :=
  t ← type;
  args ← expressionArray_of expression;
  SkASSERT (mret (length args =? 1)%nat);;
  '(ty, _) ← derefSymbol t;
  match args with
  | arg :: _ => mret (Some (make ty arg))
  | [] => fatal IndexOutOfRange
  end.

Definition listConstructor
    (make : nat -> list (option Expression) -> Expression)
    (type : Decode SymbolPtr) (expression : Decode (option Expression))
  : Decode (option Expression) :=
  t ← type;
  '(ty, _) ← derefSymbol t;
  args ← expressionArray_of expression;
  mret (Some (make ty args)).

Fixpoint expression (fuel : nat) : Decode (option Expression) :=
  match fuel with
  | O => outOfFuel
  | S fuel' =>
    kind ← readU8;
    match switch expressionCases kind with
    | Some kBinary_Command =>
        left ← expression fuel';
        op ← readU8;
        right ← expression fuel';
        mret (Some (EBinary left op right))
    | Some kBoolLiteral_Command =>
        value ← readBool;
        mret (Some (EBoolLiteral value))
    | Some kConstructorArray_Command =>
        listConstructor EConstructorArray (type fuel') (expression fuel')
    | Some kConstructorArrayCast_Command =>
        singleArgumentConstructor EConstructorArrayCast (type fuel') (expression fuel')
    | Some kConstructorCompound_Command =>
        listConstructor EConstructorCompound (type fuel') (expression fuel')
    | Some kConstructorDiagonalMatrix_Command =>
        singleArgumentConstructor EConstructorDiagonalMatrix (type fuel')
                                  (expression fuel')
    | Some kConstructorMatrixResize_Command =>
        singleArgumentConstructor EConstructorMatrixResize (type fuel')
                                  (expression fuel')
    | Some kConstructorScalarCast_Command =>
        singleArgumentConstructor EConstructorScalarCast (type fuel') (expression fuel')
    | Some kConstructorSplat_Command =>
        singleArgumentConstructor EConstructorSplat (type fuel') (expression fuel')
    | Some kConstructorStruct_Command =>
        listConstructor EConstructorStruct (type fuel') (expression fuel')
    | Some kConstructorCompoundCast_Command =>
        singleArgumentConstructor EConstructorCompoundCast (type fuel')
                                  (expression fuel')
    | Some kFieldAccess_Command =>
        base ← expression fuel';
        index ← readU8;
        ownerKind ← readU8;
        mret (Some (EFieldAccess base index ownerKind))
    | Some kFloatLiteral_Command =>
        t ← type fuel';
        floatBits ← readS32;
        (* float value; memcpy(&value, &floatBits, sizeof(value)); *)
        let value := truncate 32 floatBits in
        mret (Some (EFloatLiteral value t))
    | Some kFunctionCall_Command =>
        t ← type fuel';
        sym ← possiblyBuiltinSymbolRef;
        args ← expressionArray_of (expression fuel');
        '(f, _) ← derefSymbol sym;
        mret (Some (EFunctionCall t (FindBestFunctionForCall f args) args))
    | Some kIndex_Command =>
        base ← expression fuel';
        index ← expression fuel';
        mret (Some (EIndex base index))
    | Some kIntLiteral_Command =>
        t ← type fuel';
        '(_, tobj) ← derefSymbol t;
        if Type_isUnsigned tobj then
          value ← readU32;
          mret (Some (EIntLiteral value t))
        else
          value ← readS32;
          mret (Some (EIntLiteral value t))
    | Some kPostfix_Command =>
        op ← readU8;
        operand ← expression fuel';
        mret (Some (EPostfix operand op))
    | Some kPrefix_Command =>
        op ← readU8;
        operand ← expression fuel';
        mret (Some (EPrefix op operand))
    | Some kSetting_Command =>
        name ← readString;
        mret (Some (ESetting name))
    | Some kSwizzle_Command =>
        base ← expression fuel';
        count ← readU8;
        components ← repeatM (Z.to_nat count) readU8;
        mret (Some (ESwizzle base components))
    | Some kTernary_Command =>
        test ← expression fuel';
        ifTrue ← expression fuel';
        ifFalse ← expression fuel';
        mret (Some (ETernary test ifTrue ifFalse))
    | Some kVariableReference_Command =>
        '(var, _) ← (p ← possiblyBuiltinSymbolRef; derefSymbol p);
        refKind ← readU8;
        mret (Some (EVariableReference var refKind))
    | Some kVoid_Command => mret None
    | _ =>
        (* printf("unsupported expression %d\n", kind); *)
        SkASSERT (mret false);;
        mret None
    end
  end.

Definition expressionArray (fuel : nat) : Decode (list (option Expression)) :=
  expressionArray_of (expression fuel).

(** ** Statements *)

Fixpoint statement (fuel : nat) : Decode (option Statement) :=
  match fuel with
  | O => outOfFuel
  | S fuel' =>
    kind ← readU8;
    match switch statementCases kind with
    | Some kBlock_Command =>
        AutoRehydratorSymbolTable fuel'
          (count ← readU8;
           statements ← repeatM (Z.to_nat count) (statement fuel');
           blockKind ← readU8;
           s ← get;
           mret (Some (SBlock statements blockKind (fSymbolTable s))))
    | Some kBreak_Command => mret (Some SBreak)
    | Some kContinue_Command => mret (Some SContinue)
    | Some kDiscard_Command => mret (Some SDiscard)
    | Some kDo_Command =>
        stmt ← statement fuel';
        expr ← expression fuel';
        mret (Some (SDo stmt expr))
    | Some kExpressionStatement_Command =>
        expr ← expression fuel';
        mret (Some (SExpressionStatement expr))
    | Some kFor_Command =>
        AutoRehydratorSymbolTable fuel'
          (initializer ← statement fuel';
           test ← expression fuel';
           next ← expression fuel';
           body ← statement fuel';
           s ← get;
           mret (Some (SFor initializer test next body (fSymbolTable s))))
    | Some kIf_Command =>
        isStatic ← readBool;
        test ← expression fuel';
        ifTrue ← statement fuel';
        ifFalse ← statement fuel';
        mret (Some (SIf isStatic test ifTrue ifFalse))
    | Some kNop_Command => mret (Some SNop)
    | Some kReturn_Command =>
        expr ← expression fuel';
        mret (Some (SReturn expr))
    | Some kSwitch_Command =>
        isStatic ← readBool;
        AutoRehydratorSymbolTable fuel'
          (expr ← expression fuel';
           caseCount ← readU8;
           cases ← repeatM (Z.to_nat caseCount)
                     (isDefault ← readBool;
                      if (isDefault : bool) then
                        stmt ← statement fuel';
                        mret (SSwitchCase None stmt)
                      else
                        value ← readS32;
                        stmt ← statement fuel';
                        mret (SSwitchCase (Some value) stmt));
           s ← get;
           mret (Some (SSwitch isStatic expr cases (fSymbolTable s))))
    | Some kVarDeclaration_Command =>
        var ← symbolRef;
        baseType ← type fuel';
        arraySize ← readU8;
        value ← expression fuel';
        mret (Some (SVarDeclaration var baseType arraySize value))
    | Some kVoid_Command => mret None
    | _ =>
        (* printf("unsupported statement %d\n", kind); *)
        SkASSERT (mret false);;
        mret None
    end
  end.

(** ** Program elements *)

(** [decl->setDefinition(result.get())], a member of FunctionDeclaration
    called through the pointer that [symbolRef<FunctionDeclaration>] cast. *)
Definition setDefinition (decl : nat) (definition : ProgramElement) : Decode unit :=
  '(_, sym) ← derefSymbol (Some decl);
  match sym with
  | SymFunctionDeclaration m n ps r b _ =>
      modify (fun s =>
        set_memory
          (set_symbolHeap
             (<[decl := SymFunctionDeclaration m n ps r b (Some definition)]>
                (symbolHeap (memory s)))
             (memory s)) s)
  | _ => fatal BadCast
  end.

Definition isFunctionDefinition (e : option ProgramElement) : Decode bool :=
  match e with
  | Some (PFunctionDefinition _ _ _) => mret true
  | Some _ => mret false
  | None => fatal NullDereference
  end.

Fixpoint element (fuel : nat) : Decode (option ProgramElement) :=
  match fuel with
  | O => outOfFuel
  | S fuel' =>
    kind ← readU8;
    match switch elementCases kind with
    | Some kFunctionDefinition_Command =>
        decl ← symbolRef;
        body ← statement fuel';
        '(d, _) ← derefSymbol decl;
        builtin ← isBuiltin;
        let result := PFunctionDefinition d body builtin in
        setDefinition d result;;
        mret (Some result)
    | Some kFunctionPrototype_Command =>
        decl ← symbolRef;
        mret (Some (PFunctionPrototype decl false))
    | Some kGlobalVar_Command =>
        decl ← statement fuel';
        mret (Some (PGlobalVarDeclaration decl))
    | Some kInterfaceBlock_Command =>
        var ← symbol fuel';
        SkASSERT (if var is Some _ then pointee_is kVariable var else mret false);;
        typeName ← readString;
        instanceName ← readString;
        arraySize ← readU8;
        '(v, _) ← derefSymbol var;
        mret (Some (PInterfaceBlock v typeName instanceName arraySize))
    | Some kStructDefinition_Command =>
        ty ← symbol fuel';
        SkASSERT (if ty is Some _ then pointee_is kType ty else mret false);;
        '(t, _) ← derefSymbol ty;
        mret (Some (PStructDefinition t))
    | Some kSharedFunction_Command =>
        count ← readU8;
        repeatM (Z.to_nat count)
          (param ← symbol fuel';
           SkASSERT (pointee_is kVariable param));;
        decl ← symbol fuel';
        SkASSERT (pointee_is kFunctionDeclaration decl);;
        result ← element fuel';
        SkASSERT (isFunctionDefinition result);;
        mret result
    | Some kElementsComplete_Command => mret None
    | _ =>
        (* SkDEBUGFAILF("unsupported element %d\n", kind); *)
        SkASSERT (mret false);;
        mret None
    end
  end.

(** [while (std::unique_ptr<ProgramElement> elem = this->element())] *)
Fixpoint elementLoop (turns : nat) (element : Decode (option ProgramElement))
  : Decode (list ProgramElement) :=
  match turns with
  | O => outOfFuel
  | S n =>
      elem ← element;
      match elem with
      | Some e => rest ← elementLoop n element; mret (e :: rest)
      | None => mret []
      end
  end.

Definition elements (fuel : nat) : Decode (list ProgramElement) :=
  command ← readU8;
  SkASSERT (mret (command =? code kElements_Command));;
  elementLoop fuel (element fuel).

(** ** Programs *)

Definition set_ctxConfig (c : option nat) (a : Ambient) : Ambient :=
  {| ctxConfig := c; ctxModifiersPool := ctxModifiersPool a;
     threadMemoryPool := threadMemoryPool a |}.

Definition set_ctxModifiersPool (p : option nat) (a : Ambient) : Ambient :=
  {| ctxConfig := ctxConfig a; ctxModifiersPool := p;
     threadMemoryPool := threadMemoryPool a |}.

Definition set_threadMemoryPool (p : option bool) (a : Ambient) : Ambient :=
  {| ctxConfig := ctxConfig a; ctxModifiersPool := ctxModifiersPool a;
     threadMemoryPool := p |}.

(** [std::make_unique<ProgramConfig>()] with its three assignments. *)
Definition newConfig (kind version : Z) : Decode nat :=
  s ← get;
  let c := length (configHeap (memory s)) in
  modify (fun s =>
    set_memory (set_configHeap
      (configHeap (memory s) ++
         [{| fKind := kind; fRequiredSkSLVersion := version;
             fMaxVersionAllowed300 := true |}]) (memory s)) s);;
  mret c.

(** [std::make_unique<ModifiersPool>()] *)
Definition newModifiersPool : Decode nat :=
  s ← get;
  let p := length (poolHeap (memory s)) in
  modify (fun s =>
    set_memory (set_poolHeap (poolHeap (memory s) ++ [[]]) (memory s)) s);;
  mret p.

(** The tail of [Rehydrator::program], from the restoration of the context
    on. *)
Definition programEpilogue (config : nat) (modifiers : nat)
    (oldConfig oldModifiersPool : option nat) (elems : list ProgramElement)
  : Decode Program :=
  modify (fun s => set_ambient (set_ctxConfig oldConfig (ambient s)) s);;
  modify (fun s => set_ambient (set_ctxModifiersPool oldModifiersPool (ambient s)) s);;
  useFlip ← readBool;
  (* std::move(ThreadContext::MemoryPool()); pool->detachFromThread(); *)
  pool ← (s ← get; mret (threadMemoryPool (ambient s)));
  modify (fun s => set_ambient (set_threadMemoryPool None (ambient s)) s);;
  (if pool is Some _ then mret tt else fatal NullDereference);;
  symbols ← (s ← get; mret (fSymbolTable s));
  let result :=
    {| pConfig := Some config; pElements := elems; pModifiers := Some modifiers;
       pSymbols := symbols; pPool := false;
       pInputs := {| fUseFlipRTUniform := useFlip |} |} in
  (* fSymbolTable = fSymbolTable->fParent; *)
  '(_, tab) ← derefTable symbols;
  modify (set_fSymbolTable (fParent tab));;
  modify (fun s => set_ambient (dsl_End (ambient s)) s);;
  mret result.

Definition program (fuel : nat) : Decode Program :=
  command ← readU8;
  SkASSERT (mret (command =? code kProgram_Command));;
  kind ← readU8;
  version ← readU8;
  config ← newConfig kind version;
  oldConfig ← (s ← get; mret (ctxConfig (ambient s)));
  oldModifiersPool ← (s ← get; mret (ctxModifiersPool (ambient s)));
  modify (fun s => set_ambient (set_ctxConfig (Some config) (ambient s)) s);;
  modify (set_fSymbolTable (moduleForProgramKind kind));;
  modify (fun s => set_ambient (dsl_Start kind (ambient s)) s);;
  modifiers ← newModifiersPool;
  modify (fun s => set_ambient (set_ctxModifiersPool (Some modifiers) (ambient s)) s);;
  symbolTable fuel;;
  elems ← elements fuel;
  programEpilogue config modifiers oldConfig oldModifiersPool elems.

(** ** The session *)

(** The state in which the body of the constructor starts: the member
    initialisers have run.  [symbols] is the root table the caller passes,
    or the one that the delegating constructor has the compiler make. *)
Definition initialState (bytes : list Byte.byte) (symbols : TablePtr)
    (m : Memory) (a : Ambient) : State :=
  {| reader := {| src := bytes; fIP := 0; fStringStart := 0 |};
     fSymbolTable := symbols; fSymbols := ∅; memory := m; ambient := a |}.

(** The body of [Rehydrator::Rehydrator]. *)
Definition construct : Decode unit :=
  SkASSERT (s ← get; mret (bool_decide (is_Some (fSymbolTable s))));;
  SkASSERT isBuiltin;;
  (* fIP = src; *)
  modify (fun s => set_reader (set_fIP 0 (reader s)) s);;
  version ← readU16;
  SkASSERT (mret (version =? kVersion));;
  modify (fun s => set_reader (set_fStringStart (fIP (reader s)) (reader s)) s);;
  (* fIP += this->readU16(); *)
  len ← readU16;
  modify (fun s => set_reader (set_fIP (fIP (reader s) + Z.to_nat len) (reader s)) s).

(** [Rehydrator::~Rehydrator], which exists under [#ifdef SK_DEBUG] only. *)
Definition destruct_ : Decode unit :=
  if SK_DEBUG
  then SkASSERT (s ← get; mret (fIP (reader s) =? fEnd (reader s))%nat)
  else mret tt.

(** A decode session: construction, one [program()] call, destruction. *)
Definition session (fuel : nat) (bytes : list Byte.byte) (symbols : TablePtr)
    (m : Memory) (a : Ambient) : Result Program :=
  (construct;; p ← program fuel; destruct_;; mret p)
    (initialState bytes symbols m a).


End Rehydrator.

(** ** A concrete environment and concrete inputs *)

Module Example.

(** Tags numbered in the order of their declaration. *)
Definition tagValue (c : Command) : Z :=
  match c with
  | kArrayType_Command => 0 | kBinary_Command => 1 | kBlock_Command => 2
  | kBoolLiteral_Command => 3 | kBreak_Command => 4 | kBuiltinLayout_Command => 5
  | kConstructorArray_Command => 6 | kConstructorArrayCast_Command => 7
  | kConstructorCompound_Command => 8 | kConstructorCompoundCast_Command => 9
  | kConstructorDiagonalMatrix_Command => 10 | kConstructorMatrixResize_Command => 11
  | kConstructorScalarCast_Command => 12 | kConstructorSplat_Command => 13
  | kConstructorStruct_Command => 14 | kContinue_Command => 15
  | kDefaultLayout_Command => 16 | kDefaultModifiers_Command => 17
  | kDiscard_Command => 18 | kDo_Command => 19 | kElements_Command => 20
  | kElementsComplete_Command => 21 | kExpressionStatement_Command => 22
  | kField_Command => 23 | kFieldAccess_Command => 24 | kFloatLiteral_Command => 25
  | kFor_Command => 26 | kFunctionCall_Command => 27
  | kFunctionDeclaration_Command => 28 | kFunctionDefinition_Command => 29
  | kFunctionPrototype_Command => 30 | kGlobalVar_Command => 31 | kIf_Command => 32
  | kIndex_Command => 33 | kInterfaceBlock_Command => 34 | kIntLiteral_Command => 35
  | kLayout_Command => 36 | kModifiers8Bit_Command => 37 | kModifiers_Command => 38
  | kNop_Command => 39 | kPostfix_Command => 40 | kPrefix_Command => 41
  | kProgram_Command => 42 | kReturn_Command => 43 | kSetting_Command => 44
  | kSharedFunction_Command => 45 | kStructDefinition_Command => 46
  | kStructType_Command => 47 | kSwitch_Command => 48 | kSwizzle_Command => 49
  | kSymbolRef_Command => 50 | kSymbolTable_Command => 51 | kTernary_Command => 52
  | kVariable_Command => 53 | kVariableReference_Command => 54
  | kVarDeclaration_Command => 55 | kVoid_Command => 56
  end.

(** A string reference is a 16-bit offset from [fStringStart]; the string
    there is a length byte followed by its characters. *)
Definition blobString (r : Reader) : option (string * nat) :=
  lo ← src r !! fIP r;
  hi ← src r !! S (fIP r);
  let offset := (N.to_nat (Byte.to_N lo) + 256 * N.to_nat (Byte.to_N hi))%nat in
  len ← src r !! (fStringStart r + offset)%nat;
  let chars := take (N.to_nat (Byte.to_N len))
                    (drop (S (fStringStart r + offset)) (src r)) in
  Some (String.string_of_list_byte chars, S (S (fIP r))).

Definition arrayNameOf (component : Symbol) (count : Z) : string :=
  match component with
  | SymArrayType n _ _ | SymStructType n _ _ | SymOtherType n _
  | SymVariable _ n _ _ _ | SymFunctionDeclaration _ n _ _ _ _ => n ++ "[]"
  | SymField _ _ => "[]"
  end.

Definition env (debug : bool) : Env :=
  {| SK_DEBUG := debug;
     code := tagValue;
     kBuiltin_Symbol := 65535;
     kVersion := 11;
     wireOrder := LeastSignificantFirst;
     stringAt := blobString;
     getArrayName := arrayNameOf;
     moduleForProgramKind := fun _ => Some 1%nat;
     dsl_Start := fun _ a => set_threadMemoryPool (Some true) a;
     dsl_End := fun a => a;
     FindBestFunctionForCall := fun f _ => f |}.

Definition debugBuild : Env := env true.
Definition releaseBuild : Env := env false.

Definition wire (bytes : list Z) : list Byte.byte :=
  (fun z => default Byte.x00 (Byte.of_N (Z.to_N z))) <$> bytes.

(** The builtin root with int, uint and float, and one module scope under
    it. *)
Definition builtinMemory : Memory :=
  {| symbolHeap := [SymOtherType "int" false; SymOtherType "uint" true;
                    SymOtherType "float" false];
     tableHeap :=
       [ {| fParent := None; fBuiltin := true; fOwnedSymbols := [0; 1; 2]%nat;
            fOwnedStrings := [];
            fBindings := [("int", 0%nat); ("uint", 1%nat); ("float", 2%nat)] |};
         {| fParent := Some 0%nat; fBuiltin := true; fOwnedSymbols := [];
            fOwnedStrings := []; fBindings := [] |} ];
     poolHeap := [[]];
     configHeap := [{| fKind := 0; fRequiredSkSLVersion := 0;
                       fMaxVersionAllowed300 := false |}] |}.

Definition outerAmbient : Ambient :=
  {| ctxConfig := Some 0%nat; ctxModifiersPool := Some 0%nat;
     threadMemoryPool := None |}.

(** version 11; a 23-byte string area holding a, b, add, int, uint and
    float. *)
Definition header : list Z :=
  [11; 0;  23; 0;
   1; 97;  1; 98;  3; 97; 100; 100;  3; 105; 110; 116;  4; 117; 105; 110; 116;
   5; 102; 108; 111; 97; 116].

Definition str_a : list Z := [2; 0].
Definition str_b : list Z := [4; 0].
Definition str_add : list Z := [6; 0].
Definition str_int : list Z := [10; 0].
Definition str_uint : list Z := [14; 0].

Definition builtinRef (name : list Z) : list Z := [255; 255] ++ name.

(** The root scope of the program below: it owns the declaration of
    [add] and its two parameters, and makes [add] visible. *)
Definition addSymbols : list Z :=
  [tagValue kSymbolTable_Command; 0; 1; 0] ++
    [tagValue kFunctionDeclaration_Command; 0; 0; tagValue kDefaultModifiers_Command] ++
      str_add ++ [2] ++
      [tagValue kVariable_Command; 1; 0; tagValue kDefaultModifiers_Command] ++ str_a ++
        [tagValue kSymbolRef_Command] ++ builtinRef str_int ++ [2] ++
      [tagValue kVariable_Command; 2; 0; tagValue kDefaultModifiers_Command] ++ str_b ++
        [tagValue kSymbolRef_Command] ++ builtinRef str_int ++ [2] ++
      [tagValue kSymbolRef_Command] ++ builtinRef str_int ++
    [1; 0;  0; 0].

(** [int add(int a, int b) { return a + b; }] *)
Definition addProgram : list Z :=
  header ++
  [tagValue kProgram_Command; 0; 0] ++
  addSymbols ++
  [tagValue kElements_Command] ++
    [tagValue kFunctionDefinition_Command; 0; 0] ++
      [tagValue kBlock_Command; tagValue kSymbolTable_Command; 0; 0; 0; 0; 0; 1] ++
        [tagValue kReturn_Command; tagValue kBinary_Command] ++
          [tagValue kVariableReference_Command; 1; 0; 0] ++ [30] ++
          [tagValue kVariableReference_Command; 2; 0; 0] ++
      [0] ++
    [tagValue kElementsComplete_Command] ++
  [0].

(** [addProgram] with the tag of its return statement overwritten by 200. *)
Definition corruptProgram : list Z :=
  take 86 addProgram ++ [200] ++ drop 87 addProgram.

(** [addProgram] under a header that announces version 12. *)
Definition staleProgram : list Z := [12; 0] ++ drop 2 addProgram.

(** [addProgram] followed by one byte that no decoder reads. *)
Definition paddedProgram : list Z := addProgram ++ [0].

Definition run (debug : bool) (bytes : list Z) : Result Program :=
  @session (env debug) 64 (wire bytes) (Some 0%nat) builtinMemory outerAmbient.

(** The offset at which the body starts, past the header. *)
Definition bodyStart : nat := 27.

(** The state in which a body decoder starts on [header ++ body]: the
    constructor has run and the module scope is current. *)
Definition bodyState (body : list Z) : State :=
  {| reader := {| src := wire (header ++ body); fIP := bodyStart; fStringStart := 2 |};
     fSymbolTable := Some 1%nat; fSymbols := ∅;
     memory := builtinMemory; ambient := outerAmbient |}.

Definition intType : list Z := [tagValue kSymbolRef_Command] ++ builtinRef str_int.
Definition uintType : list Z := [tagValue kSymbolRef_Command] ++ builtinRef str_uint.

(** A scalar cast to int of [count] boolean literals, the first one true. *)
Definition scalarCast (count : nat) : list Z :=
  [tagValue kConstructorScalarCast_Command] ++ intType ++ [Z.of_nat count] ++
  [tagValue kBoolLiteral_Command; 1] ++
  concat (replicate (count - 1) [tagValue kBoolLiteral_Command; 0]).

(** One owned symbol, the builtin int by reference, and after it the
    visible entry that binds owned symbol 0. *)
Definition ownedThenVisible : list Z := intType ++ [0; 0].

(** The same owned symbol, and a visible entry with index 7. *)
Definition ownedThenStray : list Z := intType ++ [7; 0].

(** A visible entry that names a builtin the root does not have. *)
Definition unknownBuiltin : list Z := builtinRef str_add.

(** A tag that is no case label of any switch. *)
Definition unknownTag : Z := 200.

(** A block without a scope table whose only statement has that tag. *)
Definition blockOfUnknown : list Z :=
  [tagValue kBlock_Command; tagValue kVoid_Command; 1; unknownTag; 0].

(** [switch (<absent>) { default: break; }] with no scope table. *)
Definition switchStatement : list Z :=
  [tagValue kSwitch_Command; 0; tagValue kVoid_Command; tagValue kVoid_Command;
   1; 1; tagValue kBreak_Command].

(** [{ break; }] with a scope table of its own. *)
Definition blockStatement : list Z :=
  [tagValue kBlock_Command; tagValue kSymbolTable_Command; 0; 0; 0; 0; 0;
   1; tagValue kBreak_Command; 0].

Definition str_float : list Z := [19; 0].
Definition floatType : list Z := [tagValue kSymbolRef_Command] ++ builtinRef str_float.

(** The float literal with wire pattern 0x40490FDB. *)
Definition piLiteral : list Z :=
  [tagValue kFloatLiteral_Command] ++ floatType ++ [0xDB; 0x0F; 0x49; 0x40].

(** The literal with all 32 bits set, typed int and typed uint. *)
Definition signedLiteral : list Z :=
  [tagValue kIntLiteral_Command] ++ intType ++ [255; 255; 255; 255].
Definition unsignedLiteral : list Z :=
  [tagValue kIntLiteral_Command] ++ uintType ++ [255; 255; 255; 255].

(** A layout with every field on the wire: flags 0x80000001, location -1,
    offset 258, binding -2, index 3, set -128, builtin 0x7FFF, input
    attachment index 127. *)
Definition fullLayout : list Z :=
  [tagValue kLayout_Command; 1; 0; 0; 128; 255; 2; 1; 254; 255; 3; 128; 255; 127; 127].


(** The variable [int a], under id 7. *)
Definition variableSymbol : list Z :=
  [tagValue kVariable_Command; 7; 0; tagValue kDefaultModifiers_Command] ++ str_a ++
  intType ++ [2].

(** An element list that never reaches its terminator: the global
    declaration [break;], a tag that is no case label, and three more
    bytes. *)
Definition cutElements : list Z :=
  [tagValue kElements_Command; tagValue kGlobalVar_Command; tagValue kBreak_Command;
   unknownTag; tagValue kGlobalVar_Command; tagValue kBreak_Command;
   tagValue kElementsComplete_Command].

(** A root scope that owns the declaration of [void f()], and the
    definition [void f() { break; }] after it. *)
Definition definedFunction : list Z :=
  [tagValue kSymbolTable_Command; 0; 1; 0] ++
    [tagValue kFunctionDeclaration_Command; 5; 0; tagValue kDefaultModifiers_Command] ++
      str_a ++ [0] ++ intType ++
    [0; 0] ++
  [tagValue kFunctionDefinition_Command; 5; 0; tagValue kBreak_Command].

(** The state that [symbolTable] leaves when it has decoded the scope at
    the head of [body]. *)
Definition afterTable (body : list Z) : State :=
  match symbolTable (env:=debugBuild) 8 (bodyState body) with
  | Ok _ s => s
  | _ => bodyState body
  end.

(** A compound constructor of type int with [count] boolean literals, all
    false. *)
Definition compound (count : nat) : list Z :=
  [tagValue kConstructorCompound_Command] ++ intType ++ [Z.of_nat count] ++
  concat (replicate count [tagValue kBoolLiteral_Command; 0]).

End Example.

(** * Vocabulary of the properties *)

(** The relations, classes and specification-side definitions that the
    statements below are written with. *)

(** ** Relations between states *)

(** [preserves R m]: every successful run of [m] relates the state before to
    the state after. *)
Definition preserves {A} (R : relation State) (m : Decode A) : Prop :=
  forall s a s', m s = Ok a s' -> R s s'.

(** [later] does whatever [earlier] does, unless [earlier] runs out of
    fuel. *)
Definition extends {A} (earlier later : Decode A) : Prop :=
  forall s, earlier s <> OutOfFuel -> later s = earlier s.

(** A relation between states that moving the cursor respects. *)
Class ReaderFrame (R : relation State) := {
  frame_preorder :: PreOrder R;
  frame_reader : forall s ip, R s (set_reader (set_fIP ip (reader s)) s) }.

(** One that every state-touching primitive of the symbol and expression
    decoders respects. *)
Class Frame (R : relation State) := {
  frame_reads :: ReaderFrame R;
  frame_fSymbols : forall s m, R s (set_fSymbols m s);
  frame_symbolHeap_alloc : forall s sym,
    R s (set_memory (set_symbolHeap (symbolHeap (memory s) ++ [sym]) (memory s)) s);
  frame_symbolHeap_insert : forall s i sym,
    R s (set_memory (set_symbolHeap (<[i := sym]> (symbolHeap (memory s))) (memory s)) s);
  frame_poolHeap_insert : forall s i pool,
    R s (set_memory (set_poolHeap (<[i := pool]> (poolHeap (memory s))) (memory s)) s);
  frame_alterTable : forall s t f,
    (forall tab, fParent (f tab) = fParent tab /\ fBuiltin (f tab) = fBuiltin tab) ->
    R s (set_memory (set_tableHeap (alter f t (tableHeap (memory s))) (memory s)) s) }.

(** A frame that the scope guard of Block, For and Switch respects too. *)
Class ScopedFrame {env : Env} (R : relation State) := {
  scoped_frame :: Frame R;
  frame_guard : forall A fuel (body : Decode A),
    preserves R body -> preserves R (AutoRehydratorSymbolTable fuel body) }.

(** A frame that also lets the current scope be replaced and a table be
    allocated is respected by [symbolTable], hence by the guard. *)
Class OpenFrame (R : relation State) := {
  open_frame :: Frame R;
  frame_fSymbolTable : forall s t, R s (set_fSymbolTable t s);
  frame_tableHeap_alloc : forall s tab,
    R s (set_memory (set_tableHeap (tableHeap (memory s) ++ [tab]) (memory s)) s) }.

(** The ambient current scope is the same pointer. *)
Definition sameScope : relation State :=
  fun s s' => fSymbolTable s' = fSymbolTable s.

(** The buffer is untouched. *)
Definition sameSource : relation State :=
  fun s s' => src (reader s') = src (reader s).

(** Every table is still there, under the same parent and with the same
    builtin flag. *)
Definition tablesExtend : relation State :=
  fun s s' => forall t tab, tableHeap (memory s) !! t = Some tab ->
    exists tab', tableHeap (memory s') !! t = Some tab'
                 /\ fParent tab' = fParent tab /\ fBuiltin tab' = fBuiltin tab.

(** Nothing but the cursor has moved. *)
Definition onlyCursor : relation State :=
  fun s s' => s' = set_reader (set_fIP (fIP (reader s')) (reader s)) s.

(** The ambient context is untouched. *)
Definition sameAmbient : relation State :=
  fun s s' => ambient s' = ambient s.

(** The heaps and the current scope are untouched. *)
Definition sameTables : relation State :=
  fun s s' => memory s' = memory s /\ fSymbolTable s' = fSymbolTable s.

(** ** Termination *)

(** The bytes between the cursor and the end of the buffer. *)
Definition remaining (s : State) : nat := length (src (reader s)) - fIP (reader s).

(** Every parent pointer goes to a table allocated earlier, and the
    current scope is a table of the heap. *)
Definition wellFormed (s : State) : Prop :=
  (forall t tab p, tableHeap (memory s) !! t = Some tab -> fParent tab = Some p ->
                   (p < t)%nat)
  /\ (forall t, fSymbolTable s = Some t -> (t < length (tableHeap (memory s)))%nat).

(** A well-formed state with fewer than [k] bytes left to read. *)
Definition before (k : nat) (s : State) : Prop :=
  wellFormed s /\ (remaining s < k)%nat.

(** From a state in [P], [m] does not run out of fuel, and it returns in
    [Q] when it returns. *)
Definition ends {A} (P : State -> Prop) (m : Decode A) (Q : State -> Prop) : Prop :=
  forall s, P s -> m s <> OutOfFuel /\ forall a s', m s = Ok a s' -> Q s'.

(** The module scopes that [program] installs are tables of the heap. *)
Definition modulesIn {env : Env} (s : State) : Prop :=
  forall kind t, moduleForProgramKind kind = Some t ->
                 is_Some (tableHeap (memory s) !! t).

(** ** Scopes and symbol tables *)

(** The two loops of [Rehydrator::symbolTable] and its return, which run
    once the new table is current. *)
Definition symbolTableLoops {env : Env} (fuel : nat) (ownedCount : Z) : Decode TablePtr :=
  ownedSymbols ← repeatM (Z.to_nat ownedCount) (symbol fuel);
  symbolCount ← readU16;
  repeatM (Z.to_nat symbolCount) (visibleEntry ownedSymbols);;
  s ← get;
  mret (fSymbolTable s).

(** The scope that a Block, For or Switch node was made with. *)
Definition recordedScope (st : option Statement) : option TablePtr :=
  match st with
  | Some (SBlock _ _ symbols) | Some (SFor _ _ _ _ symbols)
  | Some (SSwitch _ _ _ symbols) => Some symbols
  | _ => None
  end.

(** [inner] is a table allocated after [s] whose parent is the scope that
    was current in [s]. *)
Definition childScope (s s' : State) (inner : TablePtr) : Prop :=
  exists t tab, inner = Some t
    /\ (length (tableHeap (memory s)) <= t)%nat
    /\ tableHeap (memory s') !! t = Some tab
    /\ fParent tab = fSymbolTable s.

(** The state with a new table under the current scope, made current. *)
Definition withChildScope (builtin : bool) (s : State) : State :=
  set_fSymbolTable (Some (length (tableHeap (memory s))))
    (set_memory
       (set_tableHeap
          (tableHeap (memory s) ++
             [{| fParent := fSymbolTable s; fBuiltin := builtin;
                 fOwnedSymbols := []; fOwnedStrings := []; fBindings := [] |}])
          (memory s)) s).

(** The symbol-table protocol in the words of the specification, as
    relations between states, to compare [symbolTable] with. *)

(** [root] is the outermost ancestor of [t]: the end of its parent chain. *)
Inductive outermost (heap : list SymbolTable) : nat -> nat -> Prop :=
  | outermost_here t tab :
      heap !! t = Some tab -> fParent tab = None -> outermost heap t t
  | outermost_up t tab parent root :
      heap !! t = Some tab -> fParent tab = Some parent ->
      outermost heap parent root -> outermost heap t root.

(** The parent chain from [t] to its end, when it is [depth] links long. *)
Inductive outermostAt (heap : list SymbolTable) : nat -> nat -> nat -> Prop :=
  | outermostAt_here t tab :
      heap !! t = Some tab -> fParent tab = None -> outermostAt heap 0 t t
  | outermostAt_up depth t tab parent root :
      heap !! t = Some tab -> fParent tab = Some parent ->
      outermostAt heap depth parent root -> outermostAt heap (S depth) t root.

(** The current scope gains the binding of [sym] under its name, and
    nothing else changes: no owned list, no other table, no symbol. *)
Definition bindsWithoutOwnership (sym : nat) (s s' : State) : Prop :=
  exists obj name t tab,
    symbolHeap (memory s) !! sym = Some obj
    /\ Symbol_name (memory s) obj = Some name
    /\ fSymbolTable s = Some t
    /\ tableHeap (memory s) !! t = Some tab
    /\ s' = set_memory (set_tableHeap (<[t := withBinding name sym tab]>
                                         (tableHeap (memory s))) (memory s)) s.

(** One visible entry: a reference token, then either a builtin name
    looked up in the outermost ancestor or an index into the owned
    symbols. *)
Inductive bindsEntry {env : Env} (owned : list SymbolPtr) : State -> State -> Prop :=
  | binds_owned s index s1 sym s' :
      readU16 s = Ok index s1 ->
      index <> kBuiltin_Symbol ->
      owned !! Z.to_nat index = Some (Some sym) ->
      bindsWithoutOwnership sym s1 s' ->
      bindsEntry owned s s'
  | binds_builtin s s1 name s2 t root rootTable sym s' :
      readU16 s = Ok kBuiltin_Symbol s1 ->
      readString s1 = Ok name s2 ->
      fSymbolTable s2 = Some t ->
      outermost (tableHeap (memory s2)) t root ->
      tableHeap (memory s2) !! root = Some rootTable ->
      SymbolTable_lookup rootTable name = Some sym ->
      bindsWithoutOwnership sym s2 s' ->
      bindsEntry owned s s'.

Inductive bindsEntries {env : Env} (owned : list SymbolPtr)
  : nat -> State -> State -> Prop :=
  | entries_done s : bindsEntries owned 0 s s
  | entries_next n s s1 s' :
      bindsEntry owned s s1 -> bindsEntries owned n s1 s' ->
      bindsEntries owned (S n) s s'.

(** ** Expressions and the session *)

(** The cast, resize and splat constructors with the node each one makes. *)
Definition castFamily : list (Command * (nat -> option Expression -> Expression)) :=
  [ (kConstructorArrayCast_Command, EConstructorArrayCast);
    (kConstructorCompoundCast_Command, EConstructorCompoundCast);
    (kConstructorDiagonalMatrix_Command, EConstructorDiagonalMatrix);
    (kConstructorMatrixResize_Command, EConstructorMatrixResize);
    (kConstructorScalarCast_Command, EConstructorScalarCast);
    (kConstructorSplat_Command, EConstructorSplat) ].

(** The state the constructor leaves: the cursor past the string area, the
    string area starting at offset 2. *)
Definition constructed (s0 : State) (len : Z) : State :=
  set_reader {| src := src (reader s0); fIP := 4 + Z.to_nat len; fStringStart := 2 |} s0.

(** The state in which [Rehydrator::program] calls [symbolTable()], from
    the state [s] in which it has read its three header bytes: a new
    configuration and a new modifiers pool are installed in the context
    (after [dsl::Start]) and the module scope of [kind] is current. *)
Definition programStart {env : Env} (kind version : Z) (s : State) : State :=
  let config := length (configHeap (memory s)) in
  let modifiers := length (poolHeap (memory s)) in
  set_ambient
    (set_ctxModifiersPool (Some modifiers)
       (dsl_Start kind (set_ctxConfig (Some config) (ambient s))))
    (set_memory
       (set_poolHeap (poolHeap (memory s) ++ [[]])
          (set_configHeap
             (configHeap (memory s) ++
                [{| fKind := kind; fRequiredSkSLVersion := version;
                    fMaxVersionAllowed300 := true |}])
             (memory s)))
       (set_fSymbolTable (moduleForProgramKind kind) s)).

(** [sE] with the configuration and the modifiers pool of the context set
    to what they are in [s]. *)
Definition restoredContext (s sE : State) : State :=
  set_ambient
    (set_ctxModifiersPool (ctxModifiersPool (ambient s))
       (set_ctxConfig (ctxConfig (ambient s)) (ambient sE))) sE.

(** IEEE-754 binary32: the fields of a 32-bit pattern and the real number
    it denotes when its exponent field is not all ones. *)
Definition binary32_negative (bits : Z) : bool := Z.testbit bits 31.

Definition binary32_exponent (bits : Z) : Z := (bits / 2 ^ 23) mod 2 ^ 8.

Definition binary32_mantissa (bits : Z) : Z := bits mod 2 ^ 23.

Definition binary32_magnitude (bits : Z) : R :=
  if binary32_exponent bits =? 0
  then (IZR (binary32_mantissa bits) * powerRZ 2 (-149))%R
  else (IZR (2 ^ 23 + binary32_mantissa bits)
        * powerRZ 2 (binary32_exponent bits - 150))%R.

Definition binary32_value (bits : Z) : option R :=
  if binary32_exponent bits =? 255 then None
  else Some (if binary32_negative bits
             then (- binary32_magnitude bits)%R
             else binary32_magnitude bits).

(** [bits] denotes a binary32 number that no other is closer to [x]. *)
Definition binary32_nearest (x : R) (bits : Z) : Prop :=
  exists v, binary32_value bits = Some v
    /\ forall bits' v', binary32_value bits' = Some v' ->
         (Rabs (v - x) <= Rabs (v' - x))%R.

(** ** Wire sizes and ranges *)

(** The cursor has moved [n] bytes on, and nothing else has changed. *)
Definition advanced (n : nat) (s s' : State) : Prop :=
  s' = set_reader (set_fIP (fIP (reader s) + n) (reader s)) s.

(** The values of a two's complement integer of [w] bits. *)
Definition fitsSigned (w : Z) (v : Z) : Prop := - 2 ^ (w - 1) <= v < 2 ^ (w - 1).

(** The bytes of a layout, tag included, by the case its tag selects. *)
Definition layoutSize (c : option Command) : nat :=
  match c with
  | Some kBuiltinLayout_Command => 3
  | Some kLayout_Command => 15
  | _ => 1
  end.

(** Every field of a Layout is a value of the integer type it was read
    as. *)
Definition Layout_inRange (l : Layout) : Prop :=
  match l with
  | LayoutDefault => True
  | LayoutBuiltin builtin => fitsSigned 16 builtin
  | LayoutOf flags location offset binding index set builtin inputAttachmentIndex =>
      fitsSigned 32 flags /\ fitsSigned 8 location /\ fitsSigned 16 offset
      /\ fitsSigned 16 binding /\ fitsSigned 8 index /\ fitsSigned 8 set
      /\ fitsSigned 16 builtin /\ fitsSigned 8 inputAttachmentIndex
  end.

(** The shape of the Layout that each case of [Rehydrator::layout]
    returns. *)
Definition Layout_madeBy (c : option Command) (l : Layout) : Prop :=
  match c with
  | Some kBuiltinLayout_Command => exists builtin, l = LayoutBuiltin builtin
  | Some kLayout_Command =>
      exists flags location offset binding index set builtin inputAttachmentIndex,
        l = LayoutOf flags location offset binding index set builtin
                     inputAttachmentIndex
  | _ => l = LayoutDefault
  end.

(** ** Symbols *)

(** The tags under which [Rehydrator::symbol] reads an id and registers
    the symbol it makes. *)
Definition registering : list Command :=
  [kArrayType_Command; kFunctionDeclaration_Command; kStructType_Command;
   kVariable_Command].

(** The case of [Rehydrator::symbol] that makes a symbol of this class;
    none makes the types that come with the builtin root. *)
Definition Symbol_madeBy (sym : Symbol) : option Command :=
  match sym with
  | SymArrayType _ _ _ => Some kArrayType_Command
  | SymStructType _ _ _ => Some kStructType_Command
  | SymOtherType _ _ => None
  | SymVariable _ _ _ _ _ => Some kVariable_Command
  | SymField _ _ => Some kField_Command
  | SymFunctionDeclaration _ _ _ _ _ _ => Some kFunctionDeclaration_Command
  end.

(** ** Program elements *)

(** [decl->setDefinition(e)] on a symbol: a function declaration with its
    definition replaced; no other symbol has one. *)
Definition Symbol_withDefinition (sym : Symbol) (e : ProgramElement) : option Symbol :=
  match sym with
  | SymFunctionDeclaration m n ps r b _ =>
      Some (SymFunctionDeclaration m n ps r b (Some e))
  | _ => None
  end.

(** ** What only grows *)

(** A relation between states that is kept by the ways in which the
    decoders of symbols, expressions and statements change the state: the
    cursor steps over a byte or a string, an id is bound, a symbol or a
    table is allocated, a table or a modifiers pool is updated, the current
    scope is replaced. *)
Class Growth {env : Env} (R : relation State) := {
  growth_preorder :: PreOrder R;
  growth_byte : forall s,
    R s (set_reader (set_fIP (S (fIP (reader s))) (reader s)) s);
  growth_string : forall s str ip,
    stringAt (reader s) = Some (str, ip) ->
    R s (set_reader (set_fIP ip (reader s)) s);
  growth_fSymbols : forall s id p, R s (set_fSymbols (<[id := p]> (fSymbols s)) s);
  growth_symbolHeap : forall s sym,
    R s (set_memory (set_symbolHeap (symbolHeap (memory s) ++ [sym]) (memory s)) s);
  growth_poolHeap : forall s i pool,
    R s (set_memory (set_poolHeap (<[i := pool]> (poolHeap (memory s))) (memory s)) s);
  growth_alterTable : forall s t f,
    R s (set_memory (set_tableHeap (alter f t (tableHeap (memory s))) (memory s)) s);
  growth_fSymbolTable : forall s t, R s (set_fSymbolTable t s);
  growth_tableHeap : forall s tab,
    R s (set_memory (set_tableHeap (tableHeap (memory s) ++ [tab]) (memory s)) s) }.

(** One that is also kept when a function declaration is given its
    definition, which the decoder of elements does. *)
Class Definable {env : Env} (R : relation State) := {
  definable_growth :: Growth R;
  growth_setDefinition : forall s d decl e decl',
    symbolHeap (memory s) !! d = Some decl ->
    Symbol_withDefinition decl e = Some decl' ->
    R s (set_memory (set_symbolHeap (<[d := decl']> (symbolHeap (memory s)))
                                    (memory s)) s) }.

(** The cursor has not moved backwards. *)
Definition forward : relation State :=
  fun s s' => (fIP (reader s) <= fIP (reader s'))%nat.

(** Every symbol is where it was, as it was; symbols may have been added
    after them. *)
Definition symbolsKept : relation State :=
  fun s s' => symbolHeap (memory s) `prefix_of` symbolHeap (memory s').

(** Every symbol is where it was, and as it was unless it is a function
    declaration that has been given a definition. *)
Definition symbolsDefined : relation State :=
  fun s s' => forall i sym, symbolHeap (memory s) !! i = Some sym ->
    exists sym', symbolHeap (memory s') !! i = Some sym'
                 /\ (sym' = sym \/ exists e, Symbol_withDefinition sym e = Some sym').

(** The current scope is the same pointer, and every table that existed,
    other than the one of the current scope, is as it was. *)
Definition scopesKept : relation State :=
  fun s s' =>
    fSymbolTable s' = fSymbolTable s
    /\ (length (tableHeap (memory s)) <= length (tableHeap (memory s')))%nat
    /\ forall t, (t < length (tableHeap (memory s)))%nat ->
                 fSymbolTable s <> Some t ->
                 tableHeap (memory s') !! t = tableHeap (memory s) !! t.

(** ** Constructors, roots and programs *)

(** The constructors that take an argument list of any length, with the
    node each one makes. *)
Definition listFamily
  : list (Command * (nat -> list (option Expression) -> Expression)) :=
  [ (kConstructorArray_Command, EConstructorArray);
    (kConstructorCompound_Command, EConstructorCompound);
    (kConstructorStruct_Command, EConstructorStruct) ].

(** What belongs to the session and its caller rather than to the module
    being decoded: the buffer, the start of its string area, the compiler
    context and the program configurations. *)
Definition surroundingsKept : relation State :=
  fun s s' =>
    src (reader s') = src (reader s)
    /\ fStringStart (reader s') = fStringStart (reader s)
    /\ ambient s' = ambient s
    /\ configHeap (memory s') = configHeap (memory s).

(** The context and the configurations are untouched, no modifiers pool
    has been made, and the pools other than the one installed in the context
    are as they were. *)
Definition poolsKept : relation State :=
  fun s s' =>
    ambient s' = ambient s
    /\ configHeap (memory s') = configHeap (memory s)
    /\ length (poolHeap (memory s')) = length (poolHeap (memory s))
    /\ forall i, ctxModifiersPool (ambient s) <> Some i ->
                 poolHeap (memory s') !! i = poolHeap (memory s) !! i.

(** Every modifiers pool is where it was and holds what it held, first and
    in the same order. *)
Definition poolsExtended : relation State :=
  fun s s' => forall i pool, poolHeap (memory s) !! i = Some pool ->
    exists pool', poolHeap (memory s') !! i = Some pool' /\ pool `prefix_of` pool'.

(** The heap objects are untouched. *)
Definition sameMemory : relation State :=
  fun s s' => memory s' = memory s.

(** ** The two builds *)

(** The same environment in a build without assertions. *)
Definition withoutAssertions (e : Env) : Env :=
  {| SK_DEBUG := false;
     code := code;
     kBuiltin_Symbol := kBuiltin_Symbol;
     kVersion := kVersion;
     wireOrder := wireOrder;
     stringAt := stringAt;
     getArrayName := getArrayName;
     moduleForProgramKind := moduleForProgramKind;
     dsl_Start := dsl_Start;
     dsl_End := dsl_End;
     FindBestFunctionForCall := FindBestFunctionForCall |}.

(** Whatever [checked] returns, [unchecked] returns too. *)
Definition refines {A} (checked unchecked : Decode A) : Prop :=
  forall s a s', checked s = Ok a s' -> unchecked s = Ok a s'.

(** ** The bytes of a layout *)

(** The values of the bytes from the cursor on. *)
Definition input (s : State) : list Z :=
  byteValue <$> drop (fIP (reader s)) (src (reader s)).

(** The [n] bytes of the unsigned integer [u], least significant first. *)
Fixpoint littleEndian (n : nat) (u : Z) : list Z :=
  match n with
  | O => []
  | S n => u mod 256 :: littleEndian n (u / 256)
  end.

(** The bytes that the reader assembles to the [n]-byte two's complement
    integer [v]. *)
Definition wireBytes {env : Env} (n : nat) (v : Z) : list Z :=
  let bytes := littleEndian n (truncate (8 * Z.of_nat n) v) in
  match wireOrder with
  | LeastSignificantFirst => bytes
  | MostSignificantFirst => reverse bytes
  end.

(** The bytes that [Rehydrator::layout] reads as [l]. *)
Definition Layout_bytes {env : Env} (l : Layout) : list Z :=
  match l with
  | LayoutDefault => [code kDefaultLayout_Command]
  | LayoutBuiltin builtin => code kBuiltinLayout_Command :: wireBytes 2 builtin
  | LayoutOf flags location offset binding index set builtin inputAttachmentIndex =>
      code kLayout_Command ::
      wireBytes 4 flags ++ wireBytes 1 location ++ wireBytes 2 offset ++
      wireBytes 2 binding ++ wireBytes 1 index ++ wireBytes 1 set ++
      wireBytes 2 builtin ++ wireBytes 1 inputAttachmentIndex
  end.

(** Each tag of [cases] has a value that fits a byte and that selects its
    own case. *)
Definition tagsDistinct {env : Env} (cases : list Command) : Prop :=
  forall c, In c cases ->
    0 <= code c < 256 /\ List.find (fun c' => code c' =? code c) cases = Some c.

(** * Properties of the decoder *)

(** ** Reasoning about [Decode] computations *)

Lemma bind_Ok {A B} (m : Decode A) (k : A -> Decode B) s b s' :
  (m ≫= k) s = Ok b s' <-> exists a s1, m s = Ok a s1 /\ k a s1 = Ok b s'.
Proof.
  unfold mbind, Decode_bind. split.
  - destruct (m s) as [a s1| |] eqn:E; try discriminate. eauto.
  - intros (a & s1 & -> & Hk). exact Hk.
Qed.

Lemma bind_Fatal_l {A B} (m : Decode A) (k : A -> Decode B) s f :
  m s = Fatal f -> (m ≫= k) s = Fatal f.
Proof. unfold mbind, Decode_bind. now intros ->. Qed.

Lemma bind_Ok_l {A B} (m : Decode A) (k : A -> Decode B) s a s1 :
  m s = Ok a s1 -> (m ≫= k) s = k a s1.
Proof. unfold mbind, Decode_bind. now intros ->. Qed.

Section Preserves.

Context (R : relation State) `{!PreOrder R}.

Lemma preserves_ret {A} (a : A) : preserves R (mret a).
Proof. intros s a' s' [= _ <-]. reflexivity. Qed.

Lemma preserves_get : preserves R get.
Proof. intros s a' s' [= _ <-]. reflexivity. Qed.

Lemma preserves_fatal {A} f : preserves R (@fatal A f).
Proof. intros s a s' [=]. Qed.

Lemma preserves_outOfFuel {A} : preserves R (@outOfFuel A).
Proof. intros s a s' [=]. Qed.

Lemma preserves_modify f : (forall s, R s (f s)) -> preserves R (modify f).
Proof. intros Hf s a s' [= _ <-]. apply Hf. Qed.

Lemma preserves_bind {A B} (m : Decode A) (k : A -> Decode B) :
  preserves R m -> (forall a, preserves R (k a)) -> preserves R (m ≫= k).
Proof.
  intros Hm Hk s b s' (a & s1 & H1 & H2)%bind_Ok.
  transitivity s1; [eapply Hm | eapply Hk]; eassumption.
Qed.

Lemma preserves_repeatM {A} n (body : Decode A) :
  preserves R body -> preserves R (repeatM n body).
Proof.
  intros Hb. induction n as [|n IH]; simpl.
  - apply preserves_ret.
  - apply preserves_bind; [exact Hb|]. intros x.
    apply preserves_bind; [exact IH|]. intros xs. apply preserves_ret.
Qed.

End Preserves.

(** One step of a syntax-directed proof of [preserves R m]; [atom] closes
    the goals about single state updates. *)
Ltac preserves_step atom :=
  lazymatch goal with
  | |- preserves _ (mret _) => apply preserves_ret; try typeclasses eauto
  | |- preserves _ get => apply preserves_get; try typeclasses eauto
  | |- preserves _ (fatal _) => apply preserves_fatal
  | |- preserves _ outOfFuel => apply preserves_outOfFuel
  | |- preserves _ (modify _) => apply preserves_modify; intro; atom
  | |- preserves _ (_ ≫= _) => apply preserves_bind; [typeclasses eauto| |intro]
  | |- preserves _ (repeatM _ _) => apply preserves_repeatM; [typeclasses eauto|]
  | |- preserves _ (match ?x with _ => _ end) => destruct x
  | |- preserves _ (let '(_, _) := ?x in _) => destruct x
  | |- preserves _ (if ?b then _ else _) => destruct b
  | _ => atom
  end.

Ltac preserves_auto atom := repeat (preserves_step atom).

(** ** Frame relations *)

Section Reads.

Context {env : Env} (R : relation State) `{!ReaderFrame R}.

Lemma readU8_frame : preserves R readU8.
Proof.
  intros s a s'. unfold readU8.
  destruct (src (reader s) !! fIP (reader s)); intros [=]; subst. apply frame_reader.
Qed.

Lemma readString_frame : preserves R readString.
Proof.
  intros s a s'. unfold readString.
  destruct (stringAt (reader s)) as [[]|]; intros [=]; subst. apply frame_reader.
Qed.

Lemma derefTable_frame p : preserves R (derefTable p).
Proof.
  intros s a s'. unfold derefTable.
  destruct p; [destruct (_ !! _)|]; intros [=]; subst. reflexivity.
Qed.

Lemma derefSymbol_frame p : preserves R (derefSymbol p).
Proof.
  intros s a s'. unfold derefSymbol.
  destruct p; [destruct (_ !! _)|]; intros [=]; subst. reflexivity.
Qed.

Lemma walkToRoot_frame n t : preserves R (walkToRoot n t).
Proof.
  revert t. induction n as [|n IH]; intros t; simpl.
  - apply preserves_outOfFuel.
  - apply preserves_bind; [typeclasses eauto|apply derefTable_frame|].
    intros [? tab]. destruct (fParent tab); [apply IH|].
    apply preserves_ret; typeclasses eauto.
Qed.

End Reads.

Section Frames.

Context {env : Env} (R : relation State) `{!Frame R}.

Lemma alterTable_frame t f :
  (forall tab, fParent (f tab) = fParent tab /\ fBuiltin (f tab) = fBuiltin tab) ->
  preserves R (alterTable t f).
Proof. intros Hf. apply preserves_modify. intros s. now apply frame_alterTable. Qed.

End Frames.

Ltac frame_atom :=
  first [ assumption
        | apply readU8_frame | apply readString_frame | apply derefTable_frame
        | apply derefSymbol_frame | apply walkToRoot_frame
        | apply alterTable_frame; first [typeclasses eauto | intros; split; reflexivity]
        | apply frame_reader | apply frame_fSymbols | apply frame_symbolHeap_alloc
        | apply frame_symbolHeap_insert | apply frame_poolHeap_insert
        | apply frame_guard
        | typeclasses eauto
        | progress unfold readU16, readU32, readS8, readS16, readS32, readBool,
            SkASSERT, takeOwnershipOfSymbol, takeOwnershipOfString,
            addWithoutOwnership, isBuiltin, outermostAncestor, modifiersPool_add,
            addSymbol, symbolRef, possiblyBuiltinSymbolRef, layout, modifiers,
            pointee_is, type_of, type, setDefinition, isFunctionDefinition,
            expressionArray_of, expressionArray, singleArgumentConstructor,
            listConstructor ].

Ltac frame := preserves_auto frame_atom.

Lemma symbolTable_unfold {env : Env} fuel :
  symbolTable fuel =
    (command ← readU8;
     if command =? code kVoid_Command then mret None
     else
       SkASSERT (mret (command =? code kSymbolTable_Command));;
       builtin ← readBool;
       ownedCount ← readU16;
       pushSymbolTable builtin;;
       symbolTableLoops fuel ownedCount).
Proof. reflexivity. Qed.

Section Decoders.

Context {env : Env} (R : relation State).

Lemma symbol_frame `{!Frame R} fuel : preserves R (symbol fuel).
Proof.
  induction fuel as [|fuel IH]; cbn [symbol]; [apply preserves_outOfFuel|].
  frame.
Qed.

Lemma visibleEntry_frame `{!Frame R} owned : preserves R (visibleEntry owned).
Proof. unfold visibleEntry. frame. Qed.

Lemma symbolTableLoops_frame `{!Frame R} fuel ownedCount :
  preserves R (symbolTableLoops fuel ownedCount).
Proof.
  unfold symbolTableLoops. pose proof (symbol_frame fuel).
  preserves_auto ltac:(first [apply visibleEntry_frame | frame_atom]).
Qed.

Lemma type_frame `{!Frame R} fuel : preserves R (type fuel).
Proof. pose proof (symbol_frame fuel). frame. Qed.

Lemma expression_frame `{!Frame R} fuel : preserves R (expression fuel).
Proof.
  induction fuel as [|fuel IH]; cbn [expression]; [apply preserves_outOfFuel|].
  pose proof (symbol_frame fuel).
  frame.
Qed.

Lemma statement_frame `{!ScopedFrame R} fuel : preserves R (statement fuel).
Proof.
  induction fuel as [|fuel IH]; cbn [statement]; [apply preserves_outOfFuel|].
  pose proof (symbol_frame fuel). pose proof (expression_frame fuel).
  frame.
Qed.

Lemma element_frame `{!ScopedFrame R} fuel : preserves R (element fuel).
Proof.
  induction fuel as [|fuel IH]; cbn [element]; [apply preserves_outOfFuel|].
  pose proof (symbol_frame fuel). pose proof (statement_frame fuel).
  frame.
Qed.

Lemma elementLoop_frame `{!Frame R} n (element : Decode (option ProgramElement)) :
  preserves R element -> preserves R (elementLoop n element).
Proof.
  intros He. induction n as [|n IH]; cbn [elementLoop]; [apply preserves_outOfFuel|].
  frame.
Qed.

Lemma elements_frame `{!ScopedFrame R} fuel : preserves R (elements fuel).
Proof.
  unfold elements. pose proof (elementLoop_frame fuel _ (element_frame fuel)).
  frame.
Qed.

End Decoders.

(** ** The frames used below *)

#[export] Instance onlyCursor_frame : ReaderFrame onlyCursor.
Proof.
  split; [split|]; unfold onlyCursor.
  - intros [[] ? ? ? ?]. reflexivity.
  - intros s1 s2 s3 H12 H23. rewrite H23, H12. reflexivity.
  - intros. reflexivity.
Qed.

#[export] Instance sameScope_frame : Frame sameScope.
Proof.
  split; [split; [split; [intros ?; reflexivity
                         | intros ???; unfold sameScope; congruence]|]|..];
    intros; reflexivity.
Qed.

#[export] Instance sameSource_frame : Frame sameSource.
Proof.
  split; [split; [split; [intros ?; reflexivity
                         | intros ???; unfold sameSource; congruence]|]|..];
    intros; reflexivity.
Qed.

#[export] Instance sameAmbient_frame : Frame sameAmbient.
Proof.
  split; [split; [split; [intros ?; reflexivity
                         | intros ???; unfold sameAmbient; congruence]|]|..];
    intros; reflexivity.
Qed.

#[export] Instance tablesExtend_preorder : PreOrder tablesExtend.
Proof.
  split.
  - intros s t tab Ht. eauto.
  - intros s1 s2 s3 H12 H23 t tab Ht.
    destruct (H12 _ _ Ht) as (tab2 & Ht2 & Hp2 & Hb2).
    destruct (H23 _ _ Ht2) as (tab3 & Ht3 & Hp3 & Hb3).
    exists tab3. repeat split; congruence.
Qed.

#[export] Instance tablesExtend_frame : Frame tablesExtend.
Proof.
  split; [split; [typeclasses eauto|]|..]; unfold tablesExtend; simpl;
    try (intros; eauto; fail).
  intros s t f Hf t' tab Ht.
  destruct (decide (t = t')) as [->|Hne].
  - exists (f tab). rewrite list_lookup_alter_eq, Ht. simpl.
    destruct (Hf tab). auto.
  - exists tab. rewrite list_lookup_alter_ne by done. auto.
Qed.

Section Guards.

Context {env : Env}.

(** The guard puts the saved scope back, whatever its body does. *)
Lemma guard_restores {A} fuel (body : Decode A) s r s' :
  AutoRehydratorSymbolTable fuel body s = Ok r s' ->
  fSymbolTable s' = fSymbolTable s.
Proof.
  unfold AutoRehydratorSymbolTable.
  intros (old & s1 & Hold & H1)%bind_Ok.
  apply bind_Ok in Hold as (s0 & ? & [= <- <-] & [= <- <-]).
  apply bind_Ok in H1 as (symbols & s2 & _ & H2).
  apply bind_Ok in H2 as (? & s3 & _ & H3).
  apply bind_Ok in H3 as (res & s4 & _ & H4).
  apply bind_Ok in H4 as (? & s5 & [= _ <-] & [= _ <-]).
  reflexivity.
Qed.

#[export] Instance sameScope_scoped : ScopedFrame sameScope.
Proof.
  split; [typeclasses eauto|].
  intros A fuel body _ s r s' Hrun. exact (guard_restores _ _ _ _ _ Hrun).
Qed.

Section Open.

Context (R : relation State) `{!OpenFrame R}.

Lemma pushSymbolTable_frame b : preserves R (pushSymbolTable b).
Proof.
  apply preserves_modify. intros s.
  etransitivity; [apply frame_tableHeap_alloc|].
  apply (frame_fSymbolTable (set_memory _ s)).
Qed.

Lemma symbolTable_frame fuel : preserves R (symbolTable fuel).
Proof.
  rewrite symbolTable_unfold.
  preserves_auto ltac:(first [ apply symbolTableLoops_frame | apply pushSymbolTable_frame
                             | frame_atom ]).
Qed.

Lemma open_guard {A} fuel (body : Decode A) :
  preserves R body -> preserves R (AutoRehydratorSymbolTable fuel body).
Proof.
  intros Hbody. unfold AutoRehydratorSymbolTable.
  pose proof (symbolTable_frame fuel).
  preserves_auto ltac:(first [apply frame_fSymbolTable | frame_atom]).
Qed.

#[export] Instance open_scoped : ScopedFrame R.
Proof. split; [typeclasses eauto|]. intros. now apply open_guard. Qed.

End Open.

#[export] Instance sameSource_open : OpenFrame sameSource.
Proof. split; [typeclasses eauto|..]; intros; reflexivity. Qed.

#[export] Instance sameAmbient_open : OpenFrame sameAmbient.
Proof. split; [typeclasses eauto|..]; intros; reflexivity. Qed.

#[export] Instance tablesExtend_open : OpenFrame tablesExtend.
Proof.
  split; [typeclasses eauto|..]; unfold tablesExtend; simpl; intros; eauto.
  eexists. split; [|split; reflexivity].
  apply lookup_app_l_Some. assumption.
Qed.

End Guards.

(** ** Fuel *)

Section Fuel.

Context {env : Env}.

Lemma extends_refl {A} (m : Decode A) : extends m m.
Proof. intros s _. reflexivity. Qed.

Lemma extends_trans {A} (m1 m2 m3 : Decode A) :
  extends m1 m2 -> extends m2 m3 -> extends m1 m3.
Proof.
  intros H12 H23 s Hs. rewrite <- (H12 s Hs). apply H23. now rewrite (H12 s Hs).
Qed.

Lemma extends_outOfFuel {A} (m : Decode A) : extends outOfFuel m.
Proof. intros s []. reflexivity. Qed.

Lemma extends_bind {A B} (m1 m2 : Decode A) (k1 k2 : A -> Decode B) :
  extends m1 m2 -> (forall a, extends (k1 a) (k2 a)) ->
  extends (m1 ≫= k1) (m2 ≫= k2).
Proof.
  intros Hm Hk s. unfold mbind, Decode_bind. intros Hs.
  rewrite (Hm s) by (intros E; now rewrite E in Hs).
  destruct (m1 s) as [a s1| |]; [|reflexivity..].
  now apply Hk.
Qed.

Lemma extends_repeatM {A} n (body1 body2 : Decode A) :
  extends body1 body2 -> extends (repeatM n body1) (repeatM n body2).
Proof.
  intros Hb. induction n as [|n IH]; cbn [repeatM]; [apply extends_refl|].
  apply extends_bind; [exact Hb|]. intros x.
  apply extends_bind; [exact IH|]. intros xs. apply extends_refl.
Qed.

Lemma extends_elementLoop n (e1 e2 : Decode (option ProgramElement)) :
  extends e1 e2 -> extends (elementLoop n e1) (elementLoop (S n) e2).
Proof.
  intros He. induction n as [|n IH]; [apply extends_outOfFuel|].
  cbn [elementLoop] in *.
  apply extends_bind; [exact He|]. intros [e|]; [|apply extends_refl].
  apply extends_bind; [exact IH|]. intros rest. apply extends_refl.
Qed.

Ltac extends_step :=
  lazymatch goal with
  | |- extends ?m ?m => apply extends_refl
  | |- extends outOfFuel _ => apply extends_outOfFuel
  | |- extends (_ ≫= _) (_ ≫= _) => apply extends_bind; [|intro]
  | |- extends (repeatM _ _) (repeatM _ _) => apply extends_repeatM
  | |- extends (elementLoop _ _) (elementLoop _ _) => apply extends_elementLoop
  | |- extends (match ?x with _ => _ end) _ => destruct x
  | |- extends (let '(_, _) := ?x in _) _ => destruct x
  | |- extends (if ?b then _ else _) _ => destruct b
  | _ => first [ assumption
               | progress unfold type, type_of, expressionArray, expressionArray_of,
                   singleArgumentConstructor, listConstructor, SkASSERT,
                   AutoRehydratorSymbolTable, symbolTable ]
  end.

Ltac extends_auto := repeat extends_step.

Lemma symbol_step fuel : extends (symbol fuel) (symbol (S fuel)).
Proof.
  induction fuel as [|fuel IH]; [apply extends_outOfFuel|].
  cbn [symbol]. extends_auto.
Qed.

Lemma expression_step fuel : extends (expression fuel) (expression (S fuel)).
Proof.
  induction fuel as [|fuel IH]; [apply extends_outOfFuel|].
  pose proof (symbol_step fuel).
  cbn [expression]. extends_auto.
Qed.

Lemma statement_step fuel : extends (statement fuel) (statement (S fuel)).
Proof.
  induction fuel as [|fuel IH]; [apply extends_outOfFuel|].
  pose proof (symbol_step fuel). pose proof (expression_step fuel).
  cbn [statement]. extends_auto.
Qed.

Lemma element_step fuel : extends (element fuel) (element (S fuel)).
Proof.
  induction fuel as [|fuel IH]; [apply extends_outOfFuel|].
  pose proof (symbol_step fuel). pose proof (statement_step fuel).
  cbn [element]. extends_auto.
Qed.

Lemma program_step fuel : extends (program fuel) (program (S fuel)).
Proof.
  pose proof (symbol_step fuel). pose proof (element_step fuel).
  unfold program, elements. extends_auto.
Qed.

(** More fuel changes no result: a decode that ends, with a Program or
    with a failure of the decoder, ends the same way under any larger
    bound on the nesting depth. *)
Lemma program_fuel fuel more s :
  program fuel s <> OutOfFuel -> program (fuel + more) s = program fuel s.
Proof.
  intros Hs. induction more as [|more IH].
  - now rewrite Nat.add_0_r.
  - rewrite Nat.add_succ_r, <- IH. apply program_step. now rewrite IH.
Qed.

End Fuel.

(** ** Wire integers *)

Section Integers.

Context {env : Env}.

Lemma byteValue_range b : 0 <= byteValue b < 256.
Proof.
  unfold byteValue. pose proof (Byte.to_N_bounded b). lia.
Qed.

Lemma readU8_Ok s v s' :
  readU8 s = Ok v s' ->
  0 <= v < 256 /\ s' = set_reader (set_fIP (S (fIP (reader s))) (reader s)) s.
Proof.
  unfold readU8. destruct (src (reader s) !! fIP (reader s)) as [b|]; [|discriminate].
  intros [= <- <-]. split; [apply byteValue_range | reflexivity].
Qed.

Lemma assemble4_range b1 b2 b3 b4 :
  0 <= b1 < 256 -> 0 <= b2 < 256 -> 0 <= b3 < 256 -> 0 <= b4 < 256 ->
  0 <= assemble [b1; b2; b3; b4] < 2 ^ 32.
Proof.
  intros. unfold assemble. destruct wireOrder; simpl; lia.
Qed.

Lemma assemble2_range b1 b2 :
  0 <= b1 < 256 -> 0 <= b2 < 256 -> 0 <= assemble [b1; b2] < 2 ^ 16.
Proof.
  intros. unfold assemble. destruct wireOrder; simpl; lia.
Qed.

Lemma readU32_range s u s' : readU32 s = Ok u s' -> 0 <= u < 2 ^ 32.
Proof.
  unfold readU32.
  intros (b1 & s1 & H1 & (b2 & s2 & H2 & (b3 & s3 & H3 &
          (b4 & s4 & H4 & [= <- _])%bind_Ok)%bind_Ok)%bind_Ok)%bind_Ok.
  apply readU8_Ok in H1 as [? _], H2 as [? _], H3 as [? _], H4 as [? _].
  now apply assemble4_range.
Qed.

Lemma readU16_range s u s' : readU16 s = Ok u s' -> 0 <= u < 2 ^ 16.
Proof.
  unfold readU16.
  intros (b1 & s1 & H1 & (b2 & s2 & H2 & [= <- _])%bind_Ok)%bind_Ok.
  apply readU8_Ok in H1 as [? _], H2 as [? _].
  now apply assemble2_range.
Qed.

(** The top bit of a 32-bit pattern is set exactly from 2^31 on. *)
Lemma testbit31 u : 0 <= u < 2 ^ 32 -> Z.testbit u 31 = (2 ^ 31 <=? u).
Proof.
  intros Hu. rewrite Z.testbit_eqb by lia.
  assert (Hq : u / 2 ^ 31 = 0 \/ u / 2 ^ 31 = 1).
  { assert (0 <= u / 2 ^ 31 < 2); [|lia].
    split; [apply Z.div_pos; lia | apply Z.div_lt_upper_bound; lia]. }
  pose proof (Z.div_mod u (2 ^ 31) ltac:(lia)) as Hdm.
  pose proof (Z.mod_pos_bound u (2 ^ 31) ltac:(lia)) as Hm.
  destruct Hq as [Hq|Hq]; rewrite Hq in *; simpl; symmetry.
  - apply Z.leb_gt. lia.
  - apply Z.leb_le. lia.
Qed.

Lemma signExtend32_range u :
  0 <= u < 2 ^ 32 -> - 2 ^ 31 <= signExtend 32 u < 2 ^ 31.
Proof.
  intros Hu. unfold signExtend. replace (32 - 1) with 31 by lia.
  rewrite testbit31 by assumption.
  destruct (2 ^ 31 <=? u) eqn:E; [apply Z.leb_le in E | apply Z.leb_gt in E]; lia.
Qed.

Lemma signExtend32_pattern u : 0 <= u < 2 ^ 32 -> truncate 32 (signExtend 32 u) = u.
Proof.
  intros Hu. unfold truncate, signExtend. replace (32 - 1) with 31 by lia.
  destruct (Z.testbit u 31).
  - replace (u - 2 ^ 32) with (u + (-1) * 2 ^ 32) by lia.
    rewrite Z.mod_add by lia. apply Z.mod_small. lia.
  - apply Z.mod_small. lia.
Qed.

End Integers.

(** ** Literals *)

Section Literals.

Context {env : Env}.

(** C6.  An IntLiteral decodes its type first and reads the 32-bit raw value
    after it: zero-extended (the value is the unsigned wire pattern, within
    0 .. 2^32-1) when the type is unsigned, sign-extended (the value is the
    two's complement reading of the pattern, within -2^31 .. 2^31-1 and
    congruent to it modulo 2^32) when it is not. *)
Theorem intLiteral_extension fuel s kind s0 ty tobj s1 u s2 :
  readU8 s = Ok kind s0 ->
  switch expressionCases kind = Some kIntLiteral_Command ->
  type fuel s0 = Ok (Some ty) s1 ->
  symbolHeap (memory s1) !! ty = Some tobj ->
  readU32 s1 = Ok u s2 ->
  expression (S fuel) s =
    Ok (Some (EIntLiteral (if Type_isUnsigned tobj then u else signExtend 32 u)
                          (Some ty))) s2
  /\ 0 <= u < 2 ^ 32
  /\ - 2 ^ 31 <= signExtend 32 u < 2 ^ 31
  /\ truncate 32 (signExtend 32 u) = u.
Proof.
  intros Hkind Hcase Hty Hobj Hraw.
  pose proof (readU32_range _ _ _ Hraw) as Hu.
  split; [|split; [exact Hu|split;
    [apply signExtend32_range, Hu | apply signExtend32_pattern, Hu]]].
  cbn [expression]. rewrite (bind_Ok_l _ _ _ _ _ Hkind). rewrite Hcase.
  rewrite (bind_Ok_l _ _ _ _ _ Hty).
  assert (Hd : derefSymbol (Some ty) s1 = Ok (ty, tobj) s1)
    by (unfold derefSymbol; now rewrite Hobj).
  rewrite (bind_Ok_l _ _ _ _ _ Hd).
  destruct (Type_isUnsigned tobj).
  - now rewrite (bind_Ok_l _ _ _ _ _ Hraw).
  - unfold readS32. unfold mbind at 1, Decode_bind at 1.
    now rewrite (bind_Ok_l _ _ _ _ _ Hraw).
Qed.

End Literals.

Lemma intLiteral_extension_witness :
  (exists s2,
     expression (env:=Example.debugBuild) 3 (Example.bodyState Example.signedLiteral)
       = Ok (Some (EIntLiteral (-1) (Some 0%nat))) s2) /\
  (exists s2,
     expression (env:=Example.debugBuild) 3 (Example.bodyState Example.unsignedLiteral)
       = Ok (Some (EIntLiteral 4294967295 (Some 1%nat))) s2).
Proof.
  split.
  - edestruct (intLiteral_extension (env:=Example.debugBuild) 2
                 (Example.bodyState Example.signedLiteral)) as [E _];
      [vm_compute; reflexivity ..|].
    eexists. etransitivity; [exact E|]. vm_compute. reflexivity.
  - edestruct (intLiteral_extension (env:=Example.debugBuild) 2
                 (Example.bodyState Example.unsignedLiteral)) as [E _];
      [vm_compute; reflexivity ..|].
    eexists. etransitivity; [exact E|]. vm_compute. reflexivity.
Defined.

(** ** Scopes *)

Section Scopes.

Context {env : Env}.

Lemma SkASSERT_pure (b : bool) s u s' : SkASSERT (mret b) s = Ok u s' -> s' = s.
Proof.
  unfold SkASSERT. destruct SK_DEBUG; [destruct b|]; intros [=]; congruence.
Qed.

Lemma readBool_frame R `{!ReaderFrame R} : preserves R readBool.
Proof. frame. Qed.

Lemma readU16_frame R `{!ReaderFrame R} : preserves R readU16.
Proof. frame. Qed.

(** What [symbolTable] does to the current scope: nothing on a Void tag;
    otherwise it leaves current, and returns, a fresh table whose parent is
    the scope that was current before. *)
Lemma symbolTable_scope fuel s r s' :
  symbolTable fuel s = Ok r s' ->
  tablesExtend s s' /\
  ((r = None /\ fSymbolTable s' = fSymbolTable s)
   \/ (fSymbolTable s' = r /\ childScope s s' r)).
Proof.
  intros Hrun. split; [exact (symbolTable_frame tablesExtend fuel _ _ _ Hrun)|].
  rewrite symbolTable_unfold in Hrun.
  apply bind_Ok in Hrun as (command & s0 & Hc & Hrun).
  destruct (command =? code kVoid_Command).
  - injection Hrun as <- <-. left.
    pose proof (readU8_frame sameScope _ _ _ Hc). auto.
  - right.
    apply bind_Ok in Hrun as (? & s0' & ->%SkASSERT_pure & Hrun).
    apply bind_Ok in Hrun as (builtin & s1 & Hb & Hrun).
    apply bind_Ok in Hrun as (ownedCount & s2 & Hn & Hrun).
    assert (Hs2 : onlyCursor s s2).
    { transitivity s0; [exact (readU8_frame _ _ _ _ Hc)|].
      transitivity s1; [exact (readBool_frame _ _ _ _ Hb)|].
      exact (readU16_frame _ _ _ _ Hn). }
    apply bind_Ok in Hrun as (? & s3 & [= _ <-] & Hrun).
    set (s3 := set_fSymbolTable _ _) in Hrun.
    pose proof (symbolTableLoops_frame sameScope _ _ _ _ _ Hrun) as Hscope.
    pose proof (symbolTableLoops_frame tablesExtend _ _ _ _ _ Hrun) as Htabs.
    assert (Hr : r = fSymbolTable s').
    { unfold symbolTableLoops in Hrun.
      apply bind_Ok in Hrun as (owned & s5 & Ho & Hrun).
      apply bind_Ok in Hrun as (n & s6 & Hn' & Hrun).
      apply bind_Ok in Hrun as (? & s7 & Hv & Hrun).
      apply bind_Ok in Hrun as (? & ? & [= <- <-] & [= <- <-]). reflexivity. }
    split; [congruence|].
    assert (Hmem : memory s2 = memory s /\ fSymbolTable s2 = fSymbolTable s)
      by (rewrite Hs2; split; reflexivity).
    destruct Hmem as [Hmem Hcur].
    destruct (Htabs (length (tableHeap (memory s)))
                {| fParent := fSymbolTable s; fBuiltin := builtin;
                   fOwnedSymbols := []; fOwnedStrings := []; fBindings := [] |})
      as (tab & Htab & Hparent & _).
    { subst s3. simpl. rewrite Hmem, Hcur. apply list_lookup_middle. reflexivity. }
    exists (length (tableHeap (memory s))), tab.
    split; [|split; [lia|split; assumption]].
    rewrite Hr, Hscope. subst s3. simpl. now rewrite Hmem.
Qed.

(** The guard in full: the body runs under the scope that [symbolTable]
    left, and the saved scope is current again afterwards. *)
Lemma guard_scopes {A} fuel (body : Decode A) s r s' :
  preserves sameScope body -> preserves tablesExtend body ->
  AutoRehydratorSymbolTable fuel body s = Ok r s' ->
  exists s1 s2,
    body s1 = Ok r s2
    /\ s' = set_fSymbolTable (fSymbolTable s) s2
    /\ (fSymbolTable s2 = fSymbolTable s \/ childScope s s' (fSymbolTable s2)).
Proof.
  intros Hscope Htabs. unfold AutoRehydratorSymbolTable.
  intros (old & s0 & Hold & H1)%bind_Ok.
  apply bind_Ok in Hold as (? & ? & [= <- <-] & [= <- <-]).
  apply bind_Ok in H1 as (symbols & s1 & Hst & H2).
  apply bind_Ok in H2 as (? & s2 & Hset & H3).
  apply bind_Ok in H3 as (res & s3 & Hbody & H4).
  apply bind_Ok in H4 as (? & s4 & [= _ <-] & [= <- <-]).
  exists s2, s3. split; [exact Hbody|split; [reflexivity|]].
  pose proof (Hscope _ _ _ Hbody) as Hb. pose proof (Htabs _ _ _ Hbody) as Ht.
  unfold sameScope in Hb.
  destruct (symbolTable_scope _ _ _ _ Hst) as [_ [[-> Hsame]|[Hcur Hchild]]].
  - injection Hset as _ <-. left. congruence.
  - right. destruct Hchild as (t & tab & -> & Hfresh & Htab & Hparent).
    injection Hset as _ <-. simpl in Hb.
    destruct (Ht t tab) as (tab' & Htab' & Hparent' & _); [exact Htab|].
    exists t, tab'. rewrite Hb. simpl. repeat split; try assumption. congruence.
Qed.

(** C2.  Decoding a Block, For or Switch statement leaves the ambient
    current symbol table exactly as it found it.  The node itself records
    the scope the body was decoded under: the ambient one when the scope
    table on the wire is Void, and otherwise a child table pushed for the
    statement, whose parent is the ambient scope. *)
Theorem scope_balance fuel s kind s0 c r s' :
  readU8 s = Ok kind s0 ->
  switch statementCases kind = Some c ->
  c = kBlock_Command \/ c = kFor_Command \/ c = kSwitch_Command ->
  statement (S fuel) s = Ok r s' ->
  fSymbolTable s' = fSymbolTable s
  /\ exists inner, recordedScope r = Some inner
       /\ (inner = fSymbolTable s \/ childScope s s' inner).
Proof.
  intros Hkind Hcase Hc Hrun.
  split; [exact (statement_frame sameScope _ _ _ _ Hrun)|].
  pose proof (readU8_frame onlyCursor _ _ _ Hkind) as Hs0.
  assert (Hsame : memory s0 = memory s /\ fSymbolTable s0 = fSymbolTable s)
    by (rewrite Hs0; split; reflexivity).
  cbn [statement] in Hrun. rewrite (bind_Ok_l _ _ _ _ _ Hkind), Hcase in Hrun.
  assert (Hlift : forall st inner,
            fSymbolTable st = fSymbolTable s0 \/ childScope s0 s' (fSymbolTable st) ->
            inner = fSymbolTable st ->
            inner = fSymbolTable s \/ childScope s s' inner).
  { intros st inner [Heq|Hch] ->; [left; destruct Hsame; congruence|right].
    destruct Hsame as [Hm Hf]. unfold childScope in *. now rewrite <- Hm, <- Hf. }
  destruct Hc as [->|[->| ->]].
  - apply guard_scopes in Hrun as (s1 & s2 & Hbody & -> & Hinner).
    + apply bind_Ok in Hbody as (count & s3 & _ & Hbody).
      apply bind_Ok in Hbody as (stmts & s4 & _ & Hbody).
      apply bind_Ok in Hbody as (blockKind & s5 & _ & Hbody).
      apply bind_Ok in Hbody as (? & ? & [= <- <-] & [= <- <-]).
      eexists; split; [reflexivity|]. eapply Hlift; [exact Hinner|reflexivity].
    + pose proof (statement_frame sameScope fuel). frame.
    + pose proof (statement_frame tablesExtend fuel). frame.
  - apply guard_scopes in Hrun as (s1 & s2 & Hbody & -> & Hinner).
    + apply bind_Ok in Hbody as (init & s3 & _ & Hbody).
      apply bind_Ok in Hbody as (test & s4 & _ & Hbody).
      apply bind_Ok in Hbody as (next & s5 & _ & Hbody).
      apply bind_Ok in Hbody as (body & s6 & _ & Hbody).
      apply bind_Ok in Hbody as (? & ? & [= <- <-] & [= <- <-]).
      eexists; split; [reflexivity|]. eapply Hlift; [exact Hinner|reflexivity].
    + pose proof (statement_frame sameScope fuel).
      pose proof (expression_frame sameScope fuel). frame.
    + pose proof (statement_frame tablesExtend fuel).
      pose proof (expression_frame tablesExtend fuel). frame.
  - apply bind_Ok in Hrun as (isStatic & s0' & Hstatic & Hrun).
    pose proof (readBool_frame onlyCursor _ _ _ Hstatic) as Hs0'.
    assert (Hsame' : memory s0' = memory s0 /\ fSymbolTable s0' = fSymbolTable s0)
      by (rewrite Hs0'; split; reflexivity).
    apply guard_scopes in Hrun as (s1 & s2 & Hbody & -> & Hinner).
    + apply bind_Ok in Hbody as (expr & s3 & _ & Hbody).
      apply bind_Ok in Hbody as (caseCount & s4 & _ & Hbody).
      apply bind_Ok in Hbody as (cases & s5 & _ & Hbody).
      apply bind_Ok in Hbody as (? & ? & [= <- <-] & [= <- <-]).
      eexists; split; [reflexivity|]. eapply Hlift; [|reflexivity].
      destruct Hsame' as [Hm Hf]. unfold childScope in *.
      rewrite <- Hm, <- Hf. exact Hinner.
    + pose proof (statement_frame sameScope fuel).
      pose proof (expression_frame sameScope fuel). frame.
    + pose proof (statement_frame tablesExtend fuel).
      pose proof (expression_frame tablesExtend fuel). frame.
Qed.

End Scopes.

Lemma scope_balance_witness :
  (exists r s',
     statement (env:=Example.debugBuild) 3 (Example.bodyState Example.blockStatement)
       = Ok r s'
     /\ fSymbolTable s' = Some 1%nat
     /\ recordedScope r = Some (Some 2%nat))
  /\ (exists r s',
       statement (env:=Example.debugBuild) 3 (Example.bodyState Example.switchStatement)
         = Ok r s'
       /\ fSymbolTable s' = Some 1%nat
       /\ recordedScope r = Some (Some 1%nat)).
Proof.
  split.
  - edestruct (scope_balance (env:=Example.debugBuild) 2
                 (Example.bodyState Example.blockStatement)) as [Hbalance _];
      [vm_compute; reflexivity | vm_compute; reflexivity | left; reflexivity
      | vm_compute; reflexivity |].
    eexists _, _. split; [vm_compute; reflexivity|].
    split; [exact Hbalance | vm_compute; reflexivity].
  - edestruct (scope_balance (env:=Example.debugBuild) 2
                 (Example.bodyState Example.switchStatement)) as [Hbalance _];
      [vm_compute; reflexivity | vm_compute; reflexivity | right; right; reflexivity
      | vm_compute; reflexivity |].
    eexists _, _. split; [vm_compute; reflexivity|].
    split; [exact Hbalance | vm_compute; reflexivity].
Defined.

(** ** Single-argument constructors *)

Section Constructors.

Context {env : Env}.

Lemma singleArgumentConstructor_spec make fuel s0 ty tobj s1 args s2 :
  type fuel s0 = Ok (Some ty) s1 ->
  expressionArray fuel s1 = Ok args s2 ->
  symbolHeap (memory s2) !! ty = Some tobj ->
  (forall arg, args = [arg] ->
     singleArgumentConstructor make (type fuel) (expression fuel) s0
       = Ok (Some (make ty arg)) s2)
  /\ (SK_DEBUG = true -> length args <> 1%nat ->
        singleArgumentConstructor make (type fuel) (expression fuel) s0
          = Fatal AssertionFailure).
Proof.
  intros Hty Hargs Hobj. unfold singleArgumentConstructor.
  rewrite (bind_Ok_l _ _ _ _ _ Hty).
  change (expressionArray_of (expression fuel)) with (expressionArray fuel).
  rewrite (bind_Ok_l _ _ _ _ _ Hargs).
  split.
  - intros arg ->.
    assert (Ha : SkASSERT (mret (length [arg] =? 1)%nat) s2 = Ok tt s2)
      by (unfold SkASSERT; destruct SK_DEBUG; reflexivity).
    rewrite (bind_Ok_l _ _ _ _ _ Ha).
    assert (Hd : derefSymbol (Some ty) s2 = Ok (ty, tobj) s2)
      by (unfold derefSymbol; now rewrite Hobj).
    now rewrite (bind_Ok_l _ _ _ _ _ Hd).
  - intros Hdebug Hlen. apply bind_Fatal_l.
    unfold SkASSERT. rewrite Hdebug.
    apply Nat.eqb_neq in Hlen.
    unfold mbind, Decode_bind, mret, Decode_ret. now rewrite Hlen.
Qed.

(** C7, as the code has it.  A constructor of the cast, resize and splat
    family decodes its target type and then a count-prefixed argument list.
    When that list holds exactly one argument the node is made from the type
    and that argument.  In a build with assertions (SK_DEBUG) a list of any
    other length is fatal. *)
Theorem singleArgument_arity fuel s kind s0 c make ty tobj s1 args s2 :
  readU8 s = Ok kind s0 ->
  switch expressionCases kind = Some c ->
  In (c, make) castFamily ->
  type fuel s0 = Ok (Some ty) s1 ->
  expressionArray fuel s1 = Ok args s2 ->
  symbolHeap (memory s2) !! ty = Some tobj ->
  (forall arg, args = [arg] ->
     expression (S fuel) s = Ok (Some (make ty arg)) s2)
  /\ (SK_DEBUG = true -> length args <> 1%nat ->
        expression (S fuel) s = Fatal AssertionFailure).
Proof.
  intros Hkind Hcase Hin Hty Hargs Hobj.
  cbn [expression]. rewrite (bind_Ok_l _ _ _ _ _ Hkind), Hcase.
  simpl in Hin.
  destruct Hin as [[= <- <-]|[[= <- <-]|[[= <- <-]|[[= <- <-]|[[= <- <-]|[[= <- <-]|[]]]]]]];
    eapply singleArgumentConstructor_spec; eassumption.
Qed.

End Constructors.

Lemma singleArgument_arity_witness :
  (exists s2,
     expression (env:=Example.debugBuild) 4 (Example.bodyState (Example.scalarCast 1))
       = Ok (Some (EConstructorScalarCast 0 (Some (EBoolLiteral true)))) s2)
  /\ expression (env:=Example.debugBuild) 4 (Example.bodyState (Example.scalarCast 2))
       = Fatal AssertionFailure.
Proof.
  edestruct (singleArgument_arity (env:=Example.debugBuild) 3
               (Example.bodyState (Example.scalarCast 1))) as [Hone _];
    [ vm_compute; reflexivity | vm_compute; reflexivity | do 4 right; left; reflexivity
    | vm_compute; reflexivity | vm_compute; reflexivity | vm_compute; reflexivity |].
  edestruct (singleArgument_arity (env:=Example.debugBuild) 3
               (Example.bodyState (Example.scalarCast 2))) as [_ Hmany];
    [ vm_compute; reflexivity | vm_compute; reflexivity | do 4 right; left; reflexivity
    | vm_compute; reflexivity | vm_compute; reflexivity | vm_compute; reflexivity |].
  split.
  - eexists. apply Hone. reflexivity.
  - apply Hmany; [reflexivity | vm_compute; discriminate].
Defined.

(** C7 as stated fails where assertions are compiled out: a list of two
    arguments is decoded in full and accepted, and the node is made from
    the first of them. *)
Lemma singleArgument_arity_counterexample :
  exists s2,
    expressionArray (env:=Example.releaseBuild) 3
       (set_reader (set_fIP 33 (reader (Example.bodyState (Example.scalarCast 2))))
                   (Example.bodyState (Example.scalarCast 2)))
      = Ok [Some (EBoolLiteral true); Some (EBoolLiteral false)] s2
    /\ expression (env:=Example.releaseBuild) 4 (Example.bodyState (Example.scalarCast 2))
      = Ok (Some (EConstructorScalarCast 0 (Some (EBoolLiteral true)))) s2.
Proof. eexists. split; vm_compute; reflexivity. Qed.
(** ** The session *)

Section Session.

Context {env : Env}.

(** C8, as the code has it.  Construction reads a 16-bit version and a
    16-bit string length and moves the cursor past that many bytes, to
    offset 4 + length, before any body is decoded.  In a build with
    assertions (SK_DEBUG) a version other than [kVersion] is fatal; without
    them the version is read and not compared. *)
Theorem construct_header b0 b1 b2 b3 rest symbols m a :
  let s0 := initialState (b0 :: b1 :: b2 :: b3 :: rest) symbols m a in
  let version := assemble [byteValue b0; byteValue b1] in
  let len := assemble [byteValue b2; byteValue b3] in
  (SK_DEBUG = true ->
   exists t tab, symbols = Some t /\ tableHeap m !! t = Some tab /\ fBuiltin tab = true) ->
  (SK_DEBUG = false \/ version = kVersion -> construct s0 = Ok tt (constructed s0 len))
  /\ (SK_DEBUG = true -> version <> kVersion -> construct s0 = Fatal AssertionFailure).
Proof.
  intros s0 version len Hsym.
  assert (H1 : SkASSERT (s ← get; mret (bool_decide (is_Some (fSymbolTable s)))) s0
               = Ok tt s0).
  { unfold SkASSERT. destruct SK_DEBUG; [|reflexivity].
    destruct (Hsym eq_refl) as (t & tab & Hs & _).
    subst s0. rewrite Hs. reflexivity. }
  assert (H2 : SkASSERT isBuiltin s0 = Ok tt s0).
  { unfold SkASSERT. destruct SK_DEBUG; [|reflexivity].
    destruct (Hsym eq_refl) as (t & tab & Hs & Htab & Hb).
    assert (Hd : isBuiltin s0 = Ok true s0).
    { unfold isBuiltin.
      assert (Hg : (s ← get; derefTable (fSymbolTable s)) s0 = Ok (t, tab) s0).
      { subst s0. rewrite Hs. cbv [mbind Decode_bind get]. cbn. now rewrite Htab. }
      rewrite (bind_Ok_l _ _ _ _ _ Hg). cbn. now rewrite Hb. }
    now rewrite (bind_Ok_l _ _ _ _ _ Hd). }
  set (s2 := set_reader (set_fIP 2 (reader s0)) s0).
  assert (H3 : modify (fun s => set_reader (set_fIP 0 (reader s)) s) s0 = Ok tt s0)
    by reflexivity.
  assert (H4 : readU16 s0 = Ok version s2) by reflexivity.
  assert (Htail :
    (modify (fun s => set_reader (set_fStringStart (fIP (reader s)) (reader s)) s);;
     len ← readU16;
     modify (fun s => set_reader (set_fIP (fIP (reader s) + Z.to_nat len) (reader s)) s))
      s2 = Ok tt (constructed s0 len)) by reflexivity.
  unfold construct.
  rewrite (bind_Ok_l _ _ _ _ _ H1), (bind_Ok_l _ _ _ _ _ H2), (bind_Ok_l _ _ _ _ _ H3),
    (bind_Ok_l _ _ _ _ _ H4).
  split.
  - intros Hv.
    assert (H5 : SkASSERT (mret (version =? kVersion)) s2 = Ok tt s2).
    { unfold SkASSERT. destruct SK_DEBUG; [|reflexivity].
      destruct Hv as [[=]|Hv]. cbv [mbind Decode_bind mret Decode_ret].
      now rewrite Hv, Z.eqb_refl. }
    rewrite (bind_Ok_l _ _ _ _ _ H5). exact Htail.
  - intros Hdebug Hv. apply bind_Fatal_l.
    unfold SkASSERT. rewrite Hdebug. apply Z.eqb_neq in Hv.
    cbv [mbind Decode_bind mret Decode_ret]. now rewrite Hv.
Qed.

End Session.

Lemma construct_header_witness :
  construct (env:=Example.debugBuild)
    (initialState (Example.wire Example.addProgram) (Some 0%nat)
                  Example.builtinMemory Example.outerAmbient)
    = Ok tt (set_fSymbolTable (Some 0%nat) (Example.bodyState (drop Example.bodyStart Example.addProgram)))
  /\ construct (env:=Example.debugBuild)
       (initialState (Example.wire Example.staleProgram) (Some 0%nat)
                     Example.builtinMemory Example.outerAmbient)
     = Fatal AssertionFailure.
Proof.
  split.
  - etransitivity;
      [ refine (proj1 (construct_header (env:=Example.debugBuild)
                         Byte.x0b Byte.x00 Byte.x17 Byte.x00 _ (Some 0%nat)
                         Example.builtinMemory Example.outerAmbient _) _)
      | vm_compute; reflexivity ].
    + intros _. eexists _, _. repeat split; vm_compute; reflexivity.
    + right. vm_compute. reflexivity.
  - refine (proj2 (construct_header (env:=Example.debugBuild)
                     Byte.x0c Byte.x00 Byte.x17 Byte.x00 _ (Some 0%nat)
                     Example.builtinMemory Example.outerAmbient _) _ _).
    + intros _. eexists _, _. repeat split; vm_compute; reflexivity.
    + reflexivity.
    + vm_compute. discriminate.
Defined.

(** C8 as stated fails where assertions are compiled out: a buffer that
    announces version 12 to a decoder that expects 11 is accepted, and the
    whole program is decoded from it. *)
Lemma construct_header_counterexample :
  let s0 := initialState (Example.wire Example.staleProgram) (Some 0%nat)
                         Example.builtinMemory Example.outerAmbient in
  kVersion (Env:=Example.releaseBuild) = 11
  /\ readU16 (env:=Example.releaseBuild) s0 = Ok 12 (set_reader (set_fIP 2 (reader s0)) s0)
  /\ construct (env:=Example.releaseBuild) s0 = Ok tt (constructed s0 23)
  /\ exists p s', Example.run false Example.staleProgram = Ok p s'.
Proof.
  split; [reflexivity|].
  split; [vm_compute; reflexivity|].
  split; [vm_compute; reflexivity|].
  eexists _, _. vm_compute. reflexivity.
Qed.
Section EndOfBuffer.

Context {env : Env}.

Lemma construct_source : preserves sameSource construct.
Proof.
  unfold construct.
  preserves_auto ltac:(first [frame_atom | reflexivity]).
Qed.

Lemma program_source fuel : preserves sameSource (program fuel).
Proof.
  unfold program, programEpilogue, newConfig, newModifiersPool.
  pose proof (symbolTable_frame sameSource fuel).
  pose proof (elements_frame sameSource fuel).
  preserves_auto ltac:(first [frame_atom | reflexivity]).
Qed.

(** C9, as the code has it.  In a build with assertions (SK_DEBUG) a
    session that completes has consumed its buffer exactly: the buffer is
    the one the session was given and the cursor stands at its end.  The
    check is the destructor's, which only that build has. *)
Theorem session_consumes_buffer fuel bytes symbols m a p s' :
  SK_DEBUG = true ->
  session fuel bytes symbols m a = Ok p s' ->
  src (reader s') = bytes /\ fIP (reader s') = length bytes.
Proof.
  intros Hdebug. unfold session.
  intros (? & s1 & Hc & Hrun)%bind_Ok.
  apply bind_Ok in Hrun as (p' & s2 & Hp & Hrun).
  apply bind_Ok in Hrun as (? & s3 & Hd & [= <- <-]).
  pose proof (construct_source _ _ _ Hc) as H1.
  pose proof (program_source _ _ _ _ Hp) as H2.
  unfold sameSource in H1, H2. simpl in H1.
  unfold destruct_, SkASSERT in Hd. rewrite Hdebug in Hd.
  apply bind_Ok in Hd as (b & s2' & Hb & Hd).
  apply bind_Ok in Hb as (? & ? & [= <- <-] & [= <- <-]).
  destruct (fIP (reader s2) =? fEnd (reader s2))%nat eqn:E; [|discriminate].
  injection Hd as <-. apply Nat.eqb_eq in E. unfold fEnd in E.
  split; congruence.
Qed.

End EndOfBuffer.

Lemma session_consumes_buffer_witness :
  exists p s',
    Example.run true Example.addProgram = Ok p s'
    /\ src (reader s') = Example.wire Example.addProgram
    /\ fIP (reader s') = 100%nat.
Proof.
  eexists _, _. split; [vm_compute; reflexivity|].
  pose proof (session_consumes_buffer (env:=Example.debugBuild) 64
            (Example.wire Example.addProgram) (Some 0%nat) Example.builtinMemory
            Example.outerAmbient) as W.
  edestruct W as [W1 W2]; [reflexivity | vm_compute; reflexivity |].
  split; [exact W1 | ].
  etransitivity; [exact W2|]. vm_compute. reflexivity.
Defined.

(** C9 as stated fails where assertions are compiled out: a buffer of 101
    bytes whose last byte no decoder reads is decoded to the end of the
    session, which leaves the cursor at offset 100. *)
Lemma session_consumes_buffer_counterexample :
  exists p s',
    Example.run false Example.paddedProgram = Ok p s'
    /\ fIP (reader s') = 100%nat
    /\ length (src (reader s')) = 101%nat.
Proof.
  eexists _, _. split; [vm_compute; reflexivity|].
  split; vm_compute; reflexivity.
Qed.
(** ** Visible bindings *)

Section VisibleBindings.

Context {env : Env}.

Lemma repeatM_length {A} n (body : Decode A) s xs s' :
  repeatM n body s = Ok xs s' -> length xs = n.
Proof.
  revert s xs s'. induction n as [|n IH]; intros s xs s'; simpl.
  - now intros [= <- _].
  - intros (x & s1 & _ & (xs' & s2 & Hxs & [= <- _])%bind_Ok)%bind_Ok.
    simpl. f_equal. eauto.
Qed.

Lemma addWithoutOwnership_in_range p s :
  addWithoutOwnership p s <> Fatal IndexOutOfRange.
Proof.
  unfold addWithoutOwnership, derefSymbol, derefTable, alterTable, modify, get, fatal.
  cbv [mbind Decode_bind].
  destruct p as [i|]; [|discriminate].
  destruct (symbolHeap (memory s) !! i); [|discriminate].
  destruct (Symbol_name (memory s) _); [|discriminate].
  destruct (fSymbolTable s) as [t|]; [|discriminate].
  destruct (tableHeap (memory s) !! t); discriminate.
Qed.

(** C10.  A visible-entry token other than the builtin sentinel indexes the
    array of owned symbols directly.  When it is below the owned count the
    access is in bounds: the entry binds the symbol that the owned pass
    decoded at that position, and cannot fail for the index.  A token at or
    above the owned count is outside the array. *)
Theorem visibleEntry_in_bounds fuel ownedCount s0 owned s0' s index s1 :
  0 <= ownedCount ->
  repeatM (Z.to_nat ownedCount) (symbol fuel) s0 = Ok owned s0' ->
  readU16 s = Ok index s1 ->
  index <> kBuiltin_Symbol ->
  (index < ownedCount ->
     exists sym, owned !! Z.to_nat index = Some sym
       /\ visibleEntry owned s = addWithoutOwnership sym s1
       /\ visibleEntry owned s <> Fatal IndexOutOfRange)
  /\ (ownedCount <= index -> visibleEntry owned s = Fatal IndexOutOfRange).
Proof.
  intros Hcount Howned Hindex Hne.
  pose proof (repeatM_length _ _ _ _ _ Howned) as Hlen.
  pose proof (readU16_range _ _ _ Hindex) as Hrange.
  assert (Hstep : visibleEntry owned s =
                  match owned !! Z.to_nat index with
                  | Some sym => addWithoutOwnership sym s1
                  | None => Fatal IndexOutOfRange
                  end).
  { unfold visibleEntry. rewrite (bind_Ok_l _ _ _ _ _ Hindex).
    apply Z.eqb_neq in Hne. rewrite Hne. simpl.
    destruct (owned !! Z.to_nat index); reflexivity. }
  split.
  - intros Hlt.
    destruct (lookup_lt_is_Some_2 owned (Z.to_nat index)) as [sym Hsym]; [lia|].
    exists sym. split; [exact Hsym|]. rewrite Hstep, Hsym.
    split; [reflexivity|apply addWithoutOwnership_in_range].
  - intros Hge. rewrite Hstep.
    rewrite (lookup_ge_None_2 owned (Z.to_nat index)) by lia. reflexivity.
Qed.

End VisibleBindings.

Lemma visibleEntry_in_bounds_witness :
  let s0 := Example.bodyState Example.ownedThenVisible in
  let s := set_reader (set_fIP 32 (reader s0)) s0 in
  let v0 := Example.bodyState Example.ownedThenStray in
  let v := set_reader (set_fIP 32 (reader v0)) v0 in
  (exists s',
     repeatM 1 (symbol (env:=Example.debugBuild) 2) s0 = Ok [Some 0%nat] s
     /\ visibleEntry (env:=Example.debugBuild) [Some 0%nat] s = Ok tt s'
     /\ (fBindings <$> tableHeap (memory s') !! 1%nat) = Some [("int", 0%nat)])
  /\ visibleEntry (env:=Example.debugBuild) [Some 0%nat] v = Fatal IndexOutOfRange.
Proof.
  intros s0 s v0 v. split.
  - edestruct (visibleEntry_in_bounds (env:=Example.debugBuild) 2 1 s0 [Some 0%nat] s s)
      as [Hin _];
      [ lia | vm_compute; reflexivity | vm_compute; reflexivity
      | vm_compute; discriminate |].
    destruct Hin as (sym & Hsym & Hentry & _); [lia|].
    injection Hsym as <-.
    eexists. split; [vm_compute; reflexivity|].
    split; [rewrite Hentry; vm_compute; reflexivity | vm_compute; reflexivity].
  - edestruct (visibleEntry_in_bounds (env:=Example.debugBuild) 2 1 v0 [Some 0%nat] v v)
      as [_ Hout];
      [ lia | vm_compute; reflexivity | vm_compute; reflexivity
      | vm_compute; discriminate |].
    apply Hout. lia.
Defined.

(** ** Unrecognized tags and unresolved builtin names *)

Section Violations.

Context {env : Env}.

(** The default branch of the three switches: [SkASSERT(false)] and then
    [return nullptr]. *)
Lemma default_branch {A} s0 :
  (SkASSERT (mret false);; mret (@None A)) s0
  = if SK_DEBUG then Fatal AssertionFailure else Ok None s0.
Proof. unfold SkASSERT. destruct SK_DEBUG; reflexivity. Qed.

(** C4, as the code has it.  A tag that no case of the symbol, statement
    or expression decoder recognizes aborts the decode at that point, with
    an assertion failure and no result, in a build with assertions
    (SK_DEBUG); without assertions it yields the null node and the decode
    goes on.  A builtin name that the outermost ancestor scope does not bind
    aborts the decode at that point, with no result, in every build: in a
    visible list by the assertion or, without assertions, by the null
    pointer that is handed to [addWithoutOwnership]; in a symbol reference
    by the failed resolution, also when the reference is a symbol or the
    variable of a variable reference. *)
Theorem violations_are_fatal_with_assertions fuel s kind s0 :
  readU8 s = Ok kind s0 ->
  (switch symbolCases kind = None ->
     symbol (S fuel) s = if SK_DEBUG then Fatal AssertionFailure else Ok None s0)
  /\ (switch statementCases kind = None ->
     statement (S fuel) s = if SK_DEBUG then Fatal AssertionFailure else Ok None s0)
  /\ (switch expressionCases kind = None ->
     expression (S fuel) s = if SK_DEBUG then Fatal AssertionFailure else Ok None s0)
  /\ (forall owned v s1 name s2 t tab root rootTable,
        readU16 v = Ok kBuiltin_Symbol s1 ->
        readString s1 = Ok name s2 ->
        fSymbolTable s2 = Some t ->
        tableHeap (memory s2) !! t = Some tab ->
        outermostAncestor t s2 = Ok root s2 ->
        tableHeap (memory s2) !! root = Some rootTable ->
        SymbolTable_lookup rootTable name = None ->
        visibleEntry owned v
          = Fatal (if SK_DEBUG then AssertionFailure else NullDereference)
        /\ possiblyBuiltinSymbolRef v = Fatal UnresolvedReference
        /\ (v = s0 -> switch symbolCases kind = Some kSymbolRef_Command ->
            symbol (S fuel) s = Fatal UnresolvedReference)
        /\ (v = s0 -> switch expressionCases kind = Some kVariableReference_Command ->
            expression (S fuel) s = Fatal UnresolvedReference)).
Proof.
  intros Hkind. split; [|split; [|split]].
  - intros Hcase. cbn [symbol].
    rewrite (bind_Ok_l _ _ _ _ _ Hkind), Hcase. apply default_branch.
  - intros Hcase. cbn [statement].
    rewrite (bind_Ok_l _ _ _ _ _ Hkind), Hcase. apply default_branch.
  - intros Hcase. cbn [expression].
    rewrite (bind_Ok_l _ _ _ _ _ Hkind), Hcase. apply default_branch.
  - intros owned v s1 name s2 t tab root rootTable Hid Hname Hcur Htab Hroot
      HrootTab Hlookup.
    assert (Hd : (s ← get; derefTable (fSymbolTable s)) s2 = Ok (t, tab) s2).
    { cbv [mbind Decode_bind get derefTable]. now rewrite Hcur, Htab. }
    assert (Hr : derefTable (Some root) s2 = Ok (root, rootTable) s2).
    { unfold derefTable. now rewrite HrootTab. }
    assert (Hentry : visibleEntry owned v
                     = Fatal (if SK_DEBUG then AssertionFailure else NullDereference)).
    { unfold visibleEntry.
      rewrite (bind_Ok_l _ _ _ _ _ Hid), Z.eqb_refl. cbn [negb].
      rewrite (bind_Ok_l _ _ _ _ _ Hname).
      rewrite (bind_Ok_l _ _ _ _ _ Hd). cbn beta iota.
      rewrite (bind_Ok_l _ _ _ _ _ Hroot).
      rewrite (bind_Ok_l _ _ _ _ _ Hr). cbn beta iota zeta.
      rewrite Hlookup. unfold SkASSERT. destruct SK_DEBUG; reflexivity. }
    assert (Href : possiblyBuiltinSymbolRef v = Fatal UnresolvedReference).
    { unfold possiblyBuiltinSymbolRef.
      rewrite (bind_Ok_l _ _ _ _ _ Hid), Z.eqb_refl.
      rewrite (bind_Ok_l _ _ _ _ _ Hname).
      rewrite (bind_Ok_l _ _ _ _ _ Hd). cbn beta iota.
      rewrite (bind_Ok_l _ _ _ _ _ Hroot).
      rewrite (bind_Ok_l _ _ _ _ _ Hr). cbn beta iota.
      rewrite Hlookup. reflexivity. }
    split; [exact Hentry|]. split; [exact Href|]. split.
    + intros -> Hcase. cbn [symbol].
      rewrite (bind_Ok_l _ _ _ _ _ Hkind), Hcase. exact Href.
    + intros -> Hcase. cbn [expression].
      rewrite (bind_Ok_l _ _ _ _ _ Hkind), Hcase.
      apply bind_Fatal_l. apply bind_Fatal_l. exact Href.
Qed.

End Violations.

Lemma violations_are_fatal_with_assertions_witness :
  let s := Example.bodyState [Example.unknownTag] in
  let v := Example.bodyState Example.unknownBuiltin in
  let r := Example.bodyState (Example.tagValue kSymbolRef_Command
                                :: Example.unknownBuiltin) in
  symbol (env:=Example.debugBuild) 1 s = Fatal AssertionFailure
  /\ statement (env:=Example.debugBuild) 1 s = Fatal AssertionFailure
  /\ expression (env:=Example.debugBuild) 1 s = Fatal AssertionFailure
  /\ visibleEntry (env:=Example.debugBuild) [] v = Fatal AssertionFailure
  /\ visibleEntry (env:=Example.releaseBuild) [] v = Fatal NullDereference
  /\ possiblyBuiltinSymbolRef (env:=Example.releaseBuild) v = Fatal UnresolvedReference
  /\ symbol (env:=Example.releaseBuild) 1 r = Fatal UnresolvedReference
  /\ Example.run true Example.corruptProgram = Fatal AssertionFailure.
Proof.
  intros s v r.
  edestruct (violations_are_fatal_with_assertions (env:=Example.debugBuild) 0 s)
    as (Hsym & Hstmt & Hexpr & Hname); [vm_compute; reflexivity|].
  edestruct (violations_are_fatal_with_assertions (env:=Example.releaseBuild) 0 r)
    as (_ & _ & _ & Hrelease); [vm_compute; reflexivity|].
  split; [apply Hsym; reflexivity|].
  split; [apply Hstmt; reflexivity|].
  split; [apply Hexpr; reflexivity|].
  edestruct (Hname [] v) as (Hentry & _); [vm_compute; reflexivity ..|].
  edestruct (Hrelease [] v) as (Hnull & Href & _); [vm_compute; reflexivity ..|].
  edestruct (Hrelease [] (set_reader (set_fIP 28 (reader r)) r))
    as (_ & _ & Hreference & _); [vm_compute; reflexivity ..|].
  split; [exact Hentry|]. split; [exact Hnull|]. split; [exact Href|].
  split; [|vm_compute; reflexivity].
  apply Hreference; [reflexivity | vm_compute; reflexivity].
Defined.

(** C4 as stated fails where assertions are compiled out: the statement
    decoder returns the null statement for tag 200, and the enclosing block
    is decoded to its end with that null statement in it.  A whole session
    on a program with such a tag ends with a Program in hand. *)
Lemma violations_are_fatal_counterexample :
  switch (env:=Example.releaseBuild) statementCases Example.unknownTag = None
  /\ (exists s',
        statement (env:=Example.releaseBuild) 2 (Example.bodyState Example.blockOfUnknown)
        = Ok (Some (SBlock [None] 0 (Some 1%nat))) s')
  /\ (exists p s',
        Example.run false Example.corruptProgram = Ok p s'
        /\ pElements p = [PFunctionDefinition 5 (Some (SBlock [None] 1 (Some 3%nat))) false]).
Proof.
  split; [reflexivity|]. split.
  - eexists. vm_compute. reflexivity.
  - eexists _, _. split; vm_compute; reflexivity.
Qed.

(** ** Symbol-table decode *)

Section SymbolTables.

Context {env : Env}.

Lemma walkToRoot_outermost n t s root s' :
  walkToRoot n t s = Ok root s' ->
  s' = s /\ outermost (tableHeap (memory s)) t root.
Proof.
  revert t. induction n as [|n IH]; intros t; cbn [walkToRoot]; [discriminate|].
  intros ([t' tab] & s1 & Hd & Hrun)%bind_Ok.
  unfold derefTable in Hd.
  destruct (tableHeap (memory s) !! t) as [tab'|] eqn:Ht; [|discriminate].
  injection Hd as <- <- <-.
  destruct (fParent tab') as [parent|] eqn:Hp.
  - destruct (IH _ Hrun) as [-> Hout]. split; [reflexivity|].
    eapply outermost_up; eassumption.
  - injection Hrun as <- <-. split; [reflexivity|].
    eapply outermost_here; eassumption.
Qed.

Lemma outermost_depth heap t root :
  outermost heap t root <-> exists depth, outermostAt heap depth t root.
Proof.
  split.
  - induction 1 as [t tab Ht Hp|t tab parent root Ht Hp _ [d IH]].
    + exists 0%nat. econstructor; eassumption.
    + exists (S d). econstructor; eassumption.
  - intros [d H]. induction H; [eapply outermost_here|eapply outermost_up]; eassumption.
Qed.

Lemma outermostAt_unique heap d t root d' root' :
  outermostAt heap d t root -> outermostAt heap d' t root' -> d = d' /\ root = root'.
Proof.
  intros H. revert d' root'.
  induction H as [t tab Ht Hp|d t tab parent root Ht Hp _ IH]; intros d' root' H';
    inversion H' as [t' tab' Ht' Hp'|d'' t' tab' parent' root'' Ht' Hp' Hrest]; subst;
    try congruence; [auto|].
  assert (parent' = parent) as -> by congruence.
  destruct (IH _ _ Hrest) as [-> ->]. auto.
Qed.

(** The nodes of a chain are pairwise distinct table indices, so a chain is
    shorter than the heap. *)
Lemma outermostAt_path heap d t root :
  outermostAt heap d t root ->
  exists path, length path = S d /\ NoDup path
    /\ forall x, x ∈ path ->
         (x < length heap)%nat /\ exists k, (k <= d)%nat /\ outermostAt heap k x root.
Proof.
  induction 1 as [t tab Ht Hp|d t tab parent root Ht Hp Hrest (path & Hlen & Hnd & Hall)].
  - exists [t]. split; [reflexivity|]. split; [apply NoDup_singleton|].
    intros x ->%list_elem_of_singleton. split; [eapply lookup_lt_Some; eassumption|].
    exists 0%nat. split; [lia|]. econstructor; eassumption.
  - exists (t :: path). split; [simpl; congruence|]. split.
    + apply NoDup_cons. split; [|assumption].
      intros Hin. destruct (Hall _ Hin) as (_ & k & Hk & Hat).
      assert (Hat' : outermostAt heap (S d) t root) by (econstructor; eassumption).
      destruct (outermostAt_unique _ _ _ _ _ _ Hat Hat'). lia.
    + intros x [->|Hin]%elem_of_cons.
      * split; [eapply lookup_lt_Some; eassumption|].
        exists (S d). split; [lia|]. econstructor; eassumption.
      * destruct (Hall _ Hin) as (Hlt & k & Hk & Hat). split; [assumption|].
        exists k. split; [lia|assumption].
Qed.

Lemma outermostAt_bound heap d t root :
  outermostAt heap d t root -> (d < length heap)%nat.
Proof.
  intros (path & Hlen & Hnd & Hall)%outermostAt_path.
  assert (Hsub : path ⊆ seq 0 (length heap)).
  { intros x Hx. apply elem_of_seq. destruct (Hall _ Hx). lia. }
  pose proof (submseteq_length _ _ (NoDup_submseteq _ _ Hnd Hsub)) as Hle.
  rewrite length_seq in Hle. lia.
Qed.

Lemma walkToRoot_complete heap d t root n s :
  heap = tableHeap (memory s) ->
  outermostAt heap d t root -> (d < n)%nat -> walkToRoot n t s = Ok root s.
Proof.
  intros -> H. revert n.
  induction H as [t tab Ht Hp|d t tab parent root Ht Hp _ IH]; intros [|n] Hn; try lia;
    cbn [walkToRoot];
    (assert (Hd : derefTable (Some t) s = Ok (t, tab) s)
       by (unfold derefTable; now rewrite Ht));
    rewrite (bind_Ok_l _ _ _ _ _ Hd); cbn beta iota; rewrite Hp.
  - reflexivity.
  - apply IH. lia.
Qed.

Lemma outermostAncestor_complete t root s :
  outermost (tableHeap (memory s)) t root -> outermostAncestor t s = Ok root s.
Proof.
  intros [d Hd]%outermost_depth. unfold outermostAncestor.
  assert (Hg : get s = Ok s s) by reflexivity.
  rewrite (bind_Ok_l _ _ _ _ _ Hg).
  eapply walkToRoot_complete; [reflexivity|eassumption|].
  pose proof (outermostAt_bound _ _ _ _ Hd). lia.
Qed.

Lemma alter_withBinding name sym t tab (heap : list SymbolTable) :
  heap !! t = Some tab ->
  alter (withBinding name sym) t heap = <[t := withBinding name sym tab]> heap.
Proof.
  intros Htab. apply list_eq. intros j.
  destruct (decide (t = j)) as [<-|Hne].
  - rewrite list_lookup_alter_eq, list_lookup_insert_eq, Htab; [reflexivity|].
    eapply lookup_lt_Some; eassumption.
  - rewrite list_lookup_alter_ne, list_lookup_insert_ne by assumption. reflexivity.
Qed.

Lemma addWithoutOwnership_binds p s s' :
  addWithoutOwnership p s = Ok tt s' <->
  exists sym, p = Some sym /\ bindsWithoutOwnership sym s s'.
Proof.
  unfold addWithoutOwnership. split.
  - intros ([i obj] & s1 & Hd & Hrun)%bind_Ok.
    unfold derefSymbol in Hd. destruct p as [sym|]; [|discriminate].
    destruct (symbolHeap (memory s) !! sym) as [obj'|] eqn:Hobj; [|discriminate].
    injection Hd as <- <- <-.
    apply bind_Ok in Hrun as (? & ? & [= <- <-] & Hrun).
    destruct (Symbol_name (memory s) obj') as [name|] eqn:Hname; [|discriminate].
    apply bind_Ok in Hrun as ([t tab] & s2 & Hd & Hrun).
    unfold derefTable in Hd.
    destruct (fSymbolTable s) as [t'|] eqn:Hcur; [|discriminate].
    destruct (tableHeap (memory s) !! t') as [tab'|] eqn:Htab; [|discriminate].
    injection Hd as <- <- <-.
    injection Hrun as <-.
    exists sym. split; [reflexivity|].
    exists obj', name, t', tab'. repeat (split; [assumption|]).
    now rewrite (alter_withBinding _ _ _ _ _ Htab).
  - intros (sym & -> & obj & name & t & tab & Hobj & Hname & Hcur & Htab & ->).
    assert (Hd : derefSymbol (Some sym) s = Ok (sym, obj) s)
      by (unfold derefSymbol; now rewrite Hobj).
    rewrite (bind_Ok_l _ _ _ _ _ Hd). cbn beta iota.
    assert (Hg : get s = Ok s s) by reflexivity.
    rewrite (bind_Ok_l _ _ _ _ _ Hg), Hname.
    assert (Ht : derefTable (fSymbolTable s) s = Ok (t, tab) s)
      by (unfold derefTable; now rewrite Hcur, Htab).
    rewrite (bind_Ok_l _ _ _ _ _ Ht). cbn beta iota.
    unfold alterTable, modify. now rewrite (alter_withBinding _ _ _ _ _ Htab).
Qed.

Lemma visibleEntry_binds owned s s' :
  visibleEntry owned s = Ok tt s' <-> bindsEntry owned s s'.
Proof.
  unfold visibleEntry. split.
  - intros (index & s1 & Hindex & Hrun)%bind_Ok.
    destruct (index =? kBuiltin_Symbol) eqn:E; cbn [negb] in Hrun.
    + apply Z.eqb_eq in E. subst index.
      apply bind_Ok in Hrun as (name & s2 & Hname & Hrun).
      apply bind_Ok in Hrun as ([t tab] & s3 & Hd & Hrun).
      apply bind_Ok in Hd as (? & ? & [= <- <-] & Hd).
      unfold derefTable in Hd.
      destruct (fSymbolTable s2) as [t'|] eqn:Hcur; [|discriminate].
      destruct (tableHeap (memory s2) !! t') as [tab'|] eqn:Htab; [|discriminate].
      injection Hd as <- <- <-.
      apply bind_Ok in Hrun as (root & s4 & Hroot & Hrun).
      unfold outermostAncestor in Hroot.
      apply bind_Ok in Hroot as (? & ? & [= <- <-] & Hroot).
      apply walkToRoot_outermost in Hroot as [-> Hout].
      apply bind_Ok in Hrun as ([root' rootTable] & s5 & Hd & Hrun).
      unfold derefTable in Hd.
      destruct (tableHeap (memory s2) !! root) as [rootTable'|] eqn:Hrt; [|discriminate].
      injection Hd as <- <- <-.
      cbn beta iota zeta in Hrun.
      apply bind_Ok in Hrun as ([] & s6 & Hassert & Hrun).
      assert (s6 = s2) as ->.
      { revert Hassert. unfold SkASSERT. destruct SK_DEBUG; [|now intros [= <-]].
        cbv [mbind Decode_bind mret Decode_ret].
        destruct (bool_decide _); [now intros [= <-]|discriminate]. }
      apply addWithoutOwnership_binds in Hrun as (sym & Hsym & Hbind).
      eapply binds_builtin; eassumption.
    + apply Z.eqb_neq in E.
      destruct (owned !! Z.to_nat index) as [p|] eqn:Hp; [|discriminate].
      apply addWithoutOwnership_binds in Hrun as (sym & -> & Hbind).
      eapply binds_owned; eassumption.
  - intros [v index s1 sym v' Hindex Hne Hsym Hbind
           |v s1 name s2 t root rootTable sym v' Hindex Hname Hcur Hout Hroot Hlookup Hbind].
    + rewrite (bind_Ok_l _ _ _ _ _ Hindex).
      apply Z.eqb_neq in Hne. rewrite Hne. cbn [negb].
      unfold SymbolPtr in *. rewrite Hsym.
      apply addWithoutOwnership_binds. eauto.
    + rewrite (bind_Ok_l _ _ _ _ _ Hindex), Z.eqb_refl. cbn [negb].
      rewrite (bind_Ok_l _ _ _ _ _ Hname).
      destruct Hbind as (obj & bname & t' & tab & Hobj & Hbname & Hcur' & Htab & ->).
      assert (t' = t) as -> by congruence.
      assert (Hd : (s ← get; derefTable (fSymbolTable s)) s2 = Ok (t, tab) s2).
      { cbv [mbind Decode_bind get derefTable]. now rewrite Hcur, Htab. }
      rewrite (bind_Ok_l _ _ _ _ _ Hd). cbn beta iota.
      rewrite (bind_Ok_l _ _ _ _ _ (outermostAncestor_complete _ _ _ Hout)).
      assert (Hr : derefTable (Some root) s2 = Ok (root, rootTable) s2)
        by (unfold derefTable; now rewrite Hroot).
      rewrite (bind_Ok_l _ _ _ _ _ Hr). cbn beta iota zeta. rewrite Hlookup.
      assert (Ha : SkASSERT (mret (bool_decide (is_Some (Some sym)))) s2 = Ok tt s2).
      { unfold SkASSERT. destruct SK_DEBUG; [|reflexivity].
        cbv [mbind Decode_bind mret Decode_ret]. now rewrite bool_decide_true by eauto. }
      rewrite (bind_Ok_l _ _ _ _ _ Ha).
      apply addWithoutOwnership_binds. exists sym. split; [reflexivity|].
      exists obj, bname, t, tab. auto.
Qed.

Lemma visibleLoop_binds owned n s s' :
  (exists us, repeatM n (visibleEntry owned) s = Ok us s') <-> bindsEntries owned n s s'.
Proof.
  revert s. induction n as [|n IH]; intros s; cbn [repeatM].
  - split.
    + intros (us & [= _ <-]). constructor.
    + inversion 1; subst. eexists. reflexivity.
  - split.
    + intros (us & ([] & s1 & Hentry & (us' & s2 & Hrest & [= _ <-])%bind_Ok)%bind_Ok).
      econstructor; [apply visibleEntry_binds|apply IH]; eauto.
    + inversion 1 as [|n' v s1 v' Hentry Hrest]; subst.
      apply visibleEntry_binds in Hentry. apply IH in Hrest as (us & Hrest).
      exists (tt :: us).
      rewrite (bind_Ok_l _ _ _ _ _ Hentry), (bind_Ok_l _ _ _ _ _ Hrest). reflexivity.
Qed.

(** C1.  On a Void tag [symbolTable] makes no scope and returns null.  On
    any other tag its successful runs are exactly these: it reads a builtin
    flag and an owned count, makes a new table whose parent is the current
    scope (nothing but the cursor has moved since entry) and makes it
    current, decodes exactly the owned count of symbols into an array, reads
    a visible count and, that many times, binds a visible entry - a builtin
    name found in the outermost ancestor, or the owned symbol at the entry's
    index - with no change of ownership, and returns the new, current
    table. *)
Theorem symbolTable_decode fuel s command s0 :
  readU8 s = Ok command s0 ->
  (command = code kVoid_Command -> symbolTable fuel s = Ok None s0)
  /\ (command <> code kVoid_Command ->
      forall r s',
        symbolTable fuel s = Ok r s' <->
        (SK_DEBUG = true -> command = code kSymbolTable_Command)
        /\ exists builtin s1 ownedCount s2 owned s3 symbolCount s4,
             readBool s0 = Ok builtin s1
             /\ readU16 s1 = Ok ownedCount s2
             /\ onlyCursor s s2
             /\ repeatM (Z.to_nat ownedCount) (symbol fuel) (withChildScope builtin s2)
                = Ok owned s3
             /\ length owned = Z.to_nat ownedCount
             /\ readU16 s3 = Ok symbolCount s4
             /\ bindsEntries owned (Z.to_nat symbolCount) s4 s'
             /\ r = Some (length (tableHeap (memory s)))
             /\ fSymbolTable s' = r).
Proof.
  intros Hcommand. rewrite symbolTable_unfold.
  rewrite (bind_Ok_l _ _ _ _ _ Hcommand).
  split.
  - intros ->. now rewrite Z.eqb_refl.
  - intros Hne r s'. apply Z.eqb_neq in Hne. rewrite Hne. split.
    + intros Hrun.
      apply bind_Ok in Hrun as ([] & s0' & Hassert & Hrun).
      assert (Hkind : SK_DEBUG = true -> command = code kSymbolTable_Command).
      { intros Hdebug. revert Hassert. unfold SkASSERT. rewrite Hdebug.
        cbv [mbind Decode_bind mret Decode_ret].
        destruct (command =? code kSymbolTable_Command) eqn:E; [|discriminate].
        intros _. now apply Z.eqb_eq. }
      apply SkASSERT_pure in Hassert as ->.
      apply bind_Ok in Hrun as (builtin & s1 & Hb & Hrun).
      apply bind_Ok in Hrun as (ownedCount & s2 & Hn & Hrun).
      assert (Hs2 : onlyCursor s s2).
      { transitivity s0; [exact (readU8_frame _ _ _ _ Hcommand)|].
        transitivity s1; [exact (readBool_frame _ _ _ _ Hb)|].
        exact (readU16_frame _ _ _ _ Hn). }
      apply bind_Ok in Hrun as (? & pushed & [= _ <-] & Hrun).
      change (set_fSymbolTable _ _) with (withChildScope builtin s2) in Hrun.
      pose proof (symbolTableLoops_frame sameScope _ _ _ _ _ Hrun) as Hscope.
      unfold symbolTableLoops in Hrun.
      apply bind_Ok in Hrun as (owned & s3 & Howned & Hrun).
      apply bind_Ok in Hrun as (symbolCount & s4 & Hcount & Hrun).
      apply bind_Ok in Hrun as (us & s5 & Hvisible & Hrun).
      apply bind_Ok in Hrun as (? & ? & [= <- <-] & [= <- <-]).
      split; [exact Hkind|].
      exists builtin, s1, ownedCount, s2, owned, s3, symbolCount, s4.
      split; [assumption|]. split; [assumption|]. split; [assumption|].
      split; [assumption|].
      split; [eapply repeatM_length; eassumption|]. split; [assumption|].
      split; [apply visibleLoop_binds; eauto|].
      assert (Hr : fSymbolTable s5 = Some (length (tableHeap (memory s)))).
      { rewrite Hscope. unfold withChildScope. cbn [fSymbolTable set_fSymbolTable].
        rewrite Hs2. reflexivity. }
      split; [exact Hr | reflexivity].
    + intros (Hkind & builtin & s1 & ownedCount & s2 & owned & s3 & symbolCount & s4
              & Hb & Hn & Hs2 & Howned & _ & Hcount & Hvisible & -> & Hcur).
      assert (Ha : SkASSERT (mret (command =? code kSymbolTable_Command)) s0 = Ok tt s0).
      { unfold SkASSERT. destruct SK_DEBUG; [|reflexivity].
        rewrite (Hkind eq_refl), Z.eqb_refl. reflexivity. }
      rewrite (bind_Ok_l _ _ _ _ _ Ha), (bind_Ok_l _ _ _ _ _ Hb),
        (bind_Ok_l _ _ _ _ _ Hn).
      assert (Hp : pushSymbolTable builtin s2 = Ok tt (withChildScope builtin s2))
        by reflexivity.
      rewrite (bind_Ok_l _ _ _ _ _ Hp). unfold symbolTableLoops.
      rewrite (bind_Ok_l _ _ _ _ _ Howned), (bind_Ok_l _ _ _ _ _ Hcount).
      apply visibleLoop_binds in Hvisible as (us & Hvisible).
      rewrite (bind_Ok_l _ _ _ _ _ Hvisible).
      cbv [mbind Decode_bind get mret Decode_ret]. now rewrite Hcur.
Qed.

End SymbolTables.

Lemma symbolTable_decode_witness :
  (exists s',
     symbolTable (env:=Example.debugBuild) 8 (Example.bodyState Example.addSymbols)
       = Ok (Some 2%nat) s'
     /\ fSymbolTable s' = Some 2%nat
     /\ tableHeap (memory s') !! 2%nat =
          Some {| fParent := Some 1%nat; fBuiltin := false;
                  fOwnedSymbols := [3; 4; 5]%nat; fOwnedStrings := [];
                  fBindings := [("add", 5%nat)] |})
  /\ (exists s0,
       symbolTable (env:=Example.debugBuild) 8
         (Example.bodyState [Example.tagValue kVoid_Command]) = Ok None s0
       /\ tableHeap (memory s0) = tableHeap Example.builtinMemory).
Proof.
  split.
  - edestruct (symbolTable_decode (env:=Example.debugBuild) 8
                 (Example.bodyState Example.addSymbols)) as [_ Hdecode];
      [vm_compute; reflexivity|].
    eexists. split; [vm_compute; reflexivity|].
    match goal with |- fSymbolTable ?s' = _ /\ _ =>
      destruct (proj1 (Hdecode ltac:(vm_compute; discriminate) (Some 2%nat) s'))
        as (_ & b & s1 & n & s2 & owned & s3 & m & s4 & _ & _ & _ & _ & _ & _ & _ & _
            & Hcur);
        [vm_compute; reflexivity|]
    end.
    split; [exact Hcur | vm_compute; reflexivity].
  - edestruct (symbolTable_decode (env:=Example.debugBuild) 8
                 (Example.bodyState [Example.tagValue kVoid_Command])) as [Hvoid _];
      [vm_compute; reflexivity|].
    eexists. split; [apply Hvoid; reflexivity | reflexivity].
Defined.

(** ** Program decode *)

Section Programs.

Context {env : Env}.

Lemma program_unfold fuel :
  program fuel =
    (command ← readU8;
     SkASSERT (mret (command =? code kProgram_Command));;
     kind ← readU8;
     version ← readU8;
     ((fun s =>
         (symbolTable fuel;;
          elems ← elements fuel;
          programEpilogue (length (configHeap (memory s))) (length (poolHeap (memory s)))
                          (ctxConfig (ambient s)) (ctxModifiersPool (ambient s)) elems)
           (programStart kind version s)) : Decode Program)).
Proof. reflexivity. Qed.

(** C3.  When the root scope and the element list have been decoded,
    [program()] puts back the configuration and the modifiers pool that the
    context held when it was called, then reads the flip-uniform flag, takes
    the memory pool away from the thread and detaches it, and returns the
    Program assembled around the current scope, leaving as current scope the
    parent of that scope.  When a root scope was decoded the Program's scope
    is that root scope, and its parent the module scope of the program
    kind. *)
Theorem program_restores_and_pops fuel s command s0 kind s1 version s2
    rootScope sR elems sE flag sF pool root tab :
  readU8 s = Ok command s0 ->
  (SK_DEBUG = true -> command = code kProgram_Command) ->
  readU8 s0 = Ok kind s1 ->
  readU8 s1 = Ok version s2 ->
  symbolTable fuel (programStart kind version s2) = Ok rootScope sR ->
  elements fuel sR = Ok elems sE ->
  readBool (restoredContext s sE) = Ok flag sF ->
  threadMemoryPool (ambient sF) = Some pool ->
  fSymbolTable sF = Some root ->
  tableHeap (memory sF) !! root = Some tab ->
  program fuel s =
    Ok {| pConfig := Some (length (configHeap (memory s)));
          pElements := elems;
          pModifiers := Some (length (poolHeap (memory s)));
          pSymbols := Some root;
          pPool := false;
          pInputs := {| fUseFlipRTUniform := flag |} |}
       (set_ambient (dsl_End (set_threadMemoryPool None (ambient sF)))
          (set_fSymbolTable (fParent tab) sF))
  /\ ctxConfig (ambient sF) = ctxConfig (ambient s)
  /\ ctxModifiersPool (ambient sF) = ctxModifiersPool (ambient s)
  /\ fSymbolTable sE = Some root
  /\ (rootScope <> None ->
        rootScope = Some root /\ fParent tab = moduleForProgramKind kind).
Proof.
  intros Hcommand Hassert Hkind Hversion Htable Helems Hflag Hpool Hcur Htab.
  assert (Hs2 : onlyCursor s s2).
  { transitivity s0; [exact (readU8_frame _ _ _ _ Hcommand)|].
    transitivity s1; [exact (readU8_frame _ _ _ _ Hkind)|].
    exact (readU8_frame _ _ _ _ Hversion). }
  assert (Hsame : memory s2 = memory s /\ ambient s2 = ambient s)
    by (rewrite Hs2; split; reflexivity).
  destruct Hsame as [Hmem Hamb].
  pose proof (readBool_frame onlyCursor _ _ _ Hflag) as HsF.
  assert (HF : fSymbolTable sF = fSymbolTable sE /\ memory sF = memory sE
               /\ ctxConfig (ambient sF) = ctxConfig (ambient s)
               /\ ctxModifiersPool (ambient sF) = ctxModifiersPool (ambient s))
    by (rewrite HsF; repeat split).
  destruct HF as (HFscope & HFmem & HFconfig & HFpool).
  split; [|split; [assumption|split; [assumption|split; [congruence|]]]].
  - rewrite program_unfold.
    rewrite (bind_Ok_l _ _ _ _ _ Hcommand).
    assert (Ha : SkASSERT (mret (command =? code kProgram_Command)) s0 = Ok tt s0).
    { unfold SkASSERT. destruct SK_DEBUG; [|reflexivity].
      rewrite (Hassert eq_refl), Z.eqb_refl. reflexivity. }
    rewrite (bind_Ok_l _ _ _ _ _ Ha), (bind_Ok_l _ _ _ _ _ Hkind),
      (bind_Ok_l _ _ _ _ _ Hversion).
    rewrite (bind_Ok_l _ _ _ _ _ Htable), (bind_Ok_l _ _ _ _ _ Helems).
    rewrite Hmem, Hamb. unfold programEpilogue.
    assert (Hrestore :
      forall k : unit -> Decode Program,
        (modify (fun st => set_ambient (set_ctxConfig (ctxConfig (ambient s)) (ambient st)) st);;
         modify (fun st => set_ambient
                   (set_ctxModifiersPool (ctxModifiersPool (ambient s)) (ambient st)) st);;
         k tt) sE = k tt (restoredContext s sE)) by reflexivity.
    rewrite (Hrestore (fun _ => _)).
    rewrite (bind_Ok_l _ _ _ _ _ Hflag).
    cbv [mbind Decode_bind get mret Decode_ret modify derefTable fatal].
    rewrite Hpool. cbn [fSymbolTable set_ambient memory]. rewrite Hcur, Htab.
    reflexivity.
  - intros Hroot.
    pose proof (elements_frame sameScope _ _ _ _ Helems) as Hscope.
    pose proof (elements_frame tablesExtend _ _ _ _ Helems) as Htabs.
    destruct (symbolTable_scope _ _ _ _ Htable) as [_ [[-> _]|[HcurR Hchild]]];
      [contradiction|].
    unfold sameScope in Hscope.
    split; [congruence|].
    destruct Hchild as (t & tabR & -> & _ & HtabR & Hparent).
    destruct (Htabs _ _ HtabR) as (tabE & HtabE & HparentE & _).
    assert (root = t) as -> by congruence.
    assert (tab = tabE) as -> by congruence.
    rewrite HparentE, Hparent. reflexivity.
Qed.

End Programs.

Lemma program_restores_and_pops_witness :
  let s := set_fSymbolTable (Some 0%nat)
             (Example.bodyState (drop Example.bodyStart Example.addProgram)) in
  exists p s',
    program (env:=Example.debugBuild) 64 s = Ok p s'
    /\ pSymbols p = Some 2%nat
    /\ pPool p = false
    /\ fSymbolTable s' = Some 1%nat
    /\ threadMemoryPool (ambient s') = None.
Proof.
  intros s.
  edestruct (program_restores_and_pops (env:=Example.debugBuild) 64 s)
    as (Hrun & _ & _ & _ & _);
    [vm_compute; reflexivity | intros _; vm_compute; reflexivity
    | vm_compute; reflexivity ..|].
  eexists _, _. split; [exact Hrun|].
  split; [reflexivity|]. split; [reflexivity|].
  split; vm_compute; reflexivity.
Defined.

(** ** Termination *)

Section Ends.

Lemma ends_ret {A} (P : State -> Prop) (a : A) : ends P (mret a) P.
Proof. intros s HP. split; [discriminate|]. now intros a' s' [= _ <-]. Qed.

Lemma ends_get (P : State -> Prop) : ends P get P.
Proof. intros s HP. split; [discriminate|]. now intros a' s' [= _ <-]. Qed.

Lemma ends_fatal {A} (P Q : State -> Prop) f : ends P (@fatal A f) Q.
Proof. intros s HP. split; discriminate. Qed.

Lemma ends_modify (P Q : State -> Prop) f :
  (forall s, P s -> Q (f s)) -> ends P (modify f) Q.
Proof. intros Hf s HP. split; [discriminate|]. intros a s' [= _ <-]. auto. Qed.

Lemma ends_bind {A B} (P Q R : State -> Prop) (m : Decode A) (k : A -> Decode B) :
  ends P m Q -> (forall a, ends Q (k a) R) -> ends P (m ≫= k) R.
Proof.
  intros Hm Hk s HP. destruct (Hm s HP) as [Hne Hpost].
  unfold mbind, Decode_bind.
  destruct (m s) as [a s1| |]; [|split; discriminate|contradiction].
  apply (Hk a s1). eauto.
Qed.

Lemma ends_weaken {A} (P P' Q Q' : State -> Prop) (m : Decode A) :
  ends P m Q -> (forall s, P' s -> P s) -> (forall s, Q s -> Q' s) -> ends P' m Q'.
Proof.
  intros Hm HP HQ s HP'. destruct (Hm s (HP s HP')) as [Hne Hpost].
  split; [assumption|]. eauto.
Qed.

Lemma ends_repeatM {A} (P : State -> Prop) n (body : Decode A) :
  ends P body P -> ends P (repeatM n body) P.
Proof.
  intros Hb. induction n as [|n IH]; cbn [repeatM]; [apply ends_ret|].
  eapply ends_bind; [exact Hb|]. intros x.
  eapply ends_bind; [exact IH|]. intros xs. apply ends_ret.
Qed.

Lemma ends_vacuous {A} (m : Decode A) (Q : State -> Prop) : ends (before 0) m Q.
Proof. intros s [_ H]. lia. Qed.

Lemma before_le j k s : (j <= k)%nat -> before j s -> before k s.
Proof. intros Hjk [Hwf Hr]. split; [assumption|lia]. Qed.

End Ends.

(** One step of a syntax-directed proof of [ends P m P]. *)
Ltac ends_step atom :=
  lazymatch goal with
  | |- ends _ (mret _) _ => apply ends_ret
  | |- ends _ get _ => apply ends_get
  | |- ends _ (fatal _) _ => apply ends_fatal
  | |- ends _ (modify _) _ => first [apply ends_modify; intros ? ?; atom | atom]
  | |- ends ?P (_ ≫= _) _ => apply (ends_bind P P); [|intro]
  | |- ends _ (repeatM _ _) _ => apply ends_repeatM
  | |- ends _ (match ?x with _ => _ end) _ => destruct x
  | |- ends _ (let '(_, _) := ?x in _) _ => destruct x
  | |- ends _ (if ?b then _ else _) _ => destruct b
  | _ => atom
  end.

Ltac ends_auto atom := repeat (ends_step atom).

Section Termination.

Context {env : Env}.

(** The string reader never moves the cursor backwards. *)
Hypothesis stringAt_forward :
  forall r str ip, stringAt r = Some (str, ip) -> (fIP r <= ip)%nat.

Lemma readU8_ends j : ends (before (S j)) readU8 (before j).
Proof.
  intros s [Hwf Hr]. unfold readU8. 
  destruct (src (reader s) !! fIP (reader s)) as [b|] eqn:Hb; [|split; discriminate].
  split; [discriminate|]. intros a s' [= _ <-].
  apply lookup_lt_Some in Hb.
  split; [exact Hwf|]. unfold remaining in *. cbn. lia.
Qed.

Lemma readU8_stays j : ends (before j) readU8 (before j).
Proof.
  destruct j as [|j]; [apply ends_vacuous|].
  apply (ends_weaken (before (S j)) _ (before j)); [apply readU8_ends|auto|].
  intros s Hs. apply (before_le j); [lia|exact Hs].
Qed.

Lemma readString_stays j : ends (before j) readString (before j).
Proof.
  intros s [Hwf Hr]. unfold readString.
  destruct (stringAt (reader s)) as [[str ip]|] eqn:E; [|split; discriminate].
  split; [discriminate|]. intros a s' [= _ <-].
  apply stringAt_forward in E.
  split; [exact Hwf|]. unfold remaining in *. cbn. lia.
Qed.

Lemma derefTable_stays (P : State -> Prop) p : ends P (derefTable p) P.
Proof.
  intros s HP. unfold derefTable.
  destruct p; [destruct (_ !! _)|]; (split; [discriminate|]); intros a s' [=]; now subst.
Qed.

Lemma derefSymbol_stays (P : State -> Prop) p : ends P (derefSymbol p) P.
Proof.
  intros s HP. unfold derefSymbol.
  destruct p; [destruct (_ !! _)|]; (split; [discriminate|]); intros a s' [=]; now subst.
Qed.

Lemma alterTable_stays j t f :
  (forall tab, fParent (f tab) = fParent tab) ->
  ends (before j) (alterTable t f) (before j).
Proof.
  intros Hf. apply ends_modify. intros s [[Hparents Hcur] Hr].
  split; [split|exact Hr]; cbn.
  - intros t' tab' p Htab' Hp.
    destruct (decide (t = t')) as [<-|Hne].
    + rewrite list_lookup_alter_eq in Htab'.
      destruct (tableHeap (memory s) !! t) as [tab|] eqn:Htab; [|discriminate].
      injection Htab' as <-. rewrite Hf in Hp. eauto.
    + rewrite list_lookup_alter_ne in Htab' by assumption. eauto.
  - intros t' Ht'. rewrite length_alter. auto.
Qed.

Lemma pushSymbolTable_stays j b : ends (before j) (pushSymbolTable b) (before j).
Proof.
  apply ends_modify. intros s [[Hparents Hcur] Hr].
  split; [split|exact Hr]; cbn.
  - intros t tab p Htab Hp.
    apply lookup_app_Some in Htab as [Htab|[Hge Htab]]; [eauto|].
    apply list_lookup_singleton_Some in Htab as [Hz <-]. cbn in Hp.
    apply Hcur in Hp. lia.
  - intros t [= <-]. rewrite length_app. cbn. lia.
Qed.

(** Under decreasing parent pointers the walk to the root needs no more
    steps than the index of the table it starts from; from a dangling
    pointer it fails at once. *)
Lemma walkToRoot_ends j n t s :
  before j s -> (t <= n)%nat \/ (length (tableHeap (memory s)) <= t)%nat ->
  walkToRoot (S n) t s <> OutOfFuel
  /\ forall a s', walkToRoot (S n) t s = Ok a s' -> before j s'.
Proof.
  revert t. induction n as [|n IH]; intros t Hs Ht;
    cbn [walkToRoot]; unfold mbind, Decode_bind, derefTable;
    (destruct (tableHeap (memory s) !! t) as [tab|] eqn:Htab; [|split; discriminate]);
    (destruct (fParent tab) as [p|] eqn:Hp;
       [|split; [discriminate|]; now intros a s' [= _ <-]]);
    pose proof (lookup_lt_Some _ _ _ Htab);
    destruct Hs as [[Hparents Hcur] Hr]; pose proof (Hparents _ _ _ Htab Hp).
  - lia.
  - apply IH; [split; [split|]; assumption|]. lia.
Qed.

Lemma outermostAncestor_stays j t : ends (before j) (outermostAncestor t) (before j).
Proof.
  intros s Hs. unfold outermostAncestor, mbind, Decode_bind, get.
  apply walkToRoot_ends; [assumption|lia].
Qed.

Ltac ends_atom :=
  first [ assumption
        | apply readU8_stays | apply readString_stays | apply derefTable_stays
        | apply derefSymbol_stays | apply outermostAncestor_stays
        | apply alterTable_stays; intros; reflexivity
        | apply pushSymbolTable_stays
        | progress unfold readU16, readU32, readS8, readS16, readS32, readBool,
            SkASSERT, takeOwnershipOfSymbol, takeOwnershipOfString,
            addWithoutOwnership, isBuiltin, modifiersPool_add,
            addSymbol, symbolRef, possiblyBuiltinSymbolRef, layout, modifiers,
            pointee_is, type_of, type, setDefinition, isFunctionDefinition,
            expressionArray_of, expressionArray, singleArgumentConstructor,
            listConstructor, visibleEntry ].

Ltac ends_decoder := ends_auto ends_atom.

(** A decoder that reads its tag first and then keeps within the bytes
    that are left. *)
Lemma ends_tagged {A} j (k : Z -> Decode A) :
  (forall kind, ends (before j) (k kind) (before j)) ->
  ends (before (S j)) (readU8 ≫= k) (before j).
Proof. intros Hk. apply (ends_bind _ (before j)); [apply readU8_ends|exact Hk]. Qed.

Lemma ends_relax {A} j n (m : Decode A) :
  (forall i, (i <= n)%nat -> ends (before i) m (before (pred i))) ->
  (j <= n)%nat -> ends (before j) m (before j).
Proof.
  intros Hm Hj. apply (ends_weaken (before j) _ (before (pred j))); [auto|auto|].
  intros s Hs. apply (before_le (pred j)); [lia|exact Hs].
Qed.

Lemma symbol_ends n j :
  (j <= n)%nat -> ends (before j) (symbol n) (before (pred j)).
Proof.
  revert j. induction n as [|n IH]; intros j Hj.
  - replace j with 0%nat by lia. apply ends_vacuous.
  - destruct j as [|j]; [apply ends_vacuous|].
    assert (ends (before j) (symbol n) (before j)) by (apply (ends_relax j n); [exact IH|lia]).
    cbn [symbol pred]. apply ends_tagged. intros kind. ends_decoder.
Qed.

Lemma symbolTable_stays j fuel :
  ends (before j) (symbol fuel) (before j) ->
  ends (before j) (symbolTable fuel) (before j).
Proof. intros Hsym. unfold symbolTable. ends_decoder. Qed.

Lemma expression_ends n j :
  (j <= n)%nat -> ends (before j) (expression n) (before (pred j)).
Proof.
  revert j. induction n as [|n IH]; intros j Hj.
  - replace j with 0%nat by lia. apply ends_vacuous.
  - destruct j as [|j]; [apply ends_vacuous|].
    assert (ends (before j) (expression n) (before j))
      by (apply (ends_relax j n); [exact IH|lia]).
    assert (ends (before j) (symbol n) (before j))
      by (apply (ends_relax j n); [apply symbol_ends|lia]).
    cbn [expression pred]. apply ends_tagged. intros kind. ends_decoder.
Qed.

Lemma bind_OutOfFuel {A B} (m : Decode A) (k : A -> Decode B) s :
  (m ≫= k) s = OutOfFuel ->
  m s = OutOfFuel \/ exists a s1, m s = Ok a s1 /\ k a s1 = OutOfFuel.
Proof.
  unfold mbind, Decode_bind. destruct (m s) as [a s1| |]; [eauto|discriminate|auto].
Qed.

(** The guard: the scope it puts back is still a table of the heap. *)
Lemma guard_ends {A} j fuel (body : Decode A) :
  ends (before j) (symbolTable fuel) (before j) ->
  preserves tablesExtend body ->
  ends (before j) body (before j) ->
  ends (before j) (AutoRehydratorSymbolTable fuel body) (before j).
Proof.
  intros Hst Hframe Hbody s Hs. unfold AutoRehydratorSymbolTable.
  assert (Hopen : forall symbols s1 u s2,
             symbolTable fuel s = Ok symbols s1 ->
             (if symbols is Some _ then modify (set_fSymbolTable symbols) else mret tt) s1
             = Ok u s2 ->
             before j s2 /\ tablesExtend s s2).
  { intros symbols s1 u s2 E1 E2.
    destruct (Hst s Hs) as [_ Hpost1]. specialize (Hpost1 _ _ E1).
    destruct (symbolTable_scope _ _ _ _ E1) as [Htabs1 Hcur1].
    destruct symbols as [t|]; injection E2 as _ <-; [|split; assumption].
    destruct Hcur1 as [[[=] _]|[Hcur _]].
    destruct Hpost1 as [[Hparents Hvalid] Hr].
    split; [split; [split|]|]; cbn; try assumption.
    intros t' [= <-]. apply Hvalid. exact Hcur. }
  split.
  - intros H.
    apply bind_OutOfFuel in H as [H|(old & s0 & Hold & H)]; [discriminate|].
    injection Hold as <- <-.
    apply bind_OutOfFuel in H as [H|(symbols & s1 & E1 & H)];
      [exact (proj1 (Hst s Hs) H)|].
    apply bind_OutOfFuel in H as [H|(u & s2 & E2 & H)];
      [destruct symbols; discriminate|].
    destruct (Hopen _ _ _ _ E1 E2) as [Hs2 _].
    apply bind_OutOfFuel in H as [H|(r & s3 & E3 & H)];
      [exact (proj1 (Hbody s2 Hs2) H)|].
    discriminate.
  - intros a s'.
    intros (old & s0 & Hold & H)%bind_Ok. injection Hold as <- <-.
    apply bind_Ok in H as (symbols & s1 & E1 & H).
    apply bind_Ok in H as (u & s2 & E2 & H).
    apply bind_Ok in H as (r & s3 & E3 & H).
    apply bind_Ok in H as (? & s4 & [= _ <-] & [= _ <-]).
    destruct (Hopen _ _ _ _ E1 E2) as [Hs2 Htabs2].
    destruct (proj2 (Hbody s2 Hs2) _ _ E3) as [[Hparents Hvalid] Hr].
    pose proof (Hframe _ _ _ E3) as Hfr3.
    destruct Hs as [[_ Hold] _].
    split; [split|]; cbn; try assumption.
    intros t Ht. apply Hold in Ht. apply lookup_lt_is_Some in Ht as [tab Htab].
    destruct (Htabs2 _ _ Htab) as (tab2 & Htab2 & _).
    destruct (Hfr3 _ _ Htab2) as (tab3 & Htab3 & _).
    apply lookup_lt_Some in Htab3. exact Htab3.
Qed.

Ltac ends_scoped :=
  ends_auto ltac:(first
    [ apply guard_ends;
        [ apply symbolTable_stays; assumption
        | frame
        | idtac ]
    | ends_atom ]).

Lemma statement_ends n j :
  (j <= n)%nat -> ends (before j) (statement n) (before (pred j)).
Proof.
  revert j. induction n as [|n IH]; intros j Hj.
  - replace j with 0%nat by lia. apply ends_vacuous.
  - destruct j as [|j]; [apply ends_vacuous|].
    assert (ends (before j) (statement n) (before j))
      by (apply (ends_relax j n); [exact IH|lia]).
    assert (ends (before j) (expression n) (before j))
      by (apply (ends_relax j n); [apply expression_ends|lia]).
    assert (ends (before j) (symbol n) (before j))
      by (apply (ends_relax j n); [apply symbol_ends|lia]).
    pose proof (statement_frame tablesExtend n).
    pose proof (expression_frame tablesExtend n).
    pose proof (symbol_frame tablesExtend n).
    cbn [statement pred]. apply ends_tagged. intros kind. ends_scoped.
Qed.

Lemma element_ends n j :
  (j <= n)%nat -> ends (before j) (element n) (before (pred j)).
Proof.
  revert j. induction n as [|n IH]; intros j Hj.
  - replace j with 0%nat by lia. apply ends_vacuous.
  - destruct j as [|j]; [apply ends_vacuous|].
    assert (ends (before j) (element n) (before j))
      by (apply (ends_relax j n); [exact IH|lia]).
    assert (ends (before j) (statement n) (before j))
      by (apply (ends_relax j n); [apply statement_ends|lia]).
    assert (ends (before j) (symbol n) (before j))
      by (apply (ends_relax j n); [apply symbol_ends|lia]).
    cbn [element pred]. apply ends_tagged. intros kind. ends_decoder.
Qed.

(** Every turn of the element loop reads at least the tag of an element,
    so the loop takes no more turns than there are bytes left. *)
Lemma elementLoop_ends turns (e : Decode (option ProgramElement)) j :
  (forall i, (i <= turns)%nat -> ends (before i) e (before (pred i))) ->
  (j <= turns)%nat -> ends (before j) (elementLoop turns e) (before j).
Proof.
  revert j. induction turns as [|turns IH]; intros j He Hj.
  - replace j with 0%nat by lia. apply ends_vacuous.
  - destruct j as [|j]; [apply ends_vacuous|].
    cbn [elementLoop]. apply (ends_bind _ (before j)); [apply He; lia|].
    assert (ends (before j) (elementLoop turns e) (before (S j))).
    { apply (ends_weaken (before j) _ (before j)); [|auto|].
      - apply IH; [|lia]. intros i Hi. apply He. lia.
      - intros s Hs. apply (before_le j); [lia|exact Hs]. }
    intros [elem|].
    + apply (ends_bind _ (before (S j))); [assumption|]. intros rest. apply ends_ret.
    + apply (ends_weaken (before j) _ (before j)); [apply ends_ret|auto|].
      intros s Hs. apply (before_le j); [lia|exact Hs].
Qed.

Lemma elements_ends fuel j :
  (j <= fuel)%nat -> ends (before j) (elements fuel) (before j).
Proof.
  intros Hj. unfold elements.
  pose proof (elementLoop_ends fuel (element fuel) j (element_ends fuel) Hj).
  ends_decoder.
Qed.

(** The steps that cannot run out of fuel whatever the state. *)
Lemma readU8_runs : ends (fun _ => True) readU8 (fun _ => True).
Proof.
  intros s _. unfold readU8. destruct (_ !! _); split; auto; discriminate.
Qed.

Ltac runs :=
  ends_auto ltac:(first [ exact I | apply readU8_runs | apply derefTable_stays
                        | progress unfold readU16, readBool, SkASSERT, isBuiltin ]).

Lemma construct_runs : ends (fun _ => True) construct (fun _ => True).
Proof. unfold construct. runs. Qed.

Lemma destruct_runs : ends (fun _ => True) destruct_ (fun _ => True).
Proof. unfold destruct_. runs. Qed.

Lemma programEpilogue_runs config modifiers oldConfig oldModifiersPool elems :
  ends (fun _ => True)
       (programEpilogue config modifiers oldConfig oldModifiersPool elems)
       (fun _ => True).
Proof. unfold programEpilogue. runs. Qed.

#[local] Instance sameTables_frame : ReaderFrame sameTables.
Proof.
  split; [split|]; unfold sameTables.
  - intros s. split; reflexivity.
  - intros s1 s2 s3 [] []. split; congruence.
  - intros. split; reflexivity.
Qed.

Lemma construct_tables : preserves sameTables construct.
Proof.
  unfold construct.
  preserves_auto ltac:(first [frame_atom | split; reflexivity]).
Qed.

Lemma modulesIn_extend s s' : modulesIn s -> tablesExtend s s' -> modulesIn s'.
Proof.
  intros Hm Hext kind t Ht. destruct (Hm kind t Ht) as [tab Htab].
  destruct (Hext _ _ Htab) as (tab' & Htab' & _). eauto.
Qed.

Lemma ends_modules {A} j (m : Decode A) :
  ends (before j) m (before j) -> preserves tablesExtend m ->
  ends (fun s => before j s /\ modulesIn s) m (fun s => before j s /\ modulesIn s).
Proof.
  intros Hm Hframe s [Hs Hmod]. destruct (Hm s Hs) as [Hne Hpost].
  split; [exact Hne|]. intros a s' Hrun. split; [eauto|].
  eapply modulesIn_extend; [exact Hmod|]. exact (Hframe _ _ _ Hrun).
Qed.

Lemma moduleScope_stays j kind :
  ends (fun s => before j s /\ modulesIn s)
       (modify (set_fSymbolTable (moduleForProgramKind kind)))
       (fun s => before j s /\ modulesIn s).
Proof.
  apply ends_modify. intros s [[[Hparents Hvalid] Hr] Hmod].
  split; [split; [split|]|]; cbn; try assumption.
  intros t Ht. apply lookup_lt_is_Some. exact (Hmod _ _ Ht).
Qed.

(** [program] ends whenever its fuel exceeds the bytes that are left. *)
Lemma program_ends fuel j :
  (j <= fuel)%nat ->
  ends (fun s => before j s /\ modulesIn s) (program fuel) (fun _ => True).
Proof.
  intros Hj. unfold program, newConfig, newModifiersPool.
  assert (Hsym : ends (before j) (symbol fuel) (before j))
    by (apply (ends_relax j fuel); [apply symbol_ends|lia]).
  pose proof (ends_modules j _ (readU8_stays j) (readU8_frame tablesExtend)).
  pose proof (ends_modules j _ (symbolTable_stays j fuel Hsym)
                (symbolTable_frame tablesExtend fuel)).
  pose proof (ends_modules j _ (elements_ends fuel j Hj)
                (elements_frame tablesExtend fuel)).
  ends_auto ltac:(first
    [ assumption
    | apply moduleScope_stays
    | apply (ends_weaken (fun _ => True) _ (fun _ => True));
        [apply programEpilogue_runs|auto|auto]
    | progress unfold SkASSERT ]).
Qed.

(** X13.  A decode session ends.  No chain of nested decoder calls is
    longer than the buffer has bytes, the element loop takes no more turns
    than that, and the walk to the root of a scope ends, because each
    decoder reads a byte before it calls another and a read at the end of
    the buffer fails: with fuel beyond the length of the buffer a session
    returns a Program or fails, and never stops for want of fuel. *)
Lemma session_ends fuel bytes symbols m a :
  wellFormed (initialState bytes symbols m a) ->
  modulesIn (initialState bytes symbols m a) ->
  (length bytes < fuel)%nat ->
  session fuel bytes symbols m a <> OutOfFuel.
Proof.
  intros Hwf Hmod Hfuel. unfold session. set (s0 := initialState bytes symbols m a) in *.
  intros H.
  apply bind_OutOfFuel in H as [H|(? & s1 & Hc & H)];
    [exact (proj1 (construct_runs s0 I) H)|].
  destruct (construct_tables _ _ _ Hc) as [Hmem Hcur].
  pose proof (construct_source _ _ _ Hc) as Hsrc. unfold sameSource in Hsrc.
  assert (Hs1 : before fuel s1 /\ modulesIn s1).
  { unfold before, wellFormed, modulesIn, remaining in *.
    rewrite Hmem, Hcur, Hsrc. split; [split|]; [assumption| |assumption].
    subst s0. cbn. lia. }
  apply bind_OutOfFuel in H as [H|(p & s2 & Hp & H)];
    [exact (proj1 (program_ends fuel fuel (le_n _) s1 Hs1) H)|].
  apply bind_OutOfFuel in H as [H|(? & s3 & Hd & H)];
    [exact (proj1 (destruct_runs s2 I) H)|].
  discriminate.
Qed.

End Termination.

(** ** Float literals *)

Section Binary32.

Open Scope R_scope.

Lemma PI_bounds : 26353589 / 8388608 < PI < 26353591 / 8388608.
Proof.
  pose proof (PI_2_3_7_ineq 3) as [Hlo Hhi].
  unfold sum_f_R0, tg_alt, PI_2_3_7_tg, Ratan_seq in Hlo, Hhi.
  cbn [Nat.mul Nat.add] in Hlo, Hhi.
  rewrite ?S_INR, ?INR_0 in *. simpl pow in Hlo, Hhi.
  split; lra.
Qed.

Lemma powerRZ_2_neg23 : powerRZ 2 (-23) = / 8388608.
Proof. simpl. f_equal. lra. Qed.

Lemma powerRZ_2_neg22 : powerRZ 2 (-22) = / 4194304.
Proof. simpl. f_equal. lra. Qed.

Lemma powerRZ_2_neg21 : powerRZ 2 (-21) = / 2097152.
Proof. simpl. f_equal. lra. Qed.

Lemma powerRZ_2_pos n : 0 < powerRZ 2 n.
Proof. apply powerRZ_lt. lra. Qed.

Lemma powerRZ_2_le n m : (n <= m)%Z -> powerRZ 2 n <= powerRZ 2 m.
Proof.
  intros Hnm. replace m with (n + Z.of_nat (Z.to_nat (m - n)))%Z by lia.
  rewrite powerRZ_add by lra. rewrite <- pow_powerRZ.
  pose proof (powerRZ_2_pos n). pose proof (pow_R1_Rle 2 (Z.to_nat (m - n))).
  rewrite <- (Rmult_1_r (powerRZ 2 n)) at 1.
  apply Rmult_le_compat_l; lra.
Qed.

Lemma binary32_fields bits :
  (0 <= binary32_exponent bits < 256)%Z /\ (0 <= binary32_mantissa bits < 2 ^ 23)%Z.
Proof.
  unfold binary32_exponent, binary32_mantissa.
  split; apply Z.mod_pos_bound; lia.
Qed.

(** Where the magnitudes of the binades lie. *)
Lemma binary32_magnitude_cases bits :
  let e := binary32_exponent bits in
  0 <= binary32_magnitude bits
  /\ ((e < 128)%Z -> binary32_magnitude bits < 2)
  /\ ((128 < e)%Z -> 4 <= binary32_magnitude bits)
  /\ (e = 128%Z ->
      binary32_magnitude bits = IZR (2 ^ 23 + binary32_mantissa bits) / 4194304).
Proof.
  intros e. destruct (binary32_fields bits) as [He Hm]. fold e in He.
  unfold binary32_magnitude. fold e.
  set (m := binary32_mantissa bits) in *.
  assert (Hm0 : 0 <= IZR m) by (apply IZR_le; lia).
  assert (Hm1 : IZR m <= 8388607) by (apply IZR_le; lia).
  assert (Hk : IZR (2 ^ 23 + m) = 8388608 + IZR m) by (rewrite plus_IZR; f_equal).
  destruct (e =? 0)%Z eqn:E0.
  - apply Z.eqb_eq in E0.
    assert (Hp : powerRZ 2 (-149) <= / 8388608).
    { rewrite <- powerRZ_2_neg23. apply powerRZ_2_le; lia. }
    pose proof (powerRZ_2_pos (-149)) as Hpos.
    repeat split.
    + apply Rmult_le_pos; lra.
    + intros _. apply Rle_lt_trans with (8388607 * / 8388608); [|lra].
      apply Rmult_le_compat; lra.
    + lia.
    + lia.
  - apply Z.eqb_neq in E0. rewrite Hk.
    pose proof (powerRZ_2_pos (e - 150)) as Hpos.
    repeat split.
    + apply Rmult_le_pos; lra.
    + intros Hlt.
      assert (Hp : powerRZ 2 (e - 150) <= / 8388608).
      { rewrite <- powerRZ_2_neg23. apply powerRZ_2_le; lia. }
      apply Rle_lt_trans with (16777215 * / 8388608); [|lra].
      apply Rmult_le_compat; lra.
    + intros Hgt.
      assert (Hp : / 2097152 <= powerRZ 2 (e - 150)).
      { rewrite <- powerRZ_2_neg21. apply powerRZ_2_le; lia. }
      apply Rle_trans with (8388608 * / 2097152); [lra|].
      apply Rmult_le_compat; lra.
    + intros ->. replace (128 - 150)%Z with (-22)%Z by lia.
      rewrite powerRZ_2_neg22. reflexivity.
Qed.

(** 0x40490FDB is the binary32 number nearest to pi. *)
Lemma binary32_pi : binary32_nearest PI 1078530011.
Proof.
  exists (13176795 / 4194304). split.
  - unfold binary32_value.
    change (binary32_exponent 1078530011 =? 255)%Z with false.
    change (binary32_negative 1078530011) with false.
    f_equal.
    destruct (binary32_magnitude_cases 1078530011) as (_ & _ & _ & ->); reflexivity.
  - intros bits' v' Hv'. unfold binary32_value in Hv'.
    destruct (binary32_exponent bits' =? 255)%Z; [discriminate|].
    injection Hv' as <-.
    pose proof PI_bounds as [Hlo Hhi].
    assert (Hnear : Rabs (13176795 / 4194304 - PI) < / 8388608).
    { apply Rabs_def1; lra. }
    destruct (binary32_magnitude_cases bits') as (H0 & Hlow & Hhigh & Hmid).
    destruct (binary32_negative bits').
    { rewrite (Rabs_left (- binary32_magnitude bits' - PI)); lra. }
    destruct (Z.lt_trichotomy (binary32_exponent bits') 128) as [Hlt|[Heq|Hgt]].
    + specialize (Hlow Hlt). rewrite (Rabs_left (binary32_magnitude bits' - PI)); lra.
    + rewrite (Hmid Heq).
      set (k := (2 ^ 23 + binary32_mantissa bits')%Z).
      destruct (Z.lt_trichotomy k 13176795) as [Hk|[Hk|Hk]].
      * assert (IZR k <= 13176794) by (apply IZR_le; lia).
        rewrite (Rabs_left (IZR k / 4194304 - PI)); lra.
      * rewrite Hk. lra.
      * assert (13176796 <= IZR k) by (apply IZR_le; lia).
        rewrite (Rabs_right (IZR k / 4194304 - PI)); lra.
    + specialize (Hhigh Hgt). rewrite (Rabs_right (binary32_magnitude bits' - PI)); lra.
Qed.

End Binary32.

Section FloatLiterals.

Context {env : Env}.

(** C5.  A FloatLiteral carries its 32-bit wire pattern over bit for bit:
    the binary32 value of the literal has exactly the pattern that was read,
    with no decimal form in between.  The pattern 0x40490FDB therefore gives
    the binary32 number nearest to pi. *)
Theorem floatLiteral_bit_exact fuel s kind s0 t s1 u s2 :
  readU8 s = Ok kind s0 ->
  switch expressionCases kind = Some kFloatLiteral_Command ->
  type fuel s0 = Ok t s1 ->
  readU32 s1 = Ok u s2 ->
  expression (S fuel) s = Ok (Some (EFloatLiteral u t)) s2
  /\ (u = 1078530011 -> binary32_nearest PI u).
Proof.
  intros Hkind Hcase Hty Hraw. split; [|intros ->; apply binary32_pi].
  cbn [expression]. rewrite (bind_Ok_l _ _ _ _ _ Hkind), Hcase.
  rewrite (bind_Ok_l _ _ _ _ _ Hty).
  unfold readS32. unfold mbind at 1, Decode_bind at 1.
  rewrite (bind_Ok_l _ _ _ _ _ Hraw).
  cbv [mret Decode_ret].
  now rewrite (signExtend32_pattern u (readU32_range _ _ _ Hraw)).
Qed.

End FloatLiterals.

Lemma floatLiteral_bit_exact_witness :
  exists s2,
    expression (env:=Example.debugBuild) 3 (Example.bodyState Example.piLiteral)
      = Ok (Some (EFloatLiteral 0x40490FDB (Some 2%nat))) s2
    /\ binary32_nearest PI 0x40490FDB.
Proof.
  edestruct (floatLiteral_bit_exact (env:=Example.debugBuild) 2
               (Example.bodyState Example.piLiteral)) as [Hdecode Hpi];
    [vm_compute; reflexivity ..|].
  eexists. split; [exact Hdecode | exact (Hpi eq_refl)].
Defined.

(** * Further properties of the decoder *)

(** ** The wire format of layouts and modifiers *)

Section Wire.

Context {env : Env}.

Lemma advanced_0 s : advanced 0 s s.
Proof. unfold advanced. destruct s as [[] ? ? ? ?]. cbn. now rewrite Nat.add_0_r. Qed.

Lemma advanced_trans n m s1 s2 s3 :
  advanced n s1 s2 -> advanced m s2 s3 -> advanced (n + m) s1 s3.
Proof.
  unfold advanced. intros -> ->. cbn. now rewrite Nat.add_assoc.
Qed.

Lemma advanced_onlyCursor n s s' : advanced n s s' -> onlyCursor s s'.
Proof. unfold advanced, onlyCursor. intros ->. reflexivity. Qed.

Lemma readU8_advanced s v s' : readU8 s = Ok v s' -> advanced 1 s s'.
Proof.
  intros [_ ->]%readU8_Ok. unfold advanced. now rewrite Nat.add_1_r.
Qed.

Lemma readU16_advanced s v s' : readU16 s = Ok v s' -> advanced 2 s s'.
Proof.
  unfold readU16.
  intros (b1 & s1 & H1 & (b2 & s2 & H2 & [= _ <-])%bind_Ok)%bind_Ok.
  apply readU8_advanced in H1, H2. exact (advanced_trans 1 1 _ _ _ H1 H2).
Qed.

Lemma readU32_advanced s v s' : readU32 s = Ok v s' -> advanced 4 s s'.
Proof.
  unfold readU32.
  intros (b1 & s1 & H1 & (b2 & s2 & H2 & (b3 & s3 & H3 &
          (b4 & s4 & H4 & [= _ <-])%bind_Ok)%bind_Ok)%bind_Ok)%bind_Ok.
  apply readU8_advanced in H1, H2, H3, H4.
  exact (advanced_trans 1 3 _ _ _ H1
           (advanced_trans 1 2 _ _ _ H2 (advanced_trans 1 1 _ _ _ H3 H4))).
Qed.

(** The top bit of a [w]-bit pattern is set exactly from 2^(w-1) on. *)
Lemma testbit_top w u :
  0 < w -> 0 <= u < 2 ^ w -> Z.testbit u (w - 1) = (2 ^ (w - 1) <=? u).
Proof.
  intros Hw Hu. rewrite Z.testbit_eqb by lia.
  assert (Hp : 2 ^ w = 2 * 2 ^ (w - 1)).
  { rewrite <- Z.pow_succ_r by lia. f_equal. lia. }
  assert (Hpos : 0 < 2 ^ (w - 1)) by (apply Z.pow_pos_nonneg; lia).
  assert (Hq : u / 2 ^ (w - 1) = 0 \/ u / 2 ^ (w - 1) = 1).
  { assert (0 <= u / 2 ^ (w - 1) < 2); [|lia].
    split; [apply Z.div_pos; lia | apply Z.div_lt_upper_bound; lia]. }
  pose proof (Z.div_mod u (2 ^ (w - 1)) ltac:(lia)) as Hdm.
  pose proof (Z.mod_pos_bound u (2 ^ (w - 1)) ltac:(lia)) as Hm.
  destruct Hq as [Hq|Hq]; rewrite Hq in *; simpl; symmetry.
  - apply Z.leb_gt. lia.
  - apply Z.leb_le. lia.
Qed.

Lemma signExtend_range w u :
  0 < w -> 0 <= u < 2 ^ w -> fitsSigned w (signExtend w u).
Proof.
  intros Hw Hu. unfold signExtend, fitsSigned.
  rewrite testbit_top by assumption.
  assert (Hp : 2 ^ w = 2 * 2 ^ (w - 1)).
  { rewrite <- Z.pow_succ_r by lia. f_equal. lia. }
  destruct (2 ^ (w - 1) <=? u) eqn:E; [apply Z.leb_le in E | apply Z.leb_gt in E]; lia.
Qed.

Lemma readS8_Ok s v s' : readS8 s = Ok v s' -> fitsSigned 8 v /\ advanced 1 s s'.
Proof.
  unfold readS8. intros (u & s1 & Hu & [= <- <-])%bind_Ok.
  split; [|exact (readU8_advanced _ _ _ Hu)].
  apply readU8_Ok in Hu as [Hu _]. apply signExtend_range; lia.
Qed.

Lemma readS16_Ok s v s' : readS16 s = Ok v s' -> fitsSigned 16 v /\ advanced 2 s s'.
Proof.
  unfold readS16. intros (u & s1 & Hu & [= <- <-])%bind_Ok.
  split; [|exact (readU16_advanced _ _ _ Hu)].
  apply readU16_range in Hu. apply signExtend_range; lia.
Qed.


Lemma SkASSERT_false_Ok s u s' : SkASSERT (mret false) s = Ok u s' -> s' = s.
Proof. apply SkASSERT_pure. Qed.

(** What a successful [layout()] has read and returned, case by case. *)
Lemma layout_Ok s l s' :
  layout s = Ok l s' ->
  exists kind s0,
    readU8 s = Ok kind s0
    /\ advanced (layoutSize (switch layoutCases kind)) s s'
    /\ Layout_madeBy (switch layoutCases kind) l
    /\ Layout_inRange l.
Proof.
  unfold layout. intros (kind & s0 & Hkind & Hrun)%bind_Ok.
  exists kind, s0. split; [exact Hkind|].
  pose proof (readU8_advanced _ _ _ Hkind) as H0.
  destruct (switch layoutCases kind) as [c|] eqn:Hc.
  - apply find_some in Hc as [Hin _]. unfold layoutCases in Hin.
    repeat (destruct Hin as [<-|Hin]); [..|destruct Hin].
    + apply bind_Ok in Hrun as (b & s1 & [Hb H1]%readS16_Ok & [= <- <-]).
      split; [exact (advanced_trans 1 2 _ _ _ H0 H1)|]. split; [eexists; reflexivity|].
      exact Hb.
    + injection Hrun as <- <-. split; [exact H0|]. split; [reflexivity|exact I].
    + apply bind_Ok in Hrun as (flags & s1 & Hflags & Hrun).
      apply bind_Ok in Hflags as (u & s1' & Hu & [= <- <-]).
      pose proof (readU32_advanced _ _ _ Hu) as H1. apply readU32_range in Hu.
      apply bind_Ok in Hrun as (location & s2 & [R2 H2]%readS8_Ok & Hrun).
      apply bind_Ok in Hrun as (offset & s3 & [R3 H3]%readS16_Ok & Hrun).
      apply bind_Ok in Hrun as (binding & s4 & [R4 H4]%readS16_Ok & Hrun).
      apply bind_Ok in Hrun as (index & s5 & [R5 H5]%readS8_Ok & Hrun).
      apply bind_Ok in Hrun as (set & s6 & [R6 H6]%readS8_Ok & Hrun).
      apply bind_Ok in Hrun as (builtin & s7 & [R7 H7]%readS16_Ok & Hrun).
      apply bind_Ok in Hrun as (iai & s8 & [R8 H8]%readS8_Ok & [= <- <-]).
      split; [|split; [do 8 eexists; reflexivity|]].
      * exact (advanced_trans 1 14 _ _ _ H0
                (advanced_trans 4 10 _ _ _ H1
                  (advanced_trans 1 9 _ _ _ H2
                    (advanced_trans 2 7 _ _ _ H3
                      (advanced_trans 2 5 _ _ _ H4
                        (advanced_trans 1 4 _ _ _ H5
                          (advanced_trans 1 3 _ _ _ H6
                            (advanced_trans 2 1 _ _ _ H7 H8)))))))).
      * cbn. repeat (split; [assumption|]). 
        split; [|tauto].
        apply signExtend_range; [lia|]. unfold truncate. apply Z.mod_pos_bound. lia.
  - apply bind_Ok in Hrun as (? & s1 & ->%SkASSERT_false_Ok & [= <- <-]).
    split; [exact H0|]. split; [reflexivity|exact I].
Qed.

(** X1.  [layout()] reads one byte for the default layout, three for a
    builtin layout and fifteen for a full one, moves nothing but the cursor,
    and returns the Layout of the case its tag selects.  A tag that is none
    of the three is fatal with assertions; without them it is read as the
    default layout. *)
Theorem layout_consumes s kind s0 l s' :
  readU8 s = Ok kind s0 ->
  layout s = Ok l s' ->
  advanced (layoutSize (switch layoutCases kind)) s s'
  /\ Layout_madeBy (switch layoutCases kind) l
  /\ (switch layoutCases kind = None -> SK_DEBUG = false).
Proof.
  intros Hkind Hrun.
  destruct (layout_Ok _ _ _ Hrun) as (kind' & s0' & Hkind' & Hadv & Hshape & _).
  rewrite Hkind in Hkind'. injection Hkind' as <- <-.
  split; [exact Hadv|]. split; [exact Hshape|].
  intros Hnone. unfold layout in Hrun. rewrite (bind_Ok_l _ _ _ _ _ Hkind), Hnone in Hrun.
  unfold SkASSERT in Hrun. destruct SK_DEBUG; [discriminate|reflexivity].
Qed.

(** X2.  Every field of a decoded Layout is a value of the integer type the
    source reads it as: the flags and nothing else 32 bits wide, offset,
    binding and builtin 16 bits, the others 8 bits, all signed. *)
Theorem layout_in_range s l s' : layout s = Ok l s' -> Layout_inRange l.
Proof. intros Hrun. destruct (layout_Ok _ _ _ Hrun) as (? & ? & _ & _ & _ & H). exact H. Qed.


End Wire.

Lemma layout_consumes_witness :
  let s := Example.bodyState Example.fullLayout in
  exists s',
    layout (env:=Example.debugBuild) s
      = Ok (LayoutOf (-2147483647) (-1) 258 (-2) 3 (-128) 32767 127) s'
    /\ advanced 15 s s'.
Proof.
  intros s.
  edestruct (layout_consumes (env:=Example.debugBuild) s) as [Hadv _];
    [vm_compute; reflexivity | vm_compute; reflexivity |].
  eexists. split; [vm_compute; reflexivity | exact Hadv].
Defined.

Lemma layout_in_range_witness :
  exists l s',
    layout (env:=Example.debugBuild) (Example.bodyState Example.fullLayout) = Ok l s'
    /\ Layout_inRange l.
Proof.
  eexists _, _. split; [vm_compute; reflexivity|].
  eapply (layout_in_range (env:=Example.debugBuild)
            (Example.bodyState Example.fullLayout)).
  vm_compute. reflexivity.
Defined.


(** ** Types and symbols *)

Section Symbols.

Context {env : Env}.

Lemma Symbol_is_kind k sym : Symbol_is k sym = true -> Symbol_kind sym = k.
Proof. destruct k, sym; cbn; congruence. Qed.

Lemma pointee_is_Ok k p s b s' :
  pointee_is k p s = Ok b s' ->
  s' = s /\ exists i sym, p = Some i /\ symbolHeap (memory s) !! i = Some sym
                          /\ b = Symbol_is k sym.
Proof.
  unfold pointee_is, derefSymbol, mbind, Decode_bind.
  destruct p as [i|]; [|discriminate].
  destruct (symbolHeap (memory s) !! i) as [sym|] eqn:Hsym; [|discriminate].
  intros [= <- <-]. eauto 6.
Qed.

(** X4.  [type()] returns what [symbol()] returns.  With assertions it
    goes on only when that pointer is not null and points to a Type; without
    them the pointer is returned unchecked, whatever it points to. *)
Theorem type_checked fuel s r s' :
  type fuel s = Ok r s' ->
  symbol fuel s = Ok r s'
  /\ (SK_DEBUG = true ->
      exists t sym, r = Some t /\ symbolHeap (memory s') !! t = Some sym
                    /\ Symbol_kind sym = kType).
Proof.
  unfold type, type_of. intros (result & s1 & Hsym & Hrun)%bind_Ok.
  apply bind_Ok in Hrun as (? & s2 & Hassert & [= <- <-]).
  unfold SkASSERT in Hassert. destruct SK_DEBUG.
  - apply bind_Ok in Hassert as (b & s1' & Hb & Hassert).
    apply pointee_is_Ok in Hb as (-> & t & sym & -> & Hlookup & ->).
    destruct (Symbol_is kType sym) eqn:Hk; [|discriminate].
    injection Hassert as _ <-. split; [exact Hsym|]. intros _.
    exists t, sym. auto using Symbol_is_kind.
  - injection Hassert as _ <-. split; [exact Hsym|discriminate].
Qed.

Lemma takeOwnershipOfSymbol_Ok sym s p s' :
  takeOwnershipOfSymbol sym s = Ok p s' ->
  exists t tab,
    fSymbolTable s = Some t /\ tableHeap (memory s) !! t = Some tab
    /\ p = length (symbolHeap (memory s))
    /\ s' = set_memory
              (set_tableHeap
                 (alter (fun tab =>
                           {| fParent := fParent tab; fBuiltin := fBuiltin tab;
                              fOwnedSymbols := fOwnedSymbols tab ++ [p];
                              fOwnedStrings := fOwnedStrings tab;
                              fBindings := fBindings tab |}) t (tableHeap (memory s)))
                 (set_symbolHeap (symbolHeap (memory s) ++ [sym]) (memory s))) s.
Proof.
  unfold takeOwnershipOfSymbol.
  intros ([t tab] & s1 & Hd & Hrun)%bind_Ok.
  apply bind_Ok in Hd as (? & ? & [= <- <-] & Hd).
  unfold derefTable in Hd. destruct (fSymbolTable s) as [t'|] eqn:Hcur; [|discriminate].
  destruct (tableHeap (memory s) !! t') as [tab'|] eqn:Htab; [|discriminate].
  injection Hd as <- <- <-.
  apply bind_Ok in Hrun as (? & ? & [= <- <-] & Hrun).
  apply bind_Ok in Hrun as (? & s2 & [= _ <-] & Hrun).
  apply bind_Ok in Hrun as (? & s3 & [= _ <-] & [= <- <-]).
  exists t', tab'. repeat split; try assumption; reflexivity.
Qed.

(** The end of every registering case: the symbol is stored, the current
    scope takes ownership of it, and the id is bound to it. *)
Lemma registered sym id s r s' :
  (result ← takeOwnershipOfSymbol sym; addSymbol id (Some result);; mret (Some result)) s
  = Ok r s' ->
  exists p t tab,
    r = Some p
    /\ fSymbols s' !! id = Some (Some p)
    /\ symbolHeap (memory s') !! p = Some sym
    /\ length (symbolHeap (memory s')) = S p
    /\ fSymbolTable s' = Some t
    /\ tableHeap (memory s') !! t = Some tab
    /\ last (fOwnedSymbols tab) = Some p.
Proof.
  intros (p & s1 & Htake & Hrun)%bind_Ok.
  apply bind_Ok in Hrun as (? & s2 & [= _ <-] & [= <- <-]).
  apply takeOwnershipOfSymbol_Ok in Htake as (t & tab & Hcur & Htab & Hp & ->).
  exists p, t. eexists. split; [reflexivity|]. cbn.
  split; [apply lookup_insert_eq|].
  split; [subst p; apply list_lookup_middle; reflexivity|].
  split; [rewrite length_app; cbn; lia|].
  split; [exact Hcur|].
  split; [rewrite list_lookup_alter_eq, Htab; reflexivity|].
  cbn. apply last_snoc.
Qed.

(** X5.  Under each of the four tags that carry an id, [symbol()] returns
    a symbol object it has just made, of the class of the tag, which the
    current scope now owns (it is the last of its owned symbols) and which
    the id read after the tag now refers to. *)
Theorem symbol_registers fuel s kind s0 c id s1 r s' :
  readU8 s = Ok kind s0 ->
  switch symbolCases kind = Some c ->
  In c registering ->
  readU16 s0 = Ok id s1 ->
  symbol (S fuel) s = Ok r s' ->
  exists p sym t tab,
    r = Some p
    /\ fSymbols s' !! id = Some (Some p)
    /\ symbolHeap (memory s') !! p = Some sym
    /\ length (symbolHeap (memory s')) = S p
    /\ Symbol_madeBy sym = Some c
    /\ fSymbolTable s' = Some t
    /\ tableHeap (memory s') !! t = Some tab
    /\ last (fOwnedSymbols tab) = Some p.
Proof.
  intros Hkind Hcase Hc Hid Hrun.
  cbn [symbol] in Hrun. rewrite (bind_Ok_l _ _ _ _ _ Hkind), Hcase in Hrun.
  unfold registering in Hc.
  repeat (destruct Hc as [<-|Hc]); [..|destruct Hc];
    rewrite (bind_Ok_l _ _ _ _ _ Hid) in Hrun.
  - apply bind_Ok in Hrun as (componentType & s2 & _ & Hrun).
    apply bind_Ok in Hrun as (count & s3 & _ & Hrun).
    apply bind_Ok in Hrun as ([ct ctObj] & s4 & _ & Hrun).
    apply bind_Ok in Hrun as (arrayName & s5 & _ & Hrun).
    apply registered in Hrun as (p & t & tab & ? & ? & ? & ? & ? & ? & ?).
    exists p. eexists. exists t, tab. repeat (split; [eassumption|]).
    split; [reflexivity|auto].
  - apply bind_Ok in Hrun as (mods & s2 & _ & Hrun).
    apply bind_Ok in Hrun as (name & s3 & _ & Hrun).
    apply bind_Ok in Hrun as (parameterCount & s4 & _ & Hrun).
    apply bind_Ok in Hrun as (parameters & s5 & _ & Hrun).
    apply bind_Ok in Hrun as (returnType & s6 & _ & Hrun).
    apply bind_Ok in Hrun as (pooled & s7 & _ & Hrun).
    apply bind_Ok in Hrun as (builtin & s8 & _ & Hrun).
    apply registered in Hrun as (p & t & tab & ? & ? & ? & ? & ? & ? & ?).
    exists p. eexists. exists t, tab. repeat (split; [eassumption|]).
    split; [reflexivity|auto].
  - apply bind_Ok in Hrun as (name & s2 & _ & Hrun).
    apply bind_Ok in Hrun as (fieldCount & s3 & _ & Hrun).
    apply bind_Ok in Hrun as (fields & s4 & _ & Hrun).
    apply bind_Ok in Hrun as (interfaceBlock & s5 & _ & Hrun).
    apply bind_Ok in Hrun as (nameChars & s6 & _ & Hrun).
    apply registered in Hrun as (p & t & tab & ? & ? & ? & ? & ? & ? & ?).
    exists p. eexists. exists t, tab. repeat (split; [eassumption|]).
    split; [reflexivity|auto].
  - apply bind_Ok in Hrun as (m & s2 & _ & Hrun).
    apply bind_Ok in Hrun as (name & s3 & _ & Hrun).
    apply bind_Ok in Hrun as (ty & s4 & _ & Hrun).
    apply bind_Ok in Hrun as (storage & s5 & _ & Hrun).
    apply bind_Ok in Hrun as (builtin & s6 & _ & Hrun).
    apply registered in Hrun as (p & t & tab & ? & ? & ? & ? & ? & ? & ?).
    exists p. eexists. exists t, tab. repeat (split; [eassumption|]).
    split; [reflexivity|auto].
Qed.

End Symbols.

Lemma type_checked_witness :
  (exists s' sym,
     type (env:=Example.debugBuild) 2 (Example.bodyState Example.intType)
       = Ok (Some 0%nat) s'
     /\ symbolHeap (memory s') !! 0%nat = Some sym /\ Symbol_kind sym = kType)
  /\ (exists s' sym,
        type (env:=Example.releaseBuild) 3 (Example.bodyState Example.variableSymbol)
          = Ok (Some 3%nat) s'
        /\ symbol (env:=Example.releaseBuild) 3 (Example.bodyState Example.variableSymbol)
           = Ok (Some 3%nat) s'
        /\ symbolHeap (memory s') !! 3%nat = Some sym /\ Symbol_kind sym = kVariable).
Proof.
  split.
  - eassert (Hrun : type (env:=Example.debugBuild) 2
                      (Example.bodyState Example.intType) = Ok _ _)
      by (vm_compute; reflexivity).
    destruct (type_checked (env:=Example.debugBuild) _ _ _ _ Hrun) as [_ Hdebug].
    destruct (Hdebug eq_refl) as (t & sym & [= <-] & Hsym & Hkind).
    eexists _, sym. split; [exact Hrun|]. split; assumption.
  - eassert (Hrun : type (env:=Example.releaseBuild) 3
                      (Example.bodyState Example.variableSymbol) = Ok _ _)
      by (vm_compute; reflexivity).
    destruct (type_checked (env:=Example.releaseBuild) _ _ _ _ Hrun) as [Hsym _].
    eexists _, _. split; [exact Hrun|]. split; [exact Hsym|].
    split; vm_compute; reflexivity.
Defined.

Lemma symbol_registers_witness :
  exists s',
    symbol (env:=Example.debugBuild) 3 (Example.bodyState Example.variableSymbol)
      = Ok (Some 3%nat) s'
    /\ fSymbols s' !! 7 = Some (Some 3%nat)
    /\ (fOwnedSymbols <$> tableHeap (memory s') !! 1%nat) = Some [3%nat].
Proof.
  eassert (Hrun : symbol (env:=Example.debugBuild) 3
                    (Example.bodyState Example.variableSymbol) = Ok _ _)
    by (vm_compute; reflexivity).
  edestruct (symbol_registers (env:=Example.debugBuild) 2
               (Example.bodyState Example.variableSymbol))
    as (p & sym & t & tab & [= <-] & Hid & _);
    [ vm_compute; reflexivity | vm_compute; reflexivity | do 3 right; left; reflexivity
    | vm_compute; reflexivity | exact Hrun |].
  eexists. split; [exact Hrun|]. split; [exact Hid|]. vm_compute. reflexivity.
Defined.

(** ** Program elements *)

Section Elements.

Context {env : Env}.

(** X6.  A tag that is no case of [element()] is fatal with assertions.
    Without them the element is null, which is also what ends the element
    list: the loop of [elements()] stops there and reads no further, as it
    does at kElementsComplete_Command. *)
Theorem elements_end_at_unrecognized_tag fuel s kind s0 :
  readU8 s = Ok kind s0 ->
  switch elementCases kind = None ->
  (SK_DEBUG = true -> element (S fuel) s = Fatal AssertionFailure)
  /\ (SK_DEBUG = false ->
      element (S fuel) s = Ok None s0
      /\ forall turns, elementLoop (S turns) (element (S fuel)) s = Ok [] s0).
Proof.
  intros Hkind Hcase.
  assert (Helem : element (S fuel) s
                  = if SK_DEBUG then Fatal AssertionFailure else Ok None s0).
  { cbn [element]. rewrite (bind_Ok_l _ _ _ _ _ Hkind), Hcase. apply default_branch. }
  split; intros Hbuild; rewrite Hbuild in Helem; [exact Helem|].
  split; [exact Helem|].
  intros turns. cbn [elementLoop]. now rewrite (bind_Ok_l _ _ _ _ _ Helem).
Qed.



End Elements.

Lemma elements_end_at_unrecognized_tag_witness :
  let s := Example.bodyState Example.cutElements in
  let cut := set_reader (set_fIP 30 (reader s)) s in
  let s0 := set_reader (set_fIP 31 (reader s)) s in
  element (env:=Example.debugBuild) 1 cut = Fatal AssertionFailure
  /\ elementLoop 3 (element (env:=Example.releaseBuild) 3) cut = Ok [] s0
  /\ elements (env:=Example.releaseBuild) 3 s
     = Ok [PGlobalVarDeclaration (Some SBreak)] s0
  /\ length (src (reader s0)) = 34%nat.
Proof.
  intros s cut s0.
  edestruct (elements_end_at_unrecognized_tag (env:=Example.debugBuild) 0 cut)
    as [Hdebug _]; [vm_compute; reflexivity | vm_compute; reflexivity |].
  edestruct (elements_end_at_unrecognized_tag (env:=Example.releaseBuild) 2 cut)
    as [_ Hrelease]; [vm_compute; reflexivity | vm_compute; reflexivity |].
  destruct (Hrelease eq_refl) as [_ Hloop].
  split; [exact (Hdebug eq_refl)|]. split; [exact (Hloop 2%nat)|].
  split; vm_compute; reflexivity.
Defined.


(** ** What only grows *)

Section GrowthSteps.

Context {env : Env} (R : relation State) `{!Growth R}.

Lemma readU8_growth : preserves R readU8.
Proof.
  intros s a s'. unfold readU8.
  destruct (src (reader s) !! fIP (reader s)); intros [=]; subst. apply growth_byte.
Qed.

Lemma readString_growth : preserves R readString.
Proof.
  intros s a s'. unfold readString.
  destruct (stringAt (reader s)) as [[str ip]|] eqn:E; intros [=]; subst.
  eapply growth_string. exact E.
Qed.

Lemma derefTable_growth p : preserves R (derefTable p).
Proof.
  intros s a s'. unfold derefTable.
  destruct p; [destruct (_ !! _)|]; intros [=]; subst. reflexivity.
Qed.

Lemma derefSymbol_growth p : preserves R (derefSymbol p).
Proof.
  intros s a s'. unfold derefSymbol.
  destruct p; [destruct (_ !! _)|]; intros [=]; subst. reflexivity.
Qed.

Lemma walkToRoot_growth n t : preserves R (walkToRoot n t).
Proof.
  revert t. induction n as [|n IH]; intros t; simpl.
  - apply preserves_outOfFuel.
  - apply preserves_bind; [typeclasses eauto|apply derefTable_growth|].
    intros [? tab]. destruct (fParent tab); [apply IH|].
    apply preserves_ret; typeclasses eauto.
Qed.

End GrowthSteps.

Ltac growth_atom :=
  first [ assumption
        | apply readU8_growth | apply readString_growth | apply derefTable_growth
        | apply derefSymbol_growth | apply walkToRoot_growth
        | apply growth_fSymbols | apply growth_symbolHeap | apply growth_poolHeap
        | apply growth_alterTable | apply growth_fSymbolTable | apply growth_tableHeap
        | typeclasses eauto
        | progress unfold readU16, readU32, readS8, readS16, readS32, readBool,
            SkASSERT, takeOwnershipOfSymbol, takeOwnershipOfString,
            addWithoutOwnership, isBuiltin, outermostAncestor, modifiersPool_add,
            addSymbol, symbolRef, possiblyBuiltinSymbolRef, layout, modifiers,
            pointee_is, type_of, type, isFunctionDefinition,
            expressionArray_of, expressionArray, singleArgumentConstructor,
            listConstructor, alterTable, pushSymbolTable, visibleEntry,
            AutoRehydratorSymbolTable ].

Ltac growth := preserves_auto growth_atom.

Section GrowthDecoders.

Context {env : Env} (R : relation State).

Lemma symbol_growth `{!Growth R} fuel : preserves R (symbol fuel).
Proof.
  induction fuel as [|fuel IH]; cbn [symbol]; [apply preserves_outOfFuel|].
  growth.
Qed.

Lemma pushSymbolTable_growth `{!Growth R} b : preserves R (pushSymbolTable b).
Proof.
  apply preserves_modify. intros s.
  etransitivity; [apply growth_tableHeap|].
  apply (growth_fSymbolTable (set_memory _ s)).
Qed.

Lemma symbolTable_growth `{!Growth R} fuel : preserves R (symbolTable fuel).
Proof.
  unfold symbolTable. pose proof (symbol_growth fuel).
  preserves_auto ltac:(first [apply pushSymbolTable_growth | growth_atom]).
Qed.

Lemma expression_growth `{!Growth R} fuel : preserves R (expression fuel).
Proof.
  induction fuel as [|fuel IH]; cbn [expression]; [apply preserves_outOfFuel|].
  pose proof (symbol_growth fuel).
  growth.
Qed.

Lemma statement_growth `{!Growth R} fuel : preserves R (statement fuel).
Proof.
  induction fuel as [|fuel IH]; cbn [statement]; [apply preserves_outOfFuel|].
  pose proof (symbol_growth fuel). pose proof (expression_growth fuel).
  pose proof (symbolTable_growth fuel).
  growth.
Qed.

Lemma setDefinition_growth `{!Definable R} d e : preserves R (setDefinition d e).
Proof.
  intros s u s'. unfold setDefinition.
  intros ([d' sym] & s1 & Hd & Hset)%bind_Ok.
  unfold derefSymbol in Hd.
  destruct (symbolHeap (memory s) !! d) as [decl|] eqn:Hdecl; [|discriminate].
  injection Hd as <- <- <-.
  destruct decl; try discriminate. injection Hset as _ <-.
  eapply growth_setDefinition; [exact Hdecl|reflexivity].
Qed.

Lemma element_growth `{!Definable R} fuel : preserves R (element fuel).
Proof.
  induction fuel as [|fuel IH]; cbn [element]; [apply preserves_outOfFuel|].
  pose proof (symbol_growth fuel). pose proof (statement_growth fuel).
  preserves_auto ltac:(first [apply setDefinition_growth | growth_atom]).
Qed.

Lemma elementLoop_growth `{!Growth R} n (element : Decode (option ProgramElement)) :
  preserves R element -> preserves R (elementLoop n element).
Proof.
  intros He. induction n as [|n IH]; cbn [elementLoop]; [apply preserves_outOfFuel|].
  growth.
Qed.

Lemma elements_growth `{!Definable R} fuel : preserves R (elements fuel).
Proof.
  unfold elements. pose proof (elementLoop_growth fuel _ (element_growth fuel)).
  growth.
Qed.

End GrowthDecoders.

#[export] Instance symbolsKept_growth {env : Env} : Growth symbolsKept.
Proof.
  split; unfold symbolsKept; cbn; try reflexivity.
  - split; [intros s; reflexivity|]. intros s1 s2 s3 H12 H23. etransitivity; eassumption.
  - intros s sym. now apply prefix_app_r.
Qed.

Lemma Symbol_withDefinition_twice sym e sym' e' sym'' :
  Symbol_withDefinition sym e = Some sym' ->
  Symbol_withDefinition sym' e' = Some sym'' ->
  Symbol_withDefinition sym e' = Some sym''.
Proof. destruct sym; cbn; try discriminate. intros [= <-]. cbn. auto. Qed.

#[export] Instance symbolsDefined_preorder : PreOrder symbolsDefined.
Proof.
  split.
  - intros s i sym Hi. eauto.
  - intros s1 s2 s3 H12 H23 i sym Hi.
    destruct (H12 _ _ Hi) as (sym2 & Hi2 & H2).
    destruct (H23 _ _ Hi2) as (sym3 & Hi3 & H3).
    exists sym3. split; [exact Hi3|].
    destruct H2 as [->|[e He]]; [exact H3|].
    destruct H3 as [->|[e' He']]; [eauto|].
    right. exists e'. eapply Symbol_withDefinition_twice; eassumption.
Qed.

#[export] Instance symbolsDefined_growth {env : Env} : Growth symbolsDefined.
Proof.
  split; [typeclasses eauto|..]; unfold symbolsDefined; cbn; try (intros; eauto; fail).
  intros s sym i sym' Hi. exists sym'. split; [|auto].
  now apply lookup_app_l_Some.
Qed.

#[export] Instance symbolsDefined_definable {env : Env} : Definable symbolsDefined.
Proof.
  split; [typeclasses eauto|]. unfold symbolsDefined; cbn.
  intros s d decl e decl' Hd Hdef i sym Hi.
  destruct (decide (d = i)) as [<-|Hne].
  - exists decl'. split; [apply list_lookup_insert_eq; eapply lookup_lt_Some; eassumption|].
    right. exists e. congruence.
  - exists sym. split; [|auto]. now rewrite list_lookup_insert_ne.
Qed.

Section Progress.

Context {env : Env}.

(** The string reader never moves the cursor backwards. *)
Hypothesis stringAt_forward :
  forall r str ip, stringAt r = Some (str, ip) -> (fIP r <= ip)%nat.

#[local] Instance forward_growth : Growth forward.
Proof.
  split; unfold forward; cbn; try (intros; lia).
  - split; [intros s; lia|]. intros s1 s2 s3. lia.
  - intros s str ip E. eapply stringAt_forward. exact E.
Qed.

#[local] Instance forward_definable : Definable forward.
Proof. split; [typeclasses eauto|]. unfold forward; cbn. intros. lia. Qed.

(** After its tag, a decoder that does not move the cursor backwards has
    moved it forwards. *)
Lemma tagged_advances {A} (k : Z -> Decode A) s r s' :
  (forall kind, preserves forward (k kind)) ->
  (readU8 ≫= k) s = Ok r s' ->
  (fIP (reader s) < fIP (reader s'))%nat.
Proof.
  intros Hk (kind & s0 & Hkind & Hrun)%bind_Ok.
  apply readU8_Ok in Hkind as [_ ->]. apply Hk in Hrun.
  unfold forward in Hrun. cbn in Hrun. lia.
Qed.

(** X8.  Every symbol, expression, statement and element that is decoded
    takes at least one byte: the cursor after it is beyond the cursor before
    it. *)
Theorem decoders_advance fuel s s' :
  (exists r, symbol fuel s = Ok r s')
  \/ (exists r, expression fuel s = Ok r s')
  \/ (exists r, statement fuel s = Ok r s')
  \/ (exists r, element fuel s = Ok r s') ->
  (fIP (reader s) < fIP (reader s'))%nat.
Proof.
  destruct fuel as [|fuel]; [intros [[? [=]]|[[? [=]]|[[? [=]]|[? [=]]]]]|].
  pose proof (symbol_growth forward fuel).
  pose proof (expression_growth forward fuel).
  pose proof (statement_growth forward fuel).
  pose proof (element_growth forward fuel).
  pose proof (symbolTable_growth forward fuel).
  intros [[r Hrun]|[[r Hrun]|[[r Hrun]|[r Hrun]]]];
    revert Hrun; apply tagged_advances; intros kind.
  - growth.
  - growth.
  - growth.
  - preserves_auto ltac:(first [apply setDefinition_growth | growth_atom]).
Qed.

End Progress.

Section Persistence.

Context {env : Env}.

(** X9.  Decoding a symbol, an expression, a statement or a symbol table
    adds symbols and changes none: every symbol that existed before is at
    the same place afterwards, unchanged, so a pointer taken earlier still
    refers to the same object. *)
Theorem symbols_are_only_added fuel s s' :
  (exists r, symbol fuel s = Ok r s')
  \/ (exists r, expression fuel s = Ok r s')
  \/ (exists r, statement fuel s = Ok r s')
  \/ (exists r, symbolTable fuel s = Ok r s') ->
  symbolHeap (memory s) `prefix_of` symbolHeap (memory s').
Proof.
  intros [[r Hrun]|[[r Hrun]|[[r Hrun]|[r Hrun]]]].
  - exact (symbol_growth symbolsKept fuel _ _ _ Hrun).
  - exact (expression_growth symbolsKept fuel _ _ _ Hrun).
  - exact (statement_growth symbolsKept fuel _ _ _ Hrun).
  - exact (symbolTable_growth symbolsKept fuel _ _ _ Hrun).
Qed.

(** X10.  Decoding an element, or the whole element list, removes no symbol
    and changes none, except that a function declaration may have been given
    a definition: its modifiers, name, parameters, return type and builtin
    flag stay as they were. *)
Theorem elements_define_only fuel s s' i sym :
  (exists r, element fuel s = Ok r s') \/ (exists r, elements fuel s = Ok r s') ->
  symbolHeap (memory s) !! i = Some sym ->
  exists sym',
    symbolHeap (memory s') !! i = Some sym'
    /\ (sym' = sym \/ exists e, Symbol_withDefinition sym e = Some sym').
Proof.
  intros [[r Hrun]|[r Hrun]].
  - exact (element_growth symbolsDefined fuel _ _ _ Hrun i sym).
  - exact (elements_growth symbolsDefined fuel _ _ _ Hrun i sym).
Qed.

End Persistence.

(** ** The scopes that a decode leaves alone *)

Section ScopesKept.

Context {env : Env}.

#[local] Instance scopesKept_preorder : PreOrder scopesKept.
Proof.
  split.
  - intros s. split; [reflexivity|]. split; [lia|reflexivity].
  - intros s1 s2 s3 (Hc12 & Hl12 & H12) (Hc23 & Hl23 & H23).
    split; [congruence|]. split; [lia|].
    intros t Ht Hne. rewrite H23 by (first [lia | congruence]). now apply H12.
Qed.

(** A step that touches neither the tables nor the current scope. *)
Lemma elsewhere_kept s s' :
  tableHeap (memory s') = tableHeap (memory s) -> fSymbolTable s' = fSymbolTable s ->
  scopesKept s s'.
Proof.
  intros Hheap Hcur. split; [exact Hcur|]. rewrite Hheap. split; [lia|reflexivity].
Qed.

(** A step that updates the table of the current scope. *)
Lemma current_kept s t f :
  fSymbolTable s = Some t ->
  scopesKept s (set_memory (set_tableHeap (alter f t (tableHeap (memory s)))
                                          (memory s)) s).
Proof.
  intros Hcur. split; [reflexivity|]. cbn. rewrite length_alter. split; [lia|].
  intros t' _ Hne. apply list_lookup_alter_ne. congruence.
Qed.

Lemma current_Ok s t tab s' :
  (s ← get; derefTable (fSymbolTable s)) s = Ok (t, tab) s' ->
  s' = s /\ fSymbolTable s = Some t.
Proof.
  intros (? & ? & [= <- <-] & Hd)%bind_Ok. unfold derefTable in Hd.
  destruct (fSymbolTable s) as [t'|]; [|discriminate].
  destruct (tableHeap (memory s) !! t'); [|discriminate].
  injection Hd as <- _ <-. auto.
Qed.

Lemma takeOwnershipOfSymbol_kept sym : preserves scopesKept (takeOwnershipOfSymbol sym).
Proof.
  intros s p s' (t & tab & Hcur & _ & _ & ->)%takeOwnershipOfSymbol_Ok.
  exact (current_kept
           (set_memory (set_symbolHeap (symbolHeap (memory s) ++ [sym]) (memory s)) s)
           t _ Hcur).
Qed.

Lemma takeOwnershipOfString_kept str : preserves scopesKept (takeOwnershipOfString str).
Proof.
  intros s p s'. unfold takeOwnershipOfString.
  intros ([t tab] & s1 & [-> Hcur]%current_Ok & Hrun)%bind_Ok.
  apply bind_Ok in Hrun as (? & s2 & [= _ <-] & [= _ <-]).
  now apply current_kept.
Qed.

Lemma addWithoutOwnership_kept p : preserves scopesKept (addWithoutOwnership p).
Proof.
  intros s u s'. unfold addWithoutOwnership.
  intros ([i sym] & s1 & Hd & Hrun)%bind_Ok.
  apply (derefSymbol_frame onlyCursor) in Hd as Hs1.
  assert (s1 = s) as -> by (unfold derefSymbol in Hd; destruct p;
                            [destruct (_ !! _)|]; congruence).
  apply bind_Ok in Hrun as (? & ? & [= <- <-] & Hrun).
  destruct (Symbol_name (memory s) sym); [|discriminate].
  apply bind_Ok in Hrun as ([t tab] & s2 & Ht & Hrun).
  unfold derefTable in Ht. destruct (fSymbolTable s) as [t'|] eqn:Hcur; [|discriminate].
  destruct (tableHeap (memory s) !! t'); [|discriminate].
  injection Ht as <- _ <-. injection Hrun as _ <-.
  now apply current_kept.
Qed.

Ltac kept_atom :=
  first [ assumption
        | apply takeOwnershipOfSymbol_kept | apply takeOwnershipOfString_kept
        | apply addWithoutOwnership_kept
        | apply readU8_frame | apply readString_frame | apply derefTable_frame
        | apply derefSymbol_frame | apply walkToRoot_frame
        | apply elsewhere_kept; reflexivity
        | typeclasses eauto
        | progress unfold readU16, readU32, readS8, readS16, readS32, readBool,
            SkASSERT, isBuiltin, outermostAncestor, modifiersPool_add,
            addSymbol, symbolRef, possiblyBuiltinSymbolRef, layout, modifiers,
            pointee_is, type_of, type, setDefinition, isFunctionDefinition,
            expressionArray_of, expressionArray, singleArgumentConstructor,
            listConstructor, visibleEntry ].

Ltac kept := preserves_auto kept_atom.

#[local] Instance scopesKept_reads : ReaderFrame scopesKept.
Proof. split; [typeclasses eauto|]. intros. now apply elsewhere_kept. Qed.

Lemma symbol_kept fuel : preserves scopesKept (symbol fuel).
Proof.
  induction fuel as [|fuel IH]; cbn [symbol]; [apply preserves_outOfFuel|].
  kept.
Qed.

Lemma symbolTableLoops_kept fuel ownedCount :
  preserves scopesKept (symbolTableLoops fuel ownedCount).
Proof. unfold symbolTableLoops. pose proof (symbol_kept fuel). kept. Qed.

Lemma expression_kept fuel : preserves scopesKept (expression fuel).
Proof.
  induction fuel as [|fuel IH]; cbn [expression]; [apply preserves_outOfFuel|].
  pose proof (symbol_kept fuel).
  kept.
Qed.

(** [symbolTable] changes no table that existed: what it adds goes to the
    table it makes. *)
Lemma symbolTable_kept fuel s r s' :
  symbolTable fuel s = Ok r s' ->
  (length (tableHeap (memory s)) <= length (tableHeap (memory s')))%nat
  /\ (forall t, (t < length (tableHeap (memory s)))%nat ->
                tableHeap (memory s') !! t = tableHeap (memory s) !! t)
  /\ (fSymbolTable s' = fSymbolTable s
      \/ exists t, fSymbolTable s' = Some t
                   /\ (length (tableHeap (memory s)) <= t)%nat).
Proof.
  rewrite symbolTable_unfold. intros (command & s0 & Hc & Hrun)%bind_Ok.
  pose proof (readU8_frame onlyCursor _ _ _ Hc) as Hs0.
  destruct (command =? code kVoid_Command).
  - injection Hrun as _ <-. rewrite Hs0. cbn. auto.
  - apply bind_Ok in Hrun as (? & s0' & ->%SkASSERT_pure & Hrun).
    apply bind_Ok in Hrun as (builtin & s1 & Hb & Hrun).
    apply bind_Ok in Hrun as (ownedCount & s2 & Hn & Hrun).
    assert (Hs2 : onlyCursor s s2).
    { transitivity s0; [exact Hs0|].
      transitivity s1; [exact (readBool_frame _ _ _ _ Hb)|].
      exact (readU16_frame _ _ _ _ Hn). }
    apply bind_Ok in Hrun as (? & s3 & [= _ <-] & Hrun).
    apply symbolTableLoops_kept in Hrun as (Hcur & Hlen & Hkept).
    assert (Hmem : memory s2 = memory s) by (rewrite Hs2; reflexivity).
    cbn in Hcur, Hlen, Hkept. rewrite Hmem in Hcur, Hlen, Hkept.
    rewrite length_app in Hlen, Hkept. cbn in Hlen, Hkept.
    split; [lia|]. split.
    + intros t Ht. rewrite Hkept; [|lia|intros [= <-]; lia].
      now apply lookup_app_l.
    + right. eexists. split; [exact Hcur|lia].
Qed.

(** The guard keeps every table that existed other than the one of the
    current scope, if its body does. *)
Lemma guard_kept {A} fuel (body : Decode A) :
  preserves scopesKept body ->
  preserves scopesKept (AutoRehydratorSymbolTable fuel body).
Proof.
  intros Hbody s r s'. unfold AutoRehydratorSymbolTable.
  intros (old & s0 & Hold & H1)%bind_Ok.
  apply bind_Ok in Hold as (? & ? & [= <- <-] & [= <- <-]).
  apply bind_Ok in H1 as (symbols & s1 & Hst & H2).
  apply bind_Ok in H2 as (? & s2 & Hset & H3).
  apply bind_Ok in H3 as (res & s3 & Hb & H4).
  apply bind_Ok in H4 as (? & s4 & [= _ <-] & [= _ <-]).
  destruct (symbolTable_kept _ _ _ _ Hst) as (Hlen1 & Hkept1 & Hcur1).
  destruct (symbolTable_scope _ _ _ _ Hst) as [_ Hscope].
  assert (Hs2 : tableHeap (memory s2) = tableHeap (memory s1)
                /\ fSymbolTable s2 = fSymbolTable s1).
  { destruct symbols; injection Hset as _ <-; [|auto]. cbn.
    destruct Hscope as [[[=] _]|[-> _]]. auto. }
  destruct Hs2 as [Hheap2 Hcur2].
  destruct (Hbody _ _ _ Hb) as (Hcur3 & Hlen3 & Hkept3).
  rewrite Hheap2 in Hlen3, Hkept3. rewrite Hcur2 in Hkept3.
  split; [reflexivity|]. cbn. split; [lia|].
  intros t Ht Hne. rewrite Hkept3, Hkept1; [reflexivity|assumption|lia|].
  destruct Hcur1 as [->|(t1 & -> & Ht1)]; [exact Hne|]. intros [= ->]. lia.
Qed.

Lemma statement_kept fuel : preserves scopesKept (statement fuel).
Proof.
  induction fuel as [|fuel IH]; cbn [statement]; [apply preserves_outOfFuel|].
  pose proof (symbol_kept fuel). pose proof (expression_kept fuel).
  preserves_auto ltac:(first [apply guard_kept | kept_atom]).
Qed.

Lemma element_kept fuel : preserves scopesKept (element fuel).
Proof.
  induction fuel as [|fuel IH]; cbn [element]; [apply preserves_outOfFuel|].
  pose proof (symbol_kept fuel). pose proof (statement_kept fuel).
  kept.
Qed.

Lemma elementLoop_kept n (element : Decode (option ProgramElement)) :
  preserves scopesKept element -> preserves scopesKept (elementLoop n element).
Proof.
  intros He. induction n as [|n IH]; cbn [elementLoop]; [apply preserves_outOfFuel|].
  kept.
Qed.

Lemma elements_kept fuel : preserves scopesKept (elements fuel).
Proof.
  unfold elements. pose proof (elementLoop_kept fuel _ (element_kept fuel)).
  kept.
Qed.

(** X11.  Decoding a symbol, an expression, a statement, an element or the
    element list leaves the current scope the pointer it was, and leaves
    every symbol table that existed, other than the table of the current
    scope, exactly as it was: the builtin root and the other ancestors gain
    no symbol, no string and no binding. *)
Theorem enclosing_scopes_untouched fuel s s' t tab :
  (exists r, symbol fuel s = Ok r s')
  \/ (exists r, expression fuel s = Ok r s')
  \/ (exists r, statement fuel s = Ok r s')
  \/ (exists r, element fuel s = Ok r s')
  \/ (exists r, elements fuel s = Ok r s') ->
  fSymbolTable s' = fSymbolTable s
  /\ (tableHeap (memory s) !! t = Some tab ->
      fSymbolTable s <> Some t ->
      tableHeap (memory s') !! t = Some tab).
Proof.
  intros Hrun.
  assert (Hkept : scopesKept s s').
  { destruct Hrun as [[r Hrun]|[[r Hrun]|[[r Hrun]|[[r Hrun]|[r Hrun]]]]].
    - exact (symbol_kept _ _ _ _ Hrun).
    - exact (expression_kept _ _ _ _ Hrun).
    - exact (statement_kept _ _ _ _ Hrun).
    - exact (element_kept _ _ _ _ Hrun).
    - exact (elements_kept _ _ _ _ Hrun). }
  destruct Hkept as (Hcur & _ & Hkept). split; [exact Hcur|].
  intros Htab Hne. rewrite Hkept; [exact Htab| |exact Hne].
  eapply lookup_lt_Some. exact Htab.
Qed.

(** X12.  [symbolTable()] changes no symbol table that existed, the one of
    the current scope included: the symbols it decodes and the names it
    binds go to the table it makes, which becomes the current scope.  On a
    Void tag there is no such table and the current scope stays. *)
Theorem symbolTable_fills_its_own fuel s r s' t tab :
  symbolTable fuel s = Ok r s' ->
  (tableHeap (memory s) !! t = Some tab -> tableHeap (memory s') !! t = Some tab)
  /\ (fSymbolTable s' = fSymbolTable s
      \/ exists new, fSymbolTable s' = Some new
                     /\ tableHeap (memory s) !! new = None).
Proof.
  intros (Hlen & Hkept & Hcur)%symbolTable_kept. split.
  - intros Htab. rewrite Hkept; [exact Htab|]. eapply lookup_lt_Some. exact Htab.
  - destruct Hcur as [Hcur|(new & Hnew & Hfresh)]; [auto|].
    right. exists new. split; [exact Hnew|]. now apply lookup_ge_None.
Qed.

End ScopesKept.

(** ** Progress, persistence and kept scopes on the example inputs *)

(** The string reader of the example environment steps over the two bytes
    of a string reference. *)
Lemma blobString_forward debug r str ip :
  stringAt (Env:=Example.env debug) r = Some (str, ip) -> (fIP r <= ip)%nat.
Proof.
  cbn. unfold Example.blobString.
  destruct (src r !! fIP r); [|discriminate]. cbn.
  destruct (src r !! S (fIP r)); [|discriminate]. cbn.
  destruct (src r !! _); [|discriminate]. cbn.
  intros [= _ <-]. lia.
Qed.

Lemma decoders_advance_witness :
  let s := Example.bodyState Example.blockStatement in
  exists r s',
    statement (env:=Example.debugBuild) 3 s = Ok r s'
    /\ (fIP (reader s) < fIP (reader s'))%nat.
Proof.
  intros s.
  eassert (Hrun : statement (env:=Example.debugBuild) 3 s = Ok _ _)
    by (vm_compute; reflexivity).
  eexists _, _. split; [exact Hrun|].
  apply (decoders_advance (env:=Example.debugBuild) (blobString_forward true) 3).
  right; right; left. eexists. exact Hrun.
Defined.

Lemma symbols_are_only_added_witness :
  let s := Example.bodyState Example.variableSymbol in
  exists r s',
    symbol (env:=Example.debugBuild) 3 s = Ok r s'
    /\ symbolHeap (memory s) `prefix_of` symbolHeap (memory s')
    /\ length (symbolHeap (memory s')) = S (length (symbolHeap (memory s))).
Proof.
  intros s.
  eassert (Hrun : symbol (env:=Example.debugBuild) 3 s = Ok _ _)
    by (vm_compute; reflexivity).
  eexists _, _. split; [exact Hrun|]. split; [|vm_compute; reflexivity].
  apply (symbols_are_only_added (env:=Example.debugBuild) 3).
  left. eexists. exact Hrun.
Defined.

Lemma elements_define_only_witness :
  let s := Example.afterTable Example.definedFunction in
  exists r s' decl decl',
    element (env:=Example.debugBuild) 2 s = Ok r s'
    /\ symbolHeap (memory s) !! 3%nat = Some decl
    /\ symbolHeap (memory s') !! 3%nat = Some decl'
    /\ decl' <> decl
    /\ exists e, Symbol_withDefinition decl e = Some decl'.
Proof.
  intros s.
  eassert (Hrun : element (env:=Example.debugBuild) 2 s = Ok _ _)
    by (vm_compute; reflexivity).
  eassert (Hdecl : symbolHeap (memory s) !! 3%nat = Some _)
    by (vm_compute; reflexivity).
  destruct (elements_define_only (env:=Example.debugBuild) 2 s _ 3%nat _
              (or_introl (ex_intro _ _ Hrun)) Hdecl) as (decl' & Hafter & Hsame).
  eexists _, _, _, decl'. split; [exact Hrun|]. split; [exact Hdecl|].
  split; [exact Hafter|].
  assert (Hne : decl' <> SymFunctionDeclaration ModifiersDefault "a" [] (Some 0%nat)
                           false None).
  { vm_compute in Hafter. injection Hafter as <-. discriminate. }
  split; [exact Hne|]. destruct Hsame as [->|He]; [contradiction|exact He].
Defined.

Lemma enclosing_scopes_untouched_witness :
  let s := Example.bodyState Example.variableSymbol in
  exists r s' root,
    symbol (env:=Example.debugBuild) 3 s = Ok r s'
    /\ fSymbolTable s = Some 1%nat /\ fSymbolTable s' = Some 1%nat
    /\ tableHeap (memory s) !! 0%nat = Some root
    /\ tableHeap (memory s') !! 0%nat = Some root
    /\ tableHeap (memory s') !! 1%nat <> tableHeap (memory s) !! 1%nat.
Proof.
  intros s.
  eassert (Hrun : symbol (env:=Example.debugBuild) 3 s = Ok _ _)
    by (vm_compute; reflexivity).
  eassert (Hroot : tableHeap (memory s) !! 0%nat = Some _) by (vm_compute; reflexivity).
  edestruct (enclosing_scopes_untouched (env:=Example.debugBuild) 3 s) with (t := 0%nat)
    as [Hcur Hkept]; [left; eexists; exact Hrun|].
  eexists _, _, _. split; [exact Hrun|]. split; [reflexivity|].
  split; [exact Hcur|]. split; [exact Hroot|].
  split; [apply Hkept; [exact Hroot|discriminate]|].
  vm_compute. discriminate.
Defined.

Lemma symbolTable_fills_its_own_witness :
  let s := Example.bodyState Example.definedFunction in
  exists s' module,
    symbolTable (env:=Example.debugBuild) 3 s = Ok (Some 2%nat) s'
    /\ fSymbolTable s = Some 1%nat
    /\ tableHeap (memory s) !! 1%nat = Some module
    /\ tableHeap (memory s') !! 1%nat = Some module
    /\ (fOwnedSymbols <$> tableHeap (memory s') !! 2%nat) = Some [3%nat].
Proof.
  intros s.
  eassert (Hrun : symbolTable (env:=Example.debugBuild) 3 s = Ok _ _)
    by (vm_compute; reflexivity).
  eassert (Hmodule : tableHeap (memory s) !! 1%nat = Some _)
    by (vm_compute; reflexivity).
  edestruct (symbolTable_fills_its_own (env:=Example.debugBuild) 3 s) with (t := 1%nat)
    as [Hkept _]; [exact Hrun|].
  eexists _, _. split; [exact Hrun|]. split; [reflexivity|].
  split; [exact Hmodule|]. split; [exact (Hkept Hmodule)|].
  vm_compute. reflexivity.
Defined.

(** ** List constructors *)

Section ListConstructors.

Context {env : Env}.

(** X14.  A constructor of the array, compound and struct family decodes its
    target type and then a count-prefixed argument list, and makes its node
    from the type and all of the arguments, as many as the count byte says:
    none, one or more. *)
Theorem listConstructor_keeps_arguments fuel s kind s0 c make r s' :
  readU8 s = Ok kind s0 ->
  switch expressionCases kind = Some c ->
  In (c, make) listFamily ->
  expression (S fuel) s = Ok r s' ->
  exists t s1 count s2 args,
    type fuel s0 = Ok (Some t) s1
    /\ readU8 s1 = Ok count s2
    /\ repeatM (Z.to_nat count) (expression fuel) s2 = Ok args s'
    /\ length args = Z.to_nat count
    /\ r = Some (make t args).
Proof.
  intros Hkind Hcase Hin Hrun.
  cbn [expression] in Hrun. rewrite (bind_Ok_l _ _ _ _ _ Hkind), Hcase in Hrun.
  assert (Hlist : listConstructor make (type fuel) (expression fuel) s0 = Ok r s').
  { unfold listFamily in Hin.
    repeat (destruct Hin as [[= <- <-]|Hin]); [exact Hrun..|destruct Hin]. }
  clear Hrun. unfold listConstructor in Hlist.
  apply bind_Ok in Hlist as (ty & s1 & Hty & Hlist).
  apply bind_Ok in Hlist as ([t tobj] & s1' & Hd & Hlist).
  unfold derefSymbol in Hd. destruct ty as [t'|]; [|discriminate].
  destruct (symbolHeap (memory s1) !! t'); [|discriminate].
  injection Hd as <- _ <-.
  apply bind_Ok in Hlist as (args & sA & Hargs & [= <- <-]).
  unfold expressionArray_of in Hargs.
  apply bind_Ok in Hargs as (count & sC & Hcount & Hargs).
  exists t', s1, count, sC, args. split; [exact Hty|]. split; [exact Hcount|].
  split; [exact Hargs|]. split; [|reflexivity].
  exact (repeatM_length _ _ _ _ _ Hargs).
Qed.

End ListConstructors.

(** ** The root of a pushed scope *)

Section Roots.

Context {env : Env}.




End Roots.

(** ** What the constructor asks of its root scope *)

Section RootScope.

Context {env : Env}.

(** X16.  With assertions, the constructor completes only on a root symbol
    table that is present and is a builtin table: a null root, or a root
    that is not builtin, is fatal before a byte is read. *)
Theorem construct_requires_builtin_root s u s' :
  SK_DEBUG = true ->
  construct s = Ok u s' ->
  exists t tab,
    fSymbolTable s = Some t /\ tableHeap (memory s) !! t = Some tab
    /\ fBuiltin tab = true.
Proof.
  intros Hdebug. unfold construct, SkASSERT. rewrite Hdebug.
  intros (? & s1 & Hnull & Hrun)%bind_Ok.
  apply bind_Ok in Hnull as (b & s0 & Hb & Hnull).
  apply bind_Ok in Hb as (? & ? & [= <- <-] & [= <- <-]).
  destruct (bool_decide (is_Some (fSymbolTable s))) eqn:Hsome; [|discriminate].
  injection Hnull as _ <-.
  apply bind_Ok in Hrun as (? & s2 & Hbuiltin & Hrun).
  apply bind_Ok in Hbuiltin as (b & s0 & Hb & Hbuiltin).
  unfold isBuiltin in Hb. apply bind_Ok in Hb as ([t tab] & s3 & Ht & [= <- <-]).
  apply bind_Ok in Ht as (? & ? & [= <- <-] & Ht).
  unfold derefTable in Ht. destruct (fSymbolTable s) as [t'|] eqn:Hcur; [|discriminate].
  destruct (tableHeap (memory s) !! t') as [tab'|] eqn:Htab; [|discriminate].
  injection Ht as <- <- <-.
  destruct (fBuiltin tab') eqn:Hflag; [|discriminate]. eauto.
Qed.

End RootScope.

Lemma listConstructor_keeps_arguments_witness :
  (exists s',
     expression (env:=Example.debugBuild) 3 (Example.bodyState (Example.compound 0))
       = Ok (Some (EConstructorCompound 0 [])) s')
  /\ (exists s',
        expression (env:=Example.debugBuild) 3 (Example.bodyState (Example.compound 2))
          = Ok (Some (EConstructorCompound 0 [Some (EBoolLiteral false);
                                              Some (EBoolLiteral false)])) s').
Proof.
  split.
  - edestruct (listConstructor_keeps_arguments (env:=Example.debugBuild) 2
                 (Example.bodyState (Example.compound 0)))
      as (t & s1 & count & s2 & args & _ & _ & _ & Hlen & _);
      [ vm_compute; reflexivity | vm_compute; reflexivity
      | right; left; reflexivity | vm_compute; reflexivity |].
    eexists. vm_compute. reflexivity.
  - edestruct (listConstructor_keeps_arguments (env:=Example.debugBuild) 2
                 (Example.bodyState (Example.compound 2)))
      as (t & s1 & count & s2 & args & _ & _ & _ & Hlen & _);
      [ vm_compute; reflexivity | vm_compute; reflexivity
      | right; left; reflexivity | vm_compute; reflexivity |].
    eexists. vm_compute. reflexivity.
Defined.


Lemma construct_requires_builtin_root_witness :
  let s := initialState (Example.wire Example.addProgram) (Some 0%nat)
                        Example.builtinMemory Example.outerAmbient in
  exists s' tab,
    construct (env:=Example.debugBuild) s = Ok tt s'
    /\ tableHeap (memory s) !! 0%nat = Some tab /\ fBuiltin tab = true.
Proof.
  intros s.
  eassert (Hrun : construct (env:=Example.debugBuild) s = Ok tt _)
    by (vm_compute; reflexivity).
  destruct (construct_requires_builtin_root (env:=Example.debugBuild) s tt _
              eq_refl Hrun) as (t & tab & [= <-] & Htab & Hflag).
  eexists _, tab. split; [exact Hrun|]. split; assumption.
Defined.

(** ** What a decode leaves to its caller *)

#[export] Instance surroundingsKept_frame : Frame surroundingsKept.
Proof.
  split; [split; [split|]|..]; unfold surroundingsKept; cbn;
    [ intros s; tauto
    | intros s1 s2 s3 (? & ? & ? & ?) (? & ? & ? & ?); repeat split; congruence
    | intros; tauto ..].
Qed.

#[export] Instance surroundingsKept_open : OpenFrame surroundingsKept.
Proof. split; [typeclasses eauto|..]; unfold surroundingsKept; cbn; intros; tauto. Qed.

#[export] Instance sameMemory_reads : ReaderFrame sameMemory.
Proof.
  split; [split|]; unfold sameMemory; cbn;
    [intros s; reflexivity | intros s1 s2 s3; congruence | intros; reflexivity].
Qed.

Section Surroundings.

Context {env : Env}.

#[local] Instance poolsKept_preorder : PreOrder poolsKept.
Proof.
  split.
  - intros s. repeat split; reflexivity.
  - intros s1 s2 s3 (Ha12 & Hc12 & Hl12 & H12) (Ha23 & Hc23 & Hl23 & H23).
    split; [congruence|]. split; [congruence|]. split; [congruence|].
    intros i Hi. rewrite H23, H12; [reflexivity|exact Hi|].
    rewrite Ha12. exact Hi.
Qed.

(** A step that touches neither the pools, nor the configurations, nor the
    context. *)
Lemma pools_elsewhere s s' :
  poolHeap (memory s') = poolHeap (memory s) ->
  configHeap (memory s') = configHeap (memory s) ->
  ambient s' = ambient s ->
  poolsKept s s'.
Proof.
  intros Hpools Hconfigs Hambient. split; [exact Hambient|]. split; [exact Hconfigs|].
  rewrite Hpools. split; reflexivity.
Qed.

#[local] Instance poolsKept_frame : ReaderFrame poolsKept.
Proof. split; [typeclasses eauto|]. intros. now apply pools_elsewhere. Qed.

Lemma modifiersPool_add_kept m : preserves poolsKept (modifiersPool_add m).
Proof.
  intros s r s'. unfold modifiersPool_add.
  intros (? & ? & [= <- <-] & Hrun)%bind_Ok.
  destruct (ctxModifiersPool (ambient s)) as [p|] eqn:Hp; [|discriminate].
  destruct (poolHeap (memory s) !! p) as [pool|]; [|discriminate].
  apply bind_Ok in Hrun as (? & s1 & [= _ <-] & [= _ <-]).
  split; [reflexivity|]. split; [reflexivity|]. cbn.
  split; [apply length_insert|].
  intros i Hi. apply list_lookup_insert_ne. congruence.
Qed.

Ltac pools_atom :=
  first [ assumption
        | apply modifiersPool_add_kept
        | apply readU8_frame | apply readString_frame | apply derefTable_frame
        | apply derefSymbol_frame | apply walkToRoot_frame
        | apply pools_elsewhere; reflexivity
        | typeclasses eauto
        | progress unfold readU16, readU32, readS8, readS16, readS32, readBool,
            SkASSERT, takeOwnershipOfSymbol, takeOwnershipOfString,
            addWithoutOwnership, isBuiltin, outermostAncestor,
            addSymbol, symbolRef, possiblyBuiltinSymbolRef, layout, modifiers,
            pointee_is, type_of, type, setDefinition, isFunctionDefinition,
            expressionArray_of, expressionArray, singleArgumentConstructor,
            listConstructor, visibleEntry, alterTable, pushSymbolTable,
            AutoRehydratorSymbolTable ].

Ltac pools := preserves_auto pools_atom.

Lemma symbol_pools fuel : preserves poolsKept (symbol fuel).
Proof.
  induction fuel as [|fuel IH]; cbn [symbol]; [apply preserves_outOfFuel|].
  pools.
Qed.

Lemma symbolTable_pools fuel : preserves poolsKept (symbolTable fuel).
Proof. unfold symbolTable. pose proof (symbol_pools fuel). pools. Qed.

Lemma expression_pools fuel : preserves poolsKept (expression fuel).
Proof.
  induction fuel as [|fuel IH]; cbn [expression]; [apply preserves_outOfFuel|].
  pose proof (symbol_pools fuel).
  pools.
Qed.

Lemma statement_pools fuel : preserves poolsKept (statement fuel).
Proof.
  induction fuel as [|fuel IH]; cbn [statement]; [apply preserves_outOfFuel|].
  pose proof (symbol_pools fuel). pose proof (expression_pools fuel).
  pose proof (symbolTable_pools fuel).
  pools.
Qed.

Lemma element_pools fuel : preserves poolsKept (element fuel).
Proof.
  induction fuel as [|fuel IH]; cbn [element]; [apply preserves_outOfFuel|].
  pose proof (symbol_pools fuel). pose proof (statement_pools fuel).
  pools.
Qed.

Lemma elementLoop_pools n (element : Decode (option ProgramElement)) :
  preserves poolsKept element -> preserves poolsKept (elementLoop n element).
Proof.
  intros He. induction n as [|n IH]; cbn [elementLoop]; [apply preserves_outOfFuel|].
  pools.
Qed.

Lemma elements_pools fuel : preserves poolsKept (elements fuel).
Proof.
  unfold elements. pose proof (elementLoop_pools fuel _ (element_pools fuel)).
  pools.
Qed.

#[local] Instance poolsExtended_preorder : PreOrder poolsExtended.
Proof.
  split.
  - intros s i pool Hi. eauto.
  - intros s1 s2 s3 H12 H23 i pool Hi.
    destruct (H12 _ _ Hi) as (pool2 & Hi2 & Hp2).
    destruct (H23 _ _ Hi2) as (pool3 & Hi3 & Hp3).
    exists pool3. split; [exact Hi3|]. etransitivity; eassumption.
Qed.

(** A step that does not touch the pools. *)
Lemma pools_untouched s s' :
  poolHeap (memory s') = poolHeap (memory s) -> poolsExtended s s'.
Proof. intros Hpools i pool Hi. rewrite Hpools. eauto. Qed.

#[local] Instance poolsExtended_frame : ReaderFrame poolsExtended.
Proof. split; [typeclasses eauto|]. intros. now apply pools_untouched. Qed.

Lemma modifiersPool_add_extended m : preserves poolsExtended (modifiersPool_add m).
Proof.
  intros s r s'. unfold modifiersPool_add.
  intros (? & ? & [= <- <-] & Hrun)%bind_Ok.
  destruct (ctxModifiersPool (ambient s)) as [p|] eqn:Hp; [|discriminate].
  destruct (poolHeap (memory s) !! p) as [installed|] eqn:Hinstalled; [|discriminate].
  apply bind_Ok in Hrun as (? & s1 & [= _ <-] & [= _ <-]).
  intros i pool Hi. cbn.
  destruct (decide (p = i)) as [<-|Hne].
  - exists (installed ++ [m]). split.
    + apply list_lookup_insert_eq. eapply lookup_lt_Some. exact Hinstalled.
    + rewrite Hinstalled in Hi. injection Hi as <-. now apply prefix_app_r.
  - exists pool. split; [|reflexivity]. now rewrite list_lookup_insert_ne.
Qed.

Ltac extended_atom :=
  first [ assumption
        | apply modifiersPool_add_extended
        | apply readU8_frame | apply readString_frame | apply derefTable_frame
        | apply derefSymbol_frame | apply walkToRoot_frame
        | apply pools_untouched; reflexivity
        | typeclasses eauto
        | progress unfold readU16, readU32, readS8, readS16, readS32, readBool,
            SkASSERT, takeOwnershipOfSymbol, takeOwnershipOfString,
            addWithoutOwnership, isBuiltin, outermostAncestor,
            addSymbol, symbolRef, possiblyBuiltinSymbolRef, layout, modifiers,
            pointee_is, type_of, type, setDefinition, isFunctionDefinition,
            expressionArray_of, expressionArray, singleArgumentConstructor,
            listConstructor, visibleEntry, alterTable, pushSymbolTable,
            AutoRehydratorSymbolTable ].

Ltac extended := preserves_auto extended_atom.

Lemma symbol_extends_pools fuel : preserves poolsExtended (symbol fuel).
Proof.
  induction fuel as [|fuel IH]; cbn [symbol]; [apply preserves_outOfFuel|].
  extended.
Qed.

Lemma symbolTable_extends_pools fuel : preserves poolsExtended (symbolTable fuel).
Proof. unfold symbolTable. pose proof (symbol_extends_pools fuel). extended. Qed.

Lemma expression_extends_pools fuel : preserves poolsExtended (expression fuel).
Proof.
  induction fuel as [|fuel IH]; cbn [expression]; [apply preserves_outOfFuel|].
  pose proof (symbol_extends_pools fuel).
  extended.
Qed.

Lemma statement_extends_pools fuel : preserves poolsExtended (statement fuel).
Proof.
  induction fuel as [|fuel IH]; cbn [statement]; [apply preserves_outOfFuel|].
  pose proof (symbol_extends_pools fuel). pose proof (expression_extends_pools fuel).
  pose proof (symbolTable_extends_pools fuel).
  extended.
Qed.

Lemma element_extends_pools fuel : preserves poolsExtended (element fuel).
Proof.
  induction fuel as [|fuel IH]; cbn [element]; [apply preserves_outOfFuel|].
  pose proof (symbol_extends_pools fuel). pose proof (statement_extends_pools fuel).
  extended.
Qed.

Lemma elementLoop_extends_pools n (element : Decode (option ProgramElement)) :
  preserves poolsExtended element -> preserves poolsExtended (elementLoop n element).
Proof.
  intros He. induction n as [|n IH]; cbn [elementLoop]; [apply preserves_outOfFuel|].
  extended.
Qed.

Lemma elements_extends_pools fuel : preserves poolsExtended (elements fuel).
Proof.
  unfold elements.
  pose proof (elementLoop_extends_pools fuel _ (element_extends_pools fuel)).
  extended.
Qed.

(** X17.  Decoding a symbol, an expression, a statement, a symbol table, an
    element or the element list writes neither to the buffer, nor to the
    start of its string area, nor to the program configurations, and leaves
    the context with the configuration, the modifiers pool and the memory
    pool it had installed.  No modifiers pool is made or dropped.  The pools
    other than the one installed in the context are as they were; the
    installed one, to which [symbol()] adds the modifiers it decodes, holds
    what it held, first and in the same order. *)
Theorem decoders_keep_surroundings fuel s s' :
  (exists r, symbol fuel s = Ok r s')
  \/ (exists r, expression fuel s = Ok r s')
  \/ (exists r, statement fuel s = Ok r s')
  \/ (exists r, symbolTable fuel s = Ok r s')
  \/ (exists r, element fuel s = Ok r s')
  \/ (exists r, elements fuel s = Ok r s') ->
  src (reader s') = src (reader s)
  /\ fStringStart (reader s') = fStringStart (reader s)
  /\ ambient s' = ambient s
  /\ configHeap (memory s') = configHeap (memory s)
  /\ length (poolHeap (memory s')) = length (poolHeap (memory s))
  /\ (forall i, ctxModifiersPool (ambient s) <> Some i ->
                poolHeap (memory s') !! i = poolHeap (memory s) !! i)
  /\ (forall i pool, poolHeap (memory s) !! i = Some pool ->
        exists pool', poolHeap (memory s') !! i = Some pool'
                      /\ pool `prefix_of` pool').
Proof.
  intros Hrun.
  assert (H : surroundingsKept s s' /\ poolsKept s s' /\ poolsExtended s s').
  { destruct Hrun as [[r Hrun]|[[r Hrun]|[[r Hrun]|[[r Hrun]|[[r Hrun]|[r Hrun]]]]]].
    - split; [exact (symbol_frame surroundingsKept fuel _ _ _ Hrun)|].
      split; [exact (symbol_pools fuel _ _ _ Hrun)
             |exact (symbol_extends_pools fuel _ _ _ Hrun)].
    - split; [exact (expression_frame surroundingsKept fuel _ _ _ Hrun)|].
      split; [exact (expression_pools fuel _ _ _ Hrun)
             |exact (expression_extends_pools fuel _ _ _ Hrun)].
    - split; [exact (statement_frame surroundingsKept fuel _ _ _ Hrun)|].
      split; [exact (statement_pools fuel _ _ _ Hrun)
             |exact (statement_extends_pools fuel _ _ _ Hrun)].
    - split; [exact (symbolTable_frame surroundingsKept fuel _ _ _ Hrun)|].
      split; [exact (symbolTable_pools fuel _ _ _ Hrun)
             |exact (symbolTable_extends_pools fuel _ _ _ Hrun)].
    - split; [exact (element_frame surroundingsKept fuel _ _ _ Hrun)|].
      split; [exact (element_pools fuel _ _ _ Hrun)
             |exact (element_extends_pools fuel _ _ _ Hrun)].
    - split; [exact (elements_frame surroundingsKept fuel _ _ _ Hrun)|].
      split; [exact (elements_pools fuel _ _ _ Hrun)
             |exact (elements_extends_pools fuel _ _ _ Hrun)]. }
  destruct H as ((Hsrc & Hstart & Hambient & Hconfigs) & (_ & _ & Hlen & Hothers) & Hext).
  auto 10.
Qed.

Lemma programEpilogue_memory config modifiers oldConfig oldModifiersPool elems :
  preserves sameMemory
    (programEpilogue config modifiers oldConfig oldModifiersPool elems).
Proof.
  unfold programEpilogue.
  preserves_auto ltac:(first [frame_atom | reflexivity]).
Qed.

(** X18.  [program()] makes one program configuration, with the kind and the
    required version read from the wire and version 300 as the highest
    allowed, and one modifiers pool, and gives both to the Program.  The
    modifiers decoded on the way go to that pool: the configurations and the
    modifiers pools that existed before the call are as they were. *)
Theorem program_owns_its_allocations fuel s command s0 kind s1 version s2 p s' :
  readU8 s = Ok command s0 ->
  readU8 s0 = Ok kind s1 ->
  readU8 s1 = Ok version s2 ->
  program fuel s = Ok p s' ->
  pConfig p = Some (length (configHeap (memory s)))
  /\ configHeap (memory s')
     = configHeap (memory s) ++
         [{| fKind := kind; fRequiredSkSLVersion := version;
             fMaxVersionAllowed300 := true |}]
  /\ pModifiers p = Some (length (poolHeap (memory s)))
  /\ length (poolHeap (memory s')) = S (length (poolHeap (memory s)))
  /\ forall i pool, poolHeap (memory s) !! i = Some pool ->
                    poolHeap (memory s') !! i = Some pool.
Proof.
  intros Hcommand Hkind Hversion. rewrite program_unfold.
  rewrite (bind_Ok_l _ _ _ _ _ Hcommand).
  intros (? & s0' & ->%SkASSERT_pure & Hrun)%bind_Ok.
  rewrite (bind_Ok_l _ _ _ _ _ Hkind), (bind_Ok_l _ _ _ _ _ Hversion) in Hrun.
  assert (Hs2 : onlyCursor s s2).
  { transitivity s0; [exact (readU8_frame _ _ _ _ Hcommand)|].
    transitivity s1; [exact (readU8_frame _ _ _ _ Hkind)|].
    exact (readU8_frame _ _ _ _ Hversion). }
  assert (Hmem : memory s2 = memory s) by (rewrite Hs2; reflexivity).
  apply bind_Ok in Hrun as (root & sR & Htable & Hrun).
  apply bind_Ok in Hrun as (elems & sE & Helems & Hrun).
  pose proof (programEpilogue_memory _ _ _ _ _ _ _ _ Hrun) as Hepilogue.
  assert (Hp : pConfig p = Some (length (configHeap (memory s2)))
               /\ pModifiers p = Some (length (poolHeap (memory s2)))).
  { unfold programEpilogue in Hrun.
    apply bind_Ok in Hrun as (? & ? & _ & Hrun).
    apply bind_Ok in Hrun as (? & ? & _ & Hrun).
    apply bind_Ok in Hrun as (? & ? & _ & Hrun).
    apply bind_Ok in Hrun as (? & ? & _ & Hrun).
    apply bind_Ok in Hrun as (? & ? & _ & Hrun).
    apply bind_Ok in Hrun as (? & ? & _ & Hrun).
    apply bind_Ok in Hrun as (? & ? & _ & Hrun).
    apply bind_Ok in Hrun as ([? ?] & ? & _ & Hrun).
    apply bind_Ok in Hrun as (? & ? & _ & Hrun).
    apply bind_Ok in Hrun as (? & ? & _ & [= <- _]).
    split; reflexivity. }
  destruct Hp as [Hconfig Hmodifiers]. rewrite Hmem in Hconfig, Hmodifiers.
  assert (Hkept : poolsKept (programStart kind version s2) sE).
  { transitivity sR;
      [exact (symbolTable_pools _ _ _ _ Htable) | exact (elements_pools _ _ _ _ Helems)]. }
  destruct Hkept as (_ & Hconfigs & Hlen & Hpools).
  unfold sameMemory in Hepilogue. rewrite Hepilogue.
  cbn in Hconfigs, Hlen, Hpools. rewrite Hmem in Hconfigs, Hlen, Hpools.
  rewrite length_app in Hlen. cbn in Hlen.
  split; [exact Hconfig|]. split; [exact Hconfigs|]. split; [exact Hmodifiers|].
  split; [lia|].
  intros i pool Hi. rewrite Hpools.
  - now apply lookup_app_l_Some.
  - apply lookup_lt_Some in Hi. intros [= Heq]. lia.
Qed.

End Surroundings.

Lemma decoders_keep_surroundings_witness :
  let s := Example.bodyState Example.variableSymbol in
  exists r s',
    symbol (env:=Example.debugBuild) 3 s = Ok r s'
    /\ src (reader s') = src (reader s) /\ ambient s' = Example.outerAmbient
    /\ poolHeap (memory s) = [[]]
    /\ poolHeap (memory s') = [[ModifiersDefault]].
Proof.
  intros s.
  eassert (Hrun : symbol (env:=Example.debugBuild) 3 s = Ok _ _)
    by (vm_compute; reflexivity).
  edestruct (decoders_keep_surroundings (env:=Example.debugBuild) 3 s)
    as (Hsrc & _ & Hambient & _ & Hlen & _ & Hgrown);
    [left; eexists; exact Hrun|].
  eexists _, _. split; [exact Hrun|]. split; [exact Hsrc|].
  split; [rewrite Hambient; vm_compute; reflexivity|].
  split; vm_compute; reflexivity.
Defined.

Lemma program_owns_its_allocations_witness :
  let s := constructed
             (initialState (Example.wire Example.addProgram) (Some 0%nat)
                           Example.builtinMemory Example.outerAmbient) 23 in
  exists p s',
    program (env:=Example.debugBuild) 64 s = Ok p s'
    /\ pConfig p = Some 1%nat
    /\ configHeap (memory s') !! 1%nat
       = Some {| fKind := 0; fRequiredSkSLVersion := 0; fMaxVersionAllowed300 := true |}
    /\ pModifiers p = Some 1%nat
    /\ poolHeap (memory s') !! 0%nat = Some [].
Proof.
  intros s.
  eassert (Hrun : program (env:=Example.debugBuild) 64 s = Ok _ _)
    by (vm_compute; reflexivity).
  edestruct (program_owns_its_allocations (env:=Example.debugBuild) 64 s)
    as (Hconfig & Hconfigs & Hmodifiers & _ & Hpools);
    [ vm_compute; reflexivity | vm_compute; reflexivity | vm_compute; reflexivity
    | exact Hrun |].
  eexists _, _. split; [exact Hrun|]. split; [exact Hconfig|].
  split; [rewrite Hconfigs; vm_compute; reflexivity|].
  split; [exact Hmodifiers|].
  apply Hpools. vm_compute. reflexivity.
Defined.

(** ** The end of a session *)

Lemma session_ends_witness :
  let bytes := Example.wire Example.corruptProgram in
  session (env:=Example.debugBuild) (S (length bytes)) bytes (Some 0%nat)
          Example.builtinMemory Example.outerAmbient = Fatal AssertionFailure
  /\ session (env:=Example.releaseBuild) (S (length bytes)) bytes (Some 0%nat)
             Example.builtinMemory Example.outerAmbient <> OutOfFuel.
Proof.
  intros bytes. split; [vm_compute; reflexivity|].
  apply (session_ends (env:=Example.releaseBuild) (blobString_forward false)).
  - split; cbn.
    + intros [|[|[|t]]] tab p; cbn; intros [= <-]; cbn; intros [= <-]; lia.
    + intros t [= <-]. lia.
  - intros kind t. cbn. intros [= <-]. eexists. reflexivity.
  - lia.
Defined.

(** ** Assertions only abort *)

Section Builds.

Context {e : Env}.

Lemma refines_refl {A} (m : Decode A) : refines m m.
Proof. intros s a s' H. exact H. Qed.

Lemma refines_bind {A B} (m1 m2 : Decode A) (k1 k2 : A -> Decode B) :
  refines m1 m2 -> (forall a, refines (k1 a) (k2 a)) ->
  refines (m1 ≫= k1) (m2 ≫= k2).
Proof.
  intros Hm Hk s b s' (a & s1 & H1 & H2)%bind_Ok.
  rewrite (bind_Ok_l _ _ _ _ _ (Hm _ _ _ H1)). now apply Hk.
Qed.

Lemma refines_repeatM {A} n (body1 body2 : Decode A) :
  refines body1 body2 -> refines (repeatM n body1) (repeatM n body2).
Proof.
  intros Hb. induction n as [|n IH]; cbn [repeatM]; [apply refines_refl|].
  apply refines_bind; [exact Hb|]. intros x.
  apply refines_bind; [exact IH|]. intros xs. apply refines_refl.
Qed.

Lemma refines_elementLoop n (e1 e2 : Decode (option ProgramElement)) :
  refines e1 e2 -> refines (elementLoop n e1) (elementLoop n e2).
Proof.
  intros He. induction n as [|n IH]; cbn [elementLoop]; [apply refines_refl|].
  apply refines_bind; [exact He|]. intros [elem|]; [|apply refines_refl].
  apply refines_bind; [exact IH|]. intros rest. apply refines_refl.
Qed.

(** An assertion whose condition leaves the state alone is refined by no
    assertion at all. *)
Lemma refines_SkASSERT (cond : Decode bool) :
  (forall s b s', cond s = Ok b s' -> s' = s) ->
  refines (SkASSERT (env:=e) cond) (SkASSERT (env:=withoutAssertions e) cond).
Proof.
  intros Hpure s u s'. unfold SkASSERT. cbn [SK_DEBUG withoutAssertions].
  destruct (SK_DEBUG (Env:=e)); [|auto].
  intros (b & s1 & Hb & Hrun)%bind_Ok. apply Hpure in Hb as ->.
  destruct b; [exact Hrun|discriminate].
Qed.

Lemma pure_mret (b : bool) s b' s' : (mret b : Decode bool) s = Ok b' s' -> s' = s.
Proof. now intros [= _ <-]. Qed.

Lemma pure_pointee_is k p s b s' : pointee_is k p s = Ok b s' -> s' = s.
Proof. now intros [-> _]%pointee_is_Ok. Qed.

Lemma pure_isFunctionDefinition r s b s' : isFunctionDefinition r s = Ok b s' -> s' = s.
Proof. unfold isFunctionDefinition. destruct r as [[]|]; intros [=]; congruence. Qed.

Lemma pure_isBuiltin s b s' : isBuiltin s = Ok b s' -> s' = s.
Proof.
  unfold isBuiltin. intros ([t tab] & s1 & [-> _]%current_Ok & [= _ <-])%bind_Ok.
  reflexivity.
Qed.

Lemma pure_current_is_some s b s' :
  (s ← get; mret (bool_decide (is_Some (fSymbolTable s)))) s = Ok b s' -> s' = s.
Proof. now intros (? & ? & [= <- <-] & [= _ <-])%bind_Ok. Qed.

Lemma pure_at_end s b s' :
  (s ← get; mret (fIP (reader s) =? fEnd (reader s))%nat) s = Ok b s' -> s' = s.
Proof. now intros (? & ? & [= <- <-] & [= _ <-])%bind_Ok. Qed.

Ltac pure_condition :=
  first [ apply pure_mret | apply pure_pointee_is | apply pure_isFunctionDefinition
        | apply pure_isBuiltin | apply pure_current_is_some | apply pure_at_end
        | match goal with
          | |- forall s b s', (match ?x with _ => _ end) s = Ok b s' -> s' = s =>
              destruct x; pure_condition
          end ].

(** One step of a syntax-directed proof that a decoder of the build
    without assertions refines the same decoder with assertions. *)
Ltac refines_step :=
  lazymatch goal with
  | |- refines (_ ≫= _) (_ ≫= _) => apply refines_bind; [|intro]
  | |- refines (repeatM _ _) (repeatM _ _) => apply refines_repeatM
  | |- refines (elementLoop _ _) (elementLoop _ _) => apply refines_elementLoop
  | |- refines (SkASSERT _) (SkASSERT _) => apply refines_SkASSERT; pure_condition
  | |- refines (match ?x with _ => _ end) (match ?y with _ => _ end) =>
      change y with x; destruct x
  | |- refines (let '(_, _) := ?x in _) _ => destruct x
  | |- refines (if ?b then _ else _) (if ?c then _ else _) =>
      change c with b; destruct b
  | _ => first [ assumption
               | exact (refines_refl _)
               | progress unfold layout, modifiers, type, type_of, visibleEntry,
                   symbolTable, AutoRehydratorSymbolTable, expressionArray,
                   expressionArray_of, singleArgumentConstructor, listConstructor,
                   elements, program, programEpilogue, construct, destruct_ ]
  end.

Ltac refines_auto := repeat refines_step.

Lemma symbol_refines fuel :
  refines (symbol (env:=e) fuel) (symbol (env:=withoutAssertions e) fuel).
Proof.
  induction fuel as [|fuel IH]; [apply refines_refl|].
  cbn [symbol]. refines_auto.
Qed.

Lemma expression_refines fuel :
  refines (expression (env:=e) fuel) (expression (env:=withoutAssertions e) fuel).
Proof.
  induction fuel as [|fuel IH]; [apply refines_refl|].
  pose proof (symbol_refines fuel).
  cbn [expression]. refines_auto.
Qed.

Lemma statement_refines fuel :
  refines (statement (env:=e) fuel) (statement (env:=withoutAssertions e) fuel).
Proof.
  induction fuel as [|fuel IH]; [apply refines_refl|].
  pose proof (symbol_refines fuel). pose proof (expression_refines fuel).
  cbn [statement]. refines_auto.
Qed.

Lemma element_refines fuel :
  refines (element (env:=e) fuel) (element (env:=withoutAssertions e) fuel).
Proof.
  induction fuel as [|fuel IH]; [apply refines_refl|].
  pose proof (symbol_refines fuel). pose proof (statement_refines fuel).
  cbn [element]. refines_auto.
Qed.

Lemma program_refines fuel :
  refines (program (env:=e) fuel) (program (env:=withoutAssertions e) fuel).
Proof.
  pose proof (symbol_refines fuel). pose proof (element_refines fuel).
  refines_auto.
Qed.

Lemma construct_refines :
  refines (construct (env:=e)) (construct (env:=withoutAssertions e)).
Proof. refines_auto. Qed.

Lemma destruct_refines :
  refines (destruct_ (env:=e)) (destruct_ (env:=withoutAssertions e)).
Proof.
  intros s u s'. unfold destruct_. cbn [SK_DEBUG withoutAssertions].
  destruct (SK_DEBUG (Env:=e)) eqn:Hdebug; [|auto].
  unfold SkASSERT. rewrite Hdebug.
  intros (b & s1 & Hb%pure_at_end & Hrun)%bind_Ok. subst s1.
  destruct b; [exact Hrun|discriminate].
Qed.

(** X19.  Assertions only abort.  Whatever a decoder returns in the build
    with assertions it returns in the build without them, from the same
    state and with the same final state: for every symbol, expression,
    statement and element, for [program()] and for a whole session. *)
Theorem release_refines_debug fuel :
  refines (symbol (env:=e) fuel) (symbol (env:=withoutAssertions e) fuel)
  /\ refines (expression (env:=e) fuel) (expression (env:=withoutAssertions e) fuel)
  /\ refines (statement (env:=e) fuel) (statement (env:=withoutAssertions e) fuel)
  /\ refines (element (env:=e) fuel) (element (env:=withoutAssertions e) fuel)
  /\ refines (program (env:=e) fuel) (program (env:=withoutAssertions e) fuel)
  /\ forall bytes symbols m a p s',
       session (env:=e) fuel bytes symbols m a = Ok p s' ->
       session (env:=withoutAssertions e) fuel bytes symbols m a = Ok p s'.
Proof.
  split; [apply symbol_refines|]. split; [apply expression_refines|].
  split; [apply statement_refines|]. split; [apply element_refines|].
  split; [apply program_refines|].
  intros bytes symbols m a p s'. unfold session.
  intros (? & s1 & Hc & Hrun)%bind_Ok.
  apply bind_Ok in Hrun as (p' & s2 & Hp & Hrun).
  apply bind_Ok in Hrun as (? & s3 & Hd & [= <- <-]).
  rewrite (bind_Ok_l _ _ _ _ _ (construct_refines _ _ _ Hc)).
  rewrite (bind_Ok_l _ _ _ _ _ (program_refines fuel _ _ _ Hp)).
  rewrite (bind_Ok_l _ _ _ _ _ (destruct_refines _ _ _ Hd)). reflexivity.
Qed.

End Builds.

Lemma release_refines_debug_witness :
  let bytes := Example.wire Example.addProgram in
  exists p s',
    session (env:=Example.debugBuild) 64 bytes (Some 0%nat)
            Example.builtinMemory Example.outerAmbient = Ok p s'
    /\ session (env:=withoutAssertions Example.debugBuild) 64 bytes (Some 0%nat)
               Example.builtinMemory Example.outerAmbient = Ok p s'.
Proof.
  intros bytes.
  eassert (Hrun : session (env:=Example.debugBuild) 64 bytes (Some 0%nat)
                          Example.builtinMemory Example.outerAmbient = Ok _ _)
    by (vm_compute; reflexivity).
  eexists _, _. split; [exact Hrun|].
  apply (release_refines_debug (e:=Example.debugBuild) 64). exact Hrun.
Defined.

(** ** The end of the element list *)

Section Terminator.

Context {env : Env}.

(** X20.  With assertions, [element()] returns null at
    kElementsComplete_Command and nowhere else: the element list ends
    exactly at its terminator, which is the byte just read. *)
Theorem elements_end_only_at_terminator fuel s s' :
  SK_DEBUG = true ->
  element fuel s = Ok None s' ->
  exists kind,
    readU8 s = Ok kind s'
    /\ switch elementCases kind = Some kElementsComplete_Command.
Proof.
  intros Hdebug. destruct fuel as [|fuel]; [discriminate|]. cbn [element].
  intros (kind & s0 & Hkind & Hrun)%bind_Ok. exists kind.
  destruct (switch elementCases kind) as [c|] eqn:Hcase.
  - apply find_some in Hcase as [Hin _]. unfold elementCases in Hin.
    repeat (destruct Hin as [<-|Hin]); [..|destruct Hin];
      try (injection Hrun as <-; split; [exact Hkind|reflexivity]);
      repeat first
        [ apply bind_Ok in Hrun as (? & ? & ? & Hrun)
        | match type of Hrun with
          | (let '(_, _) := ?x in _) _ = _ => destruct x
          end ];
      try discriminate.
    injection Hrun as -> _.
    match goal with
    | H : SkASSERT (isFunctionDefinition None) _ = _ |- _ =>
        unfold SkASSERT in H; rewrite Hdebug in H; discriminate
    end.
  - unfold SkASSERT in Hrun. rewrite Hdebug in Hrun. discriminate.
Qed.

End Terminator.

Lemma elements_end_only_at_terminator_witness :
  let s := Example.bodyState [Example.tagValue kElementsComplete_Command] in
  exists s',
    element (env:=Example.debugBuild) 1 s = Ok None s'
    /\ readU8 s = Ok (Example.tagValue kElementsComplete_Command) s'.
Proof.
  intros s.
  eassert (Hrun : element (env:=Example.debugBuild) 1 s = Ok None _)
    by (vm_compute; reflexivity).
  destruct (elements_end_only_at_terminator (env:=Example.debugBuild) 1 s _
              eq_refl Hrun) as (kind & Hkind & _).
  eexists. split; [exact Hrun|]. vm_compute. reflexivity.
Defined.

(** ** Layouts from their bytes *)

Section LayoutBytes.

Context {env : Env}.

Lemma readU8_input s b rest :
  input s = b :: rest ->
  exists s1, readU8 s = Ok b s1 /\ advanced 1 s s1 /\ input s1 = rest.
Proof.
  unfold input, readU8. intros Hin.
  remember (drop (fIP (reader s)) (src (reader s))) as d eqn:Hdrop.
  destruct d as [|x xs]; [discriminate|]. symmetry in Hdrop.
  injection Hin as <- <-.
  assert (Hx : src (reader s) !! fIP (reader s) = Some x).
  { rewrite <- (Nat.add_0_r (fIP (reader s))), <- lookup_drop, Hdrop. reflexivity. }
  rewrite Hx. eexists. split; [reflexivity|].
  split; [unfold advanced; now rewrite Nat.add_1_r|].
  cbn. replace (S (fIP (reader s))) with (fIP (reader s) + 1)%nat by lia.
  rewrite <- drop_drop, Hdrop. reflexivity.
Qed.

Lemma signExtend_truncate w v :
  0 < w -> fitsSigned w v -> signExtend w (truncate w v) = v.
Proof.
  intros Hw Hv. unfold fitsSigned in Hv. unfold signExtend, truncate.
  assert (Hp : 2 ^ w = 2 * 2 ^ (w - 1)).
  { rewrite <- Z.pow_succ_r by lia. f_equal. lia. }
  assert (Hpos : 0 < 2 ^ (w - 1)) by (apply Z.pow_pos_nonneg; lia).
  rewrite testbit_top by (try lia; apply Z.mod_pos_bound; lia).
  destruct (Z_lt_le_dec v 0) as [Hneg|Hnonneg].
  - assert (Hm : v mod 2 ^ w = v + 2 ^ w).
    { symmetry. apply (Z.mod_unique _ _ (-1)); lia. }
    rewrite Hm. destruct (2 ^ (w - 1) <=? v + 2 ^ w) eqn:E; [lia|].
    apply Z.leb_gt in E. lia.
  - rewrite Z.mod_small by lia.
    destruct (2 ^ (w - 1) <=? v) eqn:E; [apply Z.leb_le in E; lia|reflexivity].
Qed.

Lemma truncate_range w v : 0 < w -> 0 <= truncate w v < 2 ^ w.
Proof. intros Hw. unfold truncate. apply Z.mod_pos_bound. apply Z.pow_pos_nonneg; lia. Qed.

Lemma wireBytes_1 v : wireBytes 1 v = [truncate 8 v].
Proof.
  unfold wireBytes. change (8 * Z.of_nat 1) with 8. cbn [littleEndian].
  unfold truncate. change (2 ^ 8) with 256. rewrite Z.mod_mod by lia.
  destruct wireOrder; reflexivity.
Qed.

Lemma readS8_input s v rest :
  fitsSigned 8 v ->
  input s = wireBytes 1 v ++ rest ->
  exists s1, readS8 s = Ok v s1 /\ advanced 1 s s1 /\ input s1 = rest.
Proof.
  intros Hv Hin. rewrite wireBytes_1 in Hin.
  destruct (readU8_input _ _ _ Hin) as (s1 & Hread & Hadv & Hrest).
  exists s1. unfold readS8. rewrite (bind_Ok_l _ _ _ _ _ Hread).
  cbn [mret Decode_ret]. rewrite signExtend_truncate by (assumption || lia). auto.
Qed.

Lemma readU16_input s u rest :
  0 <= u < 2 ^ 16 ->
  input s = wireBytes 2 u ++ rest ->
  exists s1, readU16 s = Ok u s1 /\ advanced 2 s s1 /\ input s1 = rest.
Proof.
  intros Hu Hin. unfold wireBytes, truncate in Hin.
  rewrite Z.mod_small in Hin by (cbn; lia).
  unfold readU16, assemble.
  assert (H0 : 0 <= u / 256 < 256)
    by (split; [apply Z.div_pos; lia | apply Z.div_lt_upper_bound; lia]).
  pose proof (Z.div_mod u 256 ltac:(lia)).
  destruct wireOrder; cbn in Hin;
    [ destruct (readU8_input s (u mod 256) ((u / 256) mod 256 :: rest) Hin)
        as (s1 & H1 & A1 & R1)
    | destruct (readU8_input s ((u / 256) mod 256) (u mod 256 :: rest) Hin)
        as (s1 & H1 & A1 & R1) ];
    destruct (readU8_input _ _ _ R1) as (s2 & H2 & A2 & R2);
    exists s2; rewrite (bind_Ok_l _ _ _ _ _ H1), (bind_Ok_l _ _ _ _ _ H2);
    (split; [|split; [exact (advanced_trans 1 1 _ _ _ A1 A2)|exact R2]]);
    cbn; f_equal; rewrite (Z.mod_small (u / 256)) by lia; lia.
Qed.

Lemma readS16_input s v rest :
  fitsSigned 16 v ->
  input s = wireBytes 2 v ++ rest ->
  exists s1, readS16 s = Ok v s1 /\ advanced 2 s s1 /\ input s1 = rest.
Proof.
  intros Hv Hin.
  assert (Hin' : input s = wireBytes 2 (truncate 16 v) ++ rest).
  { rewrite Hin. unfold wireBytes. f_equal.
    change (8 * Z.of_nat 2) with 16. unfold truncate.
    now rewrite Z.mod_mod by lia. }
  destruct (readU16_input _ _ _ (truncate_range 16 v ltac:(lia)) Hin')
    as (s1 & Hread & Hadv & Hrest).
  exists s1. unfold readS16. rewrite (bind_Ok_l _ _ _ _ _ Hread).
  cbn. rewrite signExtend_truncate by (assumption || lia). auto.
Qed.

Lemma readU32_input s u rest :
  0 <= u < 2 ^ 32 ->
  input s = wireBytes 4 u ++ rest ->
  exists s1, readU32 s = Ok u s1 /\ advanced 4 s s1 /\ input s1 = rest.
Proof.
  intros Hu Hin. unfold wireBytes, truncate in Hin.
  rewrite Z.mod_small in Hin by (cbn; lia).
  unfold readU32, assemble. cbn [littleEndian] in Hin.
  set (q1 := u / 256) in *. set (q2 := q1 / 256) in *. set (q3 := q2 / 256) in *.
  pose proof (Z.div_mod u 256 ltac:(lia)) as E0.
  pose proof (Z.div_mod q1 256 ltac:(lia)) as E1.
  pose proof (Z.div_mod q2 256 ltac:(lia)) as E2.
  pose proof (Z.mod_pos_bound u 256 ltac:(lia)) as B0.
  pose proof (Z.mod_pos_bound q1 256 ltac:(lia)) as B1.
  pose proof (Z.mod_pos_bound q2 256 ltac:(lia)) as B2.
  fold q1 in E0. fold q2 in E1. fold q3 in E2.
  assert (B3 : 0 <= q3 < 256) by lia.
  rewrite (Z.mod_small q3) in Hin by lia.
  destruct wireOrder; cbn in Hin;
    (destruct (readU8_input _ _ _ Hin) as (s1 & K1 & A1 & R1));
    (destruct (readU8_input _ _ _ R1) as (s2 & K2 & A2 & R2));
    (destruct (readU8_input _ _ _ R2) as (s3 & K3 & A3 & R3));
    (destruct (readU8_input _ _ _ R3) as (s4 & K4 & A4 & R4));
    exists s4;
    rewrite (bind_Ok_l _ _ _ _ _ K1), (bind_Ok_l _ _ _ _ _ K2),
      (bind_Ok_l _ _ _ _ _ K3), (bind_Ok_l _ _ _ _ _ K4);
    (split;
      [ cbn; f_equal; lia
      | split; [|exact R4];
        exact (advanced_trans 1 3 _ _ _ A1
                 (advanced_trans 1 2 _ _ _ A2 (advanced_trans 1 1 _ _ _ A3 A4))) ]).
Qed.

(** The flags of a layout: [int flags = this->readU32();]. *)
Lemma flags_input s v rest :
  fitsSigned 32 v ->
  input s = wireBytes 4 v ++ rest ->
  exists s1,
    (u ← readU32; mret (signExtend 32 (truncate 32 u))) s = Ok v s1
    /\ advanced 4 s s1 /\ input s1 = rest.
Proof.
  intros Hv Hin.
  assert (Hin' : input s = wireBytes 4 (truncate 32 v) ++ rest).
  { rewrite Hin. unfold wireBytes. f_equal.
    change (8 * Z.of_nat 4) with 32. unfold truncate.
    now rewrite Z.mod_mod by lia. }
  destruct (readU32_input _ _ _ (truncate_range 32 v ltac:(lia)) Hin')
    as (s1 & Hread & Hadv & Hrest).
  exists s1. rewrite (bind_Ok_l _ _ _ _ _ Hread). cbn [mret Decode_ret].
  unfold truncate at 1. rewrite Z.mod_small by (apply truncate_range; lia).
  rewrite signExtend_truncate by (assumption || lia). auto.
Qed.

(** X21.  [layout()] loses nothing: given tags that are distinct bytes,
    every Layout whose fields are values of the integer types they are read
    as is what [layout()] returns from the bytes of its tag and fields, in
    the order and the widths of the reads, and the cursor is then past
    exactly those bytes. *)
Theorem layout_from_its_bytes l s rest :
  tagsDistinct layoutCases ->
  Layout_inRange l ->
  input s = Layout_bytes l ++ rest ->
  exists s',
    layout s = Ok l s'
    /\ advanced (length (Layout_bytes l)) s s'
    /\ input s' = rest.
Proof.
  intros Htags Hrange Hin. unfold layout.
  destruct l as [|builtin|flags location offset binding index set builtin iai];
    cbn [Layout_bytes] in Hin; cbn [Layout_inRange] in Hrange.
  - destruct (Htags kDefaultLayout_Command) as [_ Hcase].
    { unfold layoutCases. cbn. auto. }
    destruct (readU8_input _ _ _ Hin) as (s0 & H0 & A0 & R0).
    exists s0. rewrite (bind_Ok_l _ _ _ _ _ H0). unfold switch. rewrite Hcase.
    auto.
  - destruct (Htags kBuiltinLayout_Command) as [_ Hcase].
    { unfold layoutCases. cbn. auto. }
    destruct (readU8_input _ _ _ Hin) as (s0 & H0 & A0 & R0).
    destruct (readS16_input _ _ _ Hrange R0) as (s1 & H1 & A1 & R1).
    exists s1. rewrite (bind_Ok_l _ _ _ _ _ H0). unfold switch. rewrite Hcase.
    rewrite (bind_Ok_l _ _ _ _ _ H1).
    split; [reflexivity|]. split; [|exact R1].
    cbn [Layout_bytes length]. 
    replace (length (wireBytes 2 builtin)) with 2%nat
      by (unfold wireBytes; destruct wireOrder; reflexivity).
    exact (advanced_trans 1 2 _ _ _ A0 A1).
  - destruct Hrange as (Rf & Rl & Ro & Rb & Ri & Rs & Rbu & Ra).
    destruct (Htags kLayout_Command) as [_ Hcase].
    { unfold layoutCases. cbn. auto. }
    rewrite <- app_comm_cons, <- !app_assoc in Hin.
    destruct (readU8_input _ _ _ Hin) as (s0 & H0 & A0 & R0).
    destruct (flags_input _ _ _ Rf R0) as (s1 & H1 & A1 & R1).
    destruct (readS8_input _ _ _ Rl R1) as (s2 & H2 & A2 & R2).
    destruct (readS16_input _ _ _ Ro R2) as (s3 & H3 & A3 & R3).
    destruct (readS16_input _ _ _ Rb R3) as (s4 & H4 & A4 & R4).
    destruct (readS8_input _ _ _ Ri R4) as (s5 & H5 & A5 & R5).
    destruct (readS8_input _ _ _ Rs R5) as (s6 & H6 & A6 & R6).
    destruct (readS16_input _ _ _ Rbu R6) as (s7 & H7 & A7 & R7).
    destruct (readS8_input _ _ _ Ra R7) as (s8 & H8 & A8 & R8).
    exists s8. rewrite (bind_Ok_l _ _ _ _ _ H0). unfold switch. rewrite Hcase.
    rewrite (bind_Ok_l _ _ _ _ _ H1), (bind_Ok_l _ _ _ _ _ H2),
      (bind_Ok_l _ _ _ _ _ H3), (bind_Ok_l _ _ _ _ _ H4), (bind_Ok_l _ _ _ _ _ H5),
      (bind_Ok_l _ _ _ _ _ H6), (bind_Ok_l _ _ _ _ _ H7), (bind_Ok_l _ _ _ _ _ H8).
    split; [reflexivity|]. split; [|exact R8].
    replace (length (Layout_bytes
                       (LayoutOf flags location offset binding index set builtin iai)))
      with 15%nat
      by (cbn [Layout_bytes length]; rewrite !length_app; unfold wireBytes;
          destruct wireOrder; reflexivity).
    exact (advanced_trans 1 14 _ _ _ A0
            (advanced_trans 4 10 _ _ _ A1
              (advanced_trans 1 9 _ _ _ A2
                (advanced_trans 2 7 _ _ _ A3
                  (advanced_trans 2 5 _ _ _ A4
                    (advanced_trans 1 4 _ _ _ A5
                      (advanced_trans 1 3 _ _ _ A6
                        (advanced_trans 2 1 _ _ _ A7 A8)))))))).
Qed.

End LayoutBytes.

Lemma layout_from_its_bytes_witness :
  let l := LayoutOf (-2147483647) (-1) 258 (-2) 3 (-128) 32767 127 in
  let s := Example.bodyState Example.fullLayout in
  exists s',
    layout (env:=Example.debugBuild) s = Ok l s'
    /\ advanced 15 s s' /\ input s' = [].
Proof.
  intros l s.
  destruct (layout_from_its_bytes (env:=Example.debugBuild) l s []) as (s' & Hrun).
  - intros c Hin. unfold layoutCases in Hin.
    repeat (destruct Hin as [<-|Hin]); [..|destruct Hin];
      (split; [vm_compute; split; [discriminate|reflexivity] | vm_compute; reflexivity]).
  - unfold l, Layout_inRange, fitsSigned. cbn. lia.
  - vm_compute. reflexivity.
  - exists s'. exact Hrun.
Defined.
